(** * blockminmax: per-cell minimum / maximum of an XYZ point cloud

    A shallow embedding of [blockminmax.c] (the C port) and of the update
    rule of [blockminmax.tcl] (the Tcl original), followed by the
    properties of the coordinate mapper, the cell aggregator and the
    command line that the specification states.

    Numbers are IEEE 754 binary64 values, modelled by the Standard
    Library's [spec_float] with precision 53 and maximal exponent 1024:
    every arithmetic operation of the C source is the correctly rounded
    (to nearest, ties to even) operation of [SpecFloat].  Integers of the
    C source ([long long], [size_t]) are [Z] with the wrap-around written
    out where the source converts between them. *)

From Stdlib Require Import ZArith List String Ascii Bool Lia.
From Stdlib Require Import Floats.SpecFloat.
From stdpp Require Import base list strings gmap.

Local Open Scope Z_scope.

(* ================================================================= *)
(** * Part I: definitions *)
(* ================================================================= *)

(** ** binary64 arithmetic *)

Module F64.

Definition prec : Z := 53.
Definition emax : Z := 1024.

#[warnings="-notation-for-abbreviation"]
Notation double := spec_float (only parsing).

Definition add : double -> double -> double := SFadd prec emax.
Definition sub : double -> double -> double := SFsub prec emax.
Definition mul : double -> double -> double := SFmul prec emax.
Definition div : double -> double -> double := SFdiv prec emax.

(** The C comparisons [a < b], [a > b], [a <= b], [a >= b]; each is
    false as soon as one operand is a NaN. *)
Definition lt (a b : double) : bool := SFltb a b.
Definition gt (a b : double) : bool := SFltb b a.
Definition le (a b : double) : bool := SFleb a b.
Definition ge (a b : double) : bool := SFleb b a.

Definition is_nan (a : double) : bool :=
  match a with S754_nan => true | _ => false end.

(** Conversion of an integer to the nearest double, as in [(double)ix]. *)
Definition of_Z (n : Z) : double := binary_normalize prec emax n 0 false.

(** The double nearest to [m * 10^e10], with the given sign: the value
    of a decimal literal of the source and of a decimal token read by
    [strtod]. *)
Definition of_decimal (neg : bool) (m : Z) (e10 : Z) : double :=
  match m with
  | Z0 => S754_zero neg
  | Zpos p =>
      if 0 <=? e10
      then binary_round prec emax neg (Z.to_pos (Zpos p * 10 ^ e10)) 0
      else
        let '(q, e, l) :=
          SFdiv_core_binary prec emax (Zpos p) 0 (10 ^ (- e10)) 0 in
        binary_round_aux prec emax neg q e l
  | Zneg _ => S754_nan
  end.

(** The double nearest to [m * 2^e2] (hexadecimal tokens of [strtod]). *)
Definition of_binary (neg : bool) (m : Z) (e2 : Z) : double :=
  match m with
  | Z0 => S754_zero neg
  | Zpos p => binary_round prec emax neg p e2
  | Zneg _ => S754_nan
  end.

(** Literals of the source. *)
Definition zero : double := S754_zero false.
Definition half : double := Eval vm_compute in of_decimal false 5 (-1).
Definition one : double := Eval vm_compute in of_decimal false 1 0.
Definition eps : double := Eval vm_compute in of_decimal false 1 (-12).
Definition infinity : double := S754_infinity false.
Definition neg_infinity : double := S754_infinity true.

(** [floor x] as an integer, for a finite [x = (-1)^s * m * 2^e]. *)
Definition floor_finite (s : bool) (m : positive) (e : Z) : Z :=
  if 0 <=? e then (if s then - Z.shiftl (Zpos m) e else Z.shiftl (Zpos m) e)
  else
    let q := Z.shiftr (Zpos m) (- e) in
    let exact := Z.shiftl q (- e) =? Zpos m in
    if s then (if exact then - q else - q - 1) else q.

(** C's [floor]: zeros, infinities and NaN are returned unchanged, and
    so is a value with a non-negative exponent (already integral). *)
Definition floor (x : double) : double :=
  match x with
  | S754_finite s m e =>
      if 0 <=? e then x
      else
        match floor_finite s m e with
        | Z0 => S754_zero s
        | n => of_Z n
        end
  | _ => x
  end.

(** The integer nearest to a finite [x], halfway cases away from zero
    (the mathematical result of C's [round]); [None] for infinities
    and NaN. *)
Definition round_half_away (x : double) : option Z :=
  match x with
  | S754_zero _ => Some 0
  | S754_finite s m e =>
      let n :=
        if 0 <=? e then Z.shiftl (Zpos m) e
        else
          let q := Z.shiftr (Zpos m) (- e) in
          let r := Zpos m - Z.shiftl q (- e) in
          if 2 ^ (- e) <=? 2 * r then q + 1 else q in
      Some (if s then - n else n)
  | _ => None
  end.

(** The integer part of a finite [x] (rounding toward zero). *)
Definition truncate (x : double) : option Z :=
  match x with
  | S754_zero _ => Some 0
  | S754_finite s m e =>
      let n := if 0 <=? e then Z.shiftl (Zpos m) e
               else Z.shiftr (Zpos m) (- e) in
      Some (if s then - n else n)
  | _ => None
  end.

Definition LLONG_MIN : Z := - 2 ^ 63.
Definition LLONG_MAX : Z := 2 ^ 63 - 1.
Definition SIZE_MAX : Z := 2 ^ 64 - 1.

(** What a conversion to [long long] delivers when the value does not
    fit (or is an infinity or a NaN).  C leaves the result of [llround]
    unspecified and that of the cast undefined there; the x86-64
    conversion instructions deliver the "integer indefinite" value
    [LLONG_MIN], which is what is modelled. *)
Definition ll_indefinite : Z := LLONG_MIN.

Definition to_ll (n : option Z) : Z :=
  match n with
  | Some n => if (LLONG_MIN <=? n) && (n <=? LLONG_MAX) then n else ll_indefinite
  | None => ll_indefinite
  end.

(** C's [llround(x)] and [(long long)x]. *)
Definition llround (x : double) : Z := to_ll (round_half_away x).
Definition cast_ll (x : double) : Z := to_ll (truncate x).

(** C's [(size_t)x]; [None] where the conversion is undefined (the
    integer part does not fit 64 unsigned bits). *)
Definition cast_size (x : double) : option Z :=
  match truncate x with
  | Some n => if (0 <=? n) && (n <=? SIZE_MAX) then Some n else None
  | None => None
  end.

(** Conversions between the 64-bit integer types. *)
Definition u64 (n : Z) : Z := n mod 2 ^ 64.
Definition s64 (n : Z) : Z := (n + 2 ^ 63) mod 2 ^ 64 - 2 ^ 63.

End F64.

(** ** The C library functions the program calls *)

Module Libc.
Import F64.

Definition code (c : ascii) : Z := Z.of_N (N_of_ascii c).

(** [isspace] in the C locale: space, \t, \n, \v, \f, \r. *)
Definition isspace (c : ascii) : bool :=
  (code c =? 32) || ((9 <=? code c) && (code c <=? 13)).

Definition digit_val (c : ascii) : option Z :=
  if (48 <=? code c) && (code c <=? 57) then Some (code c - 48) else None.

Definition hex_val (c : ascii) : option Z :=
  if (48 <=? code c) && (code c <=? 57) then Some (code c - 48)
  else if (97 <=? code c) && (code c <=? 102) then Some (code c - 87)
  else if (65 <=? code c) && (code c <=? 70) then Some (code c - 55)
  else None.

Definition tolower (c : ascii) : ascii :=
  if (65 <=? code c) && (code c <=? 90)
  then ascii_of_N (Z.to_N (code c + 32)) else c.

Definition isalnum_ (c : ascii) : bool :=
  ((48 <=? code c) && (code c <=? 57))
  || ((97 <=? code c) && (code c <=? 122))
  || ((65 <=? code c) && (code c <=? 90))
  || (code c =? 95).

Fixpoint skip_space (s : string) : string :=
  match s with
  | String c s' => if isspace c then skip_space s' else s
  | EmptyString => s
  end.

(** [drop_prefix_ci p s]: what follows [p] in [s] when [s] starts with
    [p], letter case ignored ([p] is given in lower case). *)
Fixpoint drop_prefix_ci (p s : string) : option string :=
  match p, s with
  | EmptyString, _ => Some s
  | String a p', String c s' =>
      if Ascii.eqb a (tolower c) then drop_prefix_ci p' s' else None
  | String _ _, EmptyString => None
  end.

(** A run of digits in base [base]: the accumulated value, the number
    of digits read and what follows them. *)
Fixpoint take_digits (val : ascii -> option Z) (base : Z)
         (s : string) (acc n : Z) : Z * Z * string :=
  match s with
  | String c s' =>
      match val c with
      | Some d => take_digits val base s' (base * acc + d) (n + 1)
      | None => (acc, n, s)
      end
  | EmptyString => (acc, n, s)
  end.

(** Digits, an optional radix point, more digits; at least one digit
    is required.  Returns the digits read as one integer, the number of
    them after the point, and the rest. *)
Definition take_mantissa (val : ascii -> option Z) (base : Z) (s : string)
  : option (Z * Z * string) :=
  let '(a1, n1, r1) := take_digits val base s 0 0 in
  match r1 with
  | String "."%char r1' =>
      let '(a2, n2, r2) := take_digits val base r1' a1 0 in
      if 0 <? n1 + n2 then Some (a2, n2, r2) else None
  | _ => if 0 <? n1 then Some (a1, 0, r1) else None
  end.

(** An exponent part: the marker, an optional sign and at least one
    decimal digit; when it is not complete nothing of it is consumed. *)
Definition take_exponent (marker : ascii) (s : string) : Z * string :=
  match s with
  | String c s' =>
      if Ascii.eqb (tolower c) marker then
        let '(neg, s'') :=
          match s' with
          | String "-"%char t => (true, t)
          | String "+"%char t => (false, t)
          | _ => (false, s')
          end in
        let '(e, n, r) := take_digits digit_val 10 s'' 0 0 in
        if 0 <? n then ((if neg then - e else e), r) else (0, s)
      else (0, s)
  | EmptyString => (0, s)
  end.

(** The characters of [nan(...)] between the parentheses. *)
Fixpoint take_nchars (s : string) : option string :=
  match s with
  | String c s' =>
      if Ascii.eqb c ")"%char then Some s'
      else if isalnum_ c then take_nchars s' else None
  | EmptyString => None
  end.

(** Is the finite double [r] equal to [m * base10^e10 * 2^e2]? *)
Definition exactly (r : double) (m e10 e2 : Z) : bool :=
  match r with
  | S754_zero _ => m =? 0
  | S754_finite _ mr er =>
      let d := er - e2 in
      (Zpos mr * 2 ^ (Z.max d 0) * 10 ^ (Z.max (- e10) 0)
       =? m * 10 ^ (Z.max e10 0) * 2 ^ (Z.max (- d) 0))
  | _ => false
  end.

(** Below the normal range: is [m * 10^e10 * 2^e2], rounded to 53 bits
    with an unbounded exponent, smaller than [DBL_MIN = 2^-1022]?  That
    is, is it smaller than [(2^54 - 1) * 2^-1076], halfway between
    [DBL_MIN] and the 53-bit number before it (the tie goes to
    [DBL_MIN]).  This is the tininess after rounding that glibc detects
    on x86-64: a value just below [DBL_MIN] that rounds up to it is
    tiny or not by this threshold, not by the double it is rounded to. *)
Definition tiny (m e10 e2 : Z) : bool :=
  let s := e2 + 1076 in
  m * 10 ^ (Z.max e10 0) * 2 ^ (Z.max s 0)
  <? (2 ^ 54 - 1) * 10 ^ (Z.max (- e10) 0) * 2 ^ (Z.max (- s) 0).

(** The result of one [strtod(nptr, &end)] call made with [errno]
    cleared: either no conversion was performed ([end == nptr]), or a
    value, whether [errno] was set to [ERANGE], and the text at [end]. *)
Inductive strtod_result :=
| NoConversion
| Converted (v : double) (erange : bool) (rest : string).

(** The range check of glibc: [ERANGE] on overflow, and on a value
    below the normal range whose result is not exact.  The result is
    the correctly rounded one, as C specifies; glibc 2.36 differs from
    it on hexadecimal tokens of 54 significant bits below the normal
    range (it reads [0x0.ffffffffffffecp-1022] rounded down, and
    [0x0.fffffffffffff4p-1022] without a range error). *)
Definition ranged (r : double) (m e10 e2 : Z) (rest : string) : strtod_result :=
  match r with
  | S754_infinity _ => Converted r true rest
  | _ => Converted r (tiny m e10 e2 && negb (exactly r m e10 e2)) rest
  end.

Definition strtod_decimal (neg : bool) (s : string) : strtod_result :=
  match take_mantissa digit_val 10 s with
  | Some (m, nfrac, r) =>
      let '(e, r') := take_exponent "e"%char r in
      ranged (of_decimal neg m (e - nfrac)) m (e - nfrac) 0 r'
  | None => NoConversion
  end.

Definition strtod_hex (neg : bool) (s : string) : strtod_result :=
  match take_mantissa hex_val 16 s with
  | Some (m, nfrac, r) =>
      let '(e, r') := take_exponent "p"%char r in
      ranged (of_binary neg m (e - 4 * nfrac)) m 0 (e - 4 * nfrac) r'
  | None => NoConversion
  end.

(** C's [strtod]: white space, an optional sign, then [infinity],
    [inf], [nan], [nan(chars)], a hexadecimal or a decimal number. *)
Definition strtod (nptr : string) : strtod_result :=
  let s := skip_space nptr in
  let '(neg, s) :=
    match s with
    | String "-"%char t => (true, t)
    | String "+"%char t => (false, t)
    | _ => (false, s)
    end in
  match drop_prefix_ci "infinity"%string s with
  | Some r => Converted (S754_infinity neg) false r
  | None =>
  match drop_prefix_ci "inf"%string s with
  | Some r => Converted (S754_infinity neg) false r
  | None =>
  match drop_prefix_ci "nan"%string s with
  | Some r =>
      match r with
      | String "("%char r' =>
          match take_nchars r' with
          | Some r'' => Converted S754_nan false r''
          | None => Converted S754_nan false r
          end
      | _ => Converted S754_nan false r
      end
  | None =>
  match drop_prefix_ci "0x"%string s with
  | Some r =>
      match strtod_hex neg r with
      | NoConversion => strtod_decimal neg s
      | res => res
      end
  | None => strtod_decimal neg s
  end end end end.

(** [strtok_r(str, delim, &save)]: skip the leading delimiters; the
    token runs to the next delimiter, which is consumed.  Returns the
    token and the saved position, [None] when no token is left. *)
Definition is_delim (delim : string) (c : ascii) : bool :=
  existsb (Ascii.eqb c) (list_ascii_of_string delim).

Fixpoint skip_delims (delim s : string) : string :=
  match s with
  | String c s' => if is_delim delim c then skip_delims delim s' else s
  | EmptyString => s
  end.

Fixpoint split_token (delim s : string) : string * string :=
  match s with
  | String c s' =>
      if is_delim delim c then (EmptyString, s')
      else let '(tok, rest) := split_token delim s' in (String c tok, rest)
  | EmptyString => (EmptyString, EmptyString)
  end.

Definition strtok_r (str delim : string) : option (string * string) :=
  match skip_delims delim str with
  | EmptyString => None
  | s => Some (split_token delim s)
  end.

(** [fgets(line, size, f)] called until it returns NULL, on a stream
    holding [s]: each call delivers at most [size - 1] characters and
    stops after a newline.  [cur] is the buffer being filled (reversed)
    and [room] the space left in it. *)
Fixpoint fgets_from (size : nat) (s : string) (cur : list ascii) (room : nat)
  : list string :=
  match s with
  | EmptyString =>
      match cur with
      | [] => []
      | _ => [string_of_list_ascii (rev cur)]
      end
  | String c s' =>
      match room with
      | O =>
          string_of_list_ascii (rev cur)
          :: (if Ascii.eqb c "010"%char
              then String c EmptyString :: fgets_from size s' [] (size - 1)
              else fgets_from size s' [c] (size - 2))
      | S room' =>
          if Ascii.eqb c "010"%char
          then string_of_list_ascii (rev (c :: cur))
               :: fgets_from size s' [] (size - 1)
          else fgets_from size s' (c :: cur) room'
      end
  end.

Definition fgets_all (size : nat) (s : string) : list string :=
  fgets_from size s [] (size - 1).

(** The buffer seen as a C string: it ends at the first NUL. *)
Fixpoint c_str (s : string) : string :=
  match s with
  | String c s' => if Ascii.eqb c "000"%char then EmptyString else String c (c_str s')
  | EmptyString => EmptyString
  end.

End Libc.

(** ** blockminmax.c *)

Module Blockminmax.
Import F64 Libc.

Local Open Scope string_scope.

Record Options := {
  xmin : double; xmax : double; ymin : double; ymax : double;
  inc : double;               (* grid increment *)
  find_min : bool;            (* true: compute min; false: compute max *)
  path : option string;       (* input path *)
  out : option string;        (* optional output path *)
  tcl_round : bool            (* emulate Tcl rounding for cell snapping *)
}.

(** How a run of the process ends: it returns from [main], it calls
    [exit] with a status after a message on stderr (the first line of
    the message is recorded), or it runs into behaviour C leaves
    undefined. *)
Inductive outcome (A : Type) : Type :=
| Done (a : A)
| Exit (status : Z) (message : string)
| Undefined.
Arguments Done {A} a.
Arguments Exit {A} status message.
Arguments Undefined {A}.

Definition EXIT_SUCCESS : Z := 0.
Definition EXIT_FAILURE : Z := 1.

#[export] Instance outcome_ret : MRet outcome := fun A a => Done a.
#[export] Instance outcome_bind : MBind outcome := fun A B k m =>
  match m with
  | Done a => k a
  | Exit st msg => Exit st msg
  | Undefined => Undefined
  end.

(** The idiom [errno = 0; v = strtod(p, &end); if (errno || end == p)]
    fail: the value and [end] when the check passes. *)
Definition strtod_checked (p : string) : option (double * string) :=
  match strtod p with
  | Converted v false rest => Some (v, rest)
  | _ => None
  end.

Definition parse_region (s : string)
  : option (double * double * double * double) :=
  match s with
  | EmptyString => None
  | _ =>
    let p :=
      if String.prefix "-R" s || String.prefix "-r" s
      then String.substring 2 (String.length s - 2) s
      else if String.prefix "R" s || String.prefix "r" s
      then String.substring 1 (String.length s - 1) s
      else s in
    if (256 <=? String.length p)%nat then None else
    match strtok_r p "/" with None => None | Some (tok, save) =>
    match strtod_checked tok with None => None | Some (xmin_v, _) =>
    match strtok_r save "/" with None => None | Some (tok, save) =>
    match strtod_checked tok with None => None | Some (xmax_v, _) =>
    match strtok_r save "/" with None => None | Some (tok, save) =>
    match strtod_checked tok with None => None | Some (ymin_v, _) =>
    match strtok_r save "/" with None => None | Some (tok, save) =>
    match strtod_checked tok with None => None | Some (ymax_v, _) =>
      Some (xmin_v, xmax_v, ymin_v, ymax_v)
    end end end end end end end end
  end.

Definition parse_double_arg (next : string) : option double :=
  match strtod_checked next with
  | Some (v, _) => Some v
  | None => None
  end.

Definition set_region (opt : Options) (r : double * double * double * double)
  : Options :=
  let '(x0, x1, y0, y1) := r in
  {| xmin := x0; xmax := x1; ymin := y0; ymax := y1; inc := inc opt;
     find_min := find_min opt; path := path opt; out := out opt;
     tcl_round := tcl_round opt |}.

Definition set_inc (opt : Options) (v : double) : Options :=
  {| xmin := xmin opt; xmax := xmax opt; ymin := ymin opt; ymax := ymax opt;
     inc := v; find_min := find_min opt; path := path opt; out := out opt;
     tcl_round := tcl_round opt |}.

Definition set_find_min (opt : Options) (b : bool) : Options :=
  {| xmin := xmin opt; xmax := xmax opt; ymin := ymin opt; ymax := ymax opt;
     inc := inc opt; find_min := b; path := path opt; out := out opt;
     tcl_round := tcl_round opt |}.

Definition set_path (opt : Options) (p : string) : Options :=
  {| xmin := xmin opt; xmax := xmax opt; ymin := ymin opt; ymax := ymax opt;
     inc := inc opt; find_min := find_min opt; path := Some p; out := out opt;
     tcl_round := tcl_round opt |}.

Definition set_out (opt : Options) (o : string) : Options :=
  {| xmin := xmin opt; xmax := xmax opt; ymin := ymin opt; ymax := ymax opt;
     inc := inc opt; find_min := find_min opt; path := path opt; out := Some o;
     tcl_round := tcl_round opt |}.

Definition set_tcl_round (opt : Options) (b : bool) : Options :=
  {| xmin := xmin opt; xmax := xmax opt; ymin := ymin opt; ymax := ymax opt;
     inc := inc opt; find_min := find_min opt; path := path opt; out := out opt;
     tcl_round := b |}.

(** The [-I] branch once its value text is known. *)
Definition take_inc (opt : Options) (val : string) : outcome Options :=
  match parse_double_arg val with
  | None => Exit EXIT_FAILURE ("Invalid value for -I: " +:+ val)
  | Some v =>
      if le v zero then Exit EXIT_FAILURE "-I must be > 0"
      else Done (set_inc opt v)
  end.

(** The argument loop of [parse_args], over [argv[1..]]. *)
Fixpoint parse_loop (args : list string) (opt : Options) : outcome Options :=
  match args with
  | [] => Done opt
  | a :: rest =>
    if String.eqb a "-h" || String.eqb a "--help" then
      Exit EXIT_SUCCESS "Usage: blockminmax -Rxmin/xmax/ymin/ymax [-Iinc] -PATH <file> [-MAX] [-o <outfile>] [--tclround]"
    else if String.prefix "-R" a || String.prefix "R" a then
      match parse_region a with
      | Some r => parse_loop rest (set_region opt r)
      | None => Exit EXIT_FAILURE ("Invalid -R region: " +:+ a)
      end
    else if String.eqb a "-I" || String.prefix "-I" a then
      match String.substring 2 (String.length a - 2) a with
      | EmptyString =>
          match rest with
          | val :: rest' => opt' ← take_inc opt val; parse_loop rest' opt'
          | [] => Exit EXIT_FAILURE "Missing value for -I"
          end
      | val => opt' ← take_inc opt val; parse_loop rest opt'
      end
    else if String.eqb a "-PATH" || String.eqb a "-path" then
      match rest with
      | p :: rest' => parse_loop rest' (set_path opt p)
      | [] => Exit EXIT_FAILURE ("Missing value for " +:+ a)
      end
    else if String.eqb a "-MAX" then
      parse_loop rest (set_find_min opt false)
    else if String.eqb a "-o" then
      match rest with
      | o :: rest' => parse_loop rest' (set_out opt o)
      | [] => Exit EXIT_FAILURE "Missing value for -o"
      end
    else if String.eqb a "--tclround" then
      parse_loop rest (set_tcl_round opt true)
    else if String.prefix "-" a then
      Exit EXIT_FAILURE ("Unknown option: " +:+ a)
    else
      match path opt with
      | None => parse_loop rest (set_path opt a)
      | Some _ => Exit EXIT_FAILURE ("Unexpected argument: " +:+ a)
      end
  end.

Definition default_options : Options :=
  {| xmin := zero; xmax := zero; ymin := zero; ymax := zero;
     inc := one; find_min := true; path := None; out := None;
     tcl_round := false |}.

Definition parse_args (argv : list string) : outcome Options :=
  opt ← parse_loop (tail argv) default_options;
  match path opt with
  | None => Exit EXIT_FAILURE "Missing input path (-PATH)."
  | Some p =>
      if negb (gt (xmax opt) (xmin opt) && gt (ymax opt) (ymin opt)) then
        Exit EXIT_FAILURE "Invalid region; require xmax > xmin and ymax > ymin."
      else
        match out opt with
        | Some _ => Done opt
        | None =>
            let suffix := if find_min opt then ".min" else ".max" in
            Done (set_out opt (p +:+ suffix))
        end
  end.

Definition safe_mul_size_t (a b : Z) : outcome Z :=
  if (a =? 0)%Z || (b =? 0)%Z then Done 0
  else if (SIZE_MAX / b <? a)%Z then Exit EXIT_FAILURE "Grid size too large (overflow)"
  else Done (a * b).

(** Lines written to stderr by [main]. *)
Inductive message :=
| MsgRegion (x0 x1 y0 y1 : double)
| MsgDims (nx ny : Z)
| MsgInitialised
| MsgProgress (Mlines : Z)
| MsgUpdated (min : bool)
| MsgWrite (out : string).

(** The grid dimensions of [main]: the step counts rounded by
    [floor(q + 0.5)], plus one.  [Exit] where [main] dies, [Undefined]
    where the conversion to [size_t] is. *)
Definition grid_dims (opt : Options) : outcome (Z * Z) :=
  let nx_d := add (floor (add (div (sub (xmax opt) (xmin opt)) (inc opt)) half)) one in
  let ny_d := add (floor (add (div (sub (ymax opt) (ymin opt)) (inc opt)) half)) one in
  if negb (ge nx_d one && ge ny_d one)
  then Exit EXIT_FAILURE "Computed grid dimensions invalid"
  else
    match cast_size nx_d, cast_size ny_d with
    | Some nx, Some ny => Done (nx, ny)
    | _, _ => Undefined
    end.

(** The part of a line that [main] parses: blanks and tabs skipped. *)
Fixpoint skip_blanks (s : string) : string :=
  match s with
  | String c s' =>
      if Ascii.eqb c " "%char || Ascii.eqb c "009"%char
      then skip_blanks s' else s
  | EmptyString => s
  end.

(** The point read from one line, [None] where the loop [continue]s. *)
Definition parse_line (line : string) : option (double * double * double) :=
  let p := skip_blanks line in
  match p with
  | EmptyString => None
  | String c _ =>
      if Ascii.eqb c "010"%char || Ascii.eqb c "#"%char then None else
      match strtod_checked p with None => None | Some (x, p) =>
      match strtod_checked p with None => None | Some (y, p) =>
      match strtod_checked p with None => None | Some (z, _) =>
        Some (x, y, z)
      end end end
  end.

(** The clamping of one index into [0 .. n-1]. *)
Definition clamp (n : Z) (i_ll : Z) : Z :=
  if (i_ll <? 0)%Z then 0%Z
  else if (n <=? u64 i_ll)%Z then (s64 n - 1)%Z
  else i_ll.

(** The cell a point is mapped to: [(ix, iy)]. *)
Definition map_point (opt : Options) (nx ny : Z) (x y : double) : Z * Z :=
  let '(ix_ll, iy_ll) :=
    if negb (tcl_round opt) then
      (llround (div (sub x (xmin opt)) (inc opt)),
       llround (div (sub y (ymin opt)) (inc opt)))
    else
      let tx := div (sub x (xmin opt)) (inc opt) in
      let ty := div (sub y (ymin opt)) (inc opt) in
      let fx := floor tx in
      let fy := floor ty in
      let fracx := sub tx fx in
      let fracy := sub ty fy in
      (cast_ll (if gt fracx (add half eps) then add fx one else fx),
       cast_ll (if gt fracy (add half eps) then add fy one else fy)) in
  (clamp nx ix_ll, clamp ny iy_ll).

(** The array index of the cell [(ix_ll, iy_ll)], as [main] computes it
    from the clamped indices converted to [size_t]. *)
Definition cell_idx (nx : Z) (c : Z * Z) : Z :=
  let ix := u64 (fst c) in
  let iy := u64 (snd c) in
  u64 (ix + u64 (nx * iy)).

(** The two arrays of [main] and its line counters. *)
Record state := {
  grid : list double;
  hit : list bool;
  lines : Z;
  Mlines : Z;
  stderr : list message
}.

(** The update of one cell: [grid[idx]] is replaced on the first write
    and on a strict improvement; [hit[idx]] is set. *)
Definition store (min : bool) (idx : nat) (z : double)
           (g : list double) (h : list bool) : list double * list bool :=
  let first := negb (default false (h !! idx)) in
  let cur := default S754_nan (g !! idx) in
  let better := if min then lt z cur else gt z cur in
  ((if first || better then <[idx := z]> g else g), <[idx := true]> h).

Definition count_line (st : state) (g : list double) (h : list bool) : state :=
  let n := u64 (lines st + 1) in
  if (n =? 1000000)%Z then
    {| grid := g; hit := h; lines := 0; Mlines := u64 (Mlines st + 1);
       stderr := stderr st ++ [MsgProgress (u64 (Mlines st + 1))] |}
  else
    {| grid := g; hit := h; lines := n; Mlines := Mlines st;
       stderr := stderr st |}.

(** One iteration of the input loop. *)
Definition process_line (opt : Options) (nx ny : Z) (st : state)
           (line : string) : state :=
  match parse_line line with
  | None => st
  | Some (x, y, z) =>
      let idx := Z.to_nat (cell_idx nx (map_point opt nx ny x y)) in
      let '(g, h) := store (find_min opt) idx z (grid st) (hit st) in
      count_line st g h
  end.

Definition process_lines (opt : Options) (nx ny : Z) (st : state)
           (ls : list string) : state :=
  fold_left (process_line opt nx ny) ls st.

(** The output loop: the arguments of each [fprintf], in order. *)
Definition write_results (opt : Options) (nx ny : Z) (st : state)
  : list (double * double * double) :=
  flat_map (fun iy =>
    flat_map (fun ix =>
      let idx := Z.to_nat (u64 (ix + u64 (nx * iy))) in
      if negb (default false (hit st !! idx)) then []
      else [(add (xmin opt) (mul (of_Z ix) (inc opt)),
             add (ymin opt) (mul (of_Z iy) (inc opt)),
             default S754_nan (grid st !! idx))])
      (seqZ 0 nx))
    (seqZ 0 ny).

(** What the process needs from its surroundings: the input file, if
    it can be opened; whether the output file can be; whether an
    allocation of so many bytes succeeds. *)
Record world := {
  read_file : string -> option string;
  can_write : string -> bool;
  can_alloc : Z -> bool
}.

Record result := {
  res_out : string;
  res_rows : list (double * double * double);
  res_stderr : list message
}.

Definition main (w : world) (argv : list string) : outcome result :=
  opt ← parse_args argv;
  dims ← grid_dims opt;
  let '(nx, ny) := dims in
  ncell ← safe_mul_size_t nx ny;
  if negb (can_alloc w (u64 (ncell * 8)))
  then Exit EXIT_FAILURE "Out of memory allocating grid" else
  if negb (can_alloc w ncell)
  then Exit EXIT_FAILURE "Out of memory allocating hit mask" else
  if (u64 (ncell * 8) <? ncell * 8)%Z then Undefined else
  let preset := if find_min opt then infinity else neg_infinity in
  let st0 :=
    {| grid := replicate (Z.to_nat ncell) preset;
       hit := replicate (Z.to_nat ncell) false;
       lines := 0; Mlines := 0;
       stderr := [MsgRegion (xmin opt) (xmax opt) (ymin opt) (ymax opt);
                  MsgDims nx ny; MsgInitialised] |} in
  match read_file w (default "" (path opt)) with
  | None => Exit EXIT_FAILURE "Failed to open input file"
  | Some content =>
    let outp := default "" (out opt) in
    if negb (can_write w outp)
    then Exit EXIT_FAILURE "Failed to open output file" else
    let st := process_lines opt nx ny st0
                (map c_str (fgets_all (Z.to_nat 16384) content)) in
    Done {| res_out := outp;
            res_rows := write_results opt nx ny st;
            res_stderr := stderr st ++ [MsgUpdated (find_min opt); MsgWrite outp] |}
  end.

End Blockminmax.

(** ** blockminmax.tcl: the update of [ar(x,y)] *)

Module Tcl.
Import F64 Libc.

Local Open Scope string_scope.

(** Tcl values are strings.  [expr] compares two operands as numbers
    when both read as numbers and as strings otherwise.  A string reads
    as a number here when [strtod] converts all of it, surrounding
    white space apart; numbers are compared as doubles. *)
Definition number (s : string) : option double :=
  match strtod s with
  | Converted v _ rest =>
      match skip_space rest with
      | EmptyString => Some v
      | _ => None
      end
  | NoConversion => None
  end.

Definition expr_lt (a b : string) : bool :=
  match number a, number b with
  | Some x, Some y => lt x y
  | _, _ => String.ltb a b
  end.

Definition expr_gt (a b : string) : bool :=
  match number a, number b with
  | Some x, Some y => gt x y
  | _, _ => String.ltb b a
  end.

(** The new content of [ar(x,y)] after the [if {$fix_min} ... else ...]
    block of the input loop, from the value [z] of the line and the
    current content [cur]. *)
Definition update (fix_min find_min : bool) (z cur : string) : string :=
  if fix_min then
    if find_min then
      (if expr_lt z cur then z else cur)
    else
      (if expr_gt z cur then z else cur)
  else
    (* Original behavior: in min mode, accept smaller z, but also
       overwrite with larger z due to the elseif. *)
    if find_min && expr_lt z cur then z
    else if expr_gt z cur then z
    else cur.

(** The array [ar], keys ["x,y"].  Reading an element that was never
    set is a Tcl error: [None]. *)
Definition ar_key (x y : string) : string := x +:+ "," +:+ y.

Definition ar_update (fix_min find_min : bool) (ar : gmap string string)
           (x y z : string) : option (gmap string string) :=
  match ar !! ar_key x y with
  | Some cur => Some (<[ar_key x y := update fix_min find_min z cur]> ar)
  | None => None
  end.

(** *** [findClosestValue] *)

(** [lindex $list $i]: the empty string outside the list. *)
Definition lindex (l : list string) (i : Z) : string :=
  if (i <? 0)%Z then "" else default "" (l !! Z.to_nat i).

(** [expr {abs($a - $b)}].  It is an error ([None]) when an operand does
    not read as a number or is a NaN, and when the difference is a NaN
    (of two infinities). *)
Definition expr_abs_diff (a b : string) : option double :=
  match number a, number b with
  | Some x, Some y =>
      if is_nan x || is_nan y || is_nan (sub x y) then None
      else Some (SFabs (sub x y))
  | _, _ => None
  end.

(** What a call of the procedure comes to: a returned value or a Tcl
    error; [OutOfFuel] stands for a loop that is still running when the
    fuel of the model is used up. *)
Inductive proc_result : Type :=
| Return (v : string)
| TclError
| OutOfFuel.

(** The update of [closestValue] and [minDiff] inside the loop. *)
Definition probe_in_loop (tie_lower : bool) (currentValue : string)
           (currentDiff : double) (closestValue : string) (minDiff : double)
  : string * double :=
  if lt currentDiff minDiff then (currentValue, currentDiff)
  else if SFeqb currentDiff minDiff then
    (* Optional tie-breaking: choose the lower value when enabled *)
    if tie_lower && expr_lt currentValue closestValue
    then (currentValue, minDiff)
    else (closestValue, minDiff)
  else (closestValue, minDiff).

(** The update of [closestValue] and [minDiff] from the element at
    [low] or [high], after the loop. *)
Definition probe_after_loop (tie_lower : bool) (value : string) (diff : double)
           (closestValue : string) (minDiff : double) : string * double :=
  if lt diff minDiff then (value, diff)
  else if tie_lower && SFeqb diff minDiff && expr_lt value closestValue
  then (value, minDiff)
  else (closestValue, minDiff).

(** The two comparisons after the binary search loop. *)
Definition after_loop (tie_lower : bool) (orderedList : list string)
           (targetValue : string) (low high : Z)
           (closestValue : string) (minDiff : double) : proc_result :=
  let len := Z.of_nat (length orderedList) in
  let at_low :=
    if (low <? len)%Z then
      let valueAtLow := lindex orderedList low in
      match expr_abs_diff targetValue valueAtLow with
      | Some diffAtLow =>
          Some (probe_after_loop tie_lower valueAtLow diffAtLow closestValue minDiff)
      | None => None
      end
    else Some (closestValue, minDiff) in
  match at_low with
  | None => TclError
  | Some (closestValue, minDiff) =>
      if (0 <=? high)%Z then
        let valueAtHigh := lindex orderedList high in
        match expr_abs_diff targetValue valueAtHigh with
        | Some diffAtHigh =>
            Return (fst (probe_after_loop tie_lower valueAtHigh diffAtHigh
                                          closestValue minDiff))
        | None => TclError
        end
      else Return closestValue
  end.

(** The binary search loop [while {$low <= $high}], followed by the
    rest of the procedure. *)
Fixpoint search (fuel : nat) (tie_lower : bool) (orderedList : list string)
         (targetValue : string) (low high : Z)
         (closestValue : string) (minDiff : double) : proc_result :=
  match fuel with
  | O => OutOfFuel
  | S fuel =>
      if (low <=? high)%Z then
        let mid := ((low + high) / 2)%Z in
        let currentValue := lindex orderedList mid in
        match expr_abs_diff targetValue currentValue with
        | None => TclError
        | Some currentDiff =>
            let '(closestValue, minDiff) :=
              probe_in_loop tie_lower currentValue currentDiff closestValue minDiff in
            if expr_lt currentValue targetValue then
              search fuel tie_lower orderedList targetValue (mid + 1) high
                     closestValue minDiff
            else if expr_gt currentValue targetValue then
              search fuel tie_lower orderedList targetValue low (mid - 1)
                     closestValue minDiff
            else
              (* Target value found exactly *)
              Return currentValue
        end
      else
        after_loop tie_lower orderedList targetValue low high closestValue minDiff
  end.

(** The loop halves an interval of [len] indices: [len + 1] rounds of
    fuel are more than it can use. *)
Definition findClosestValue (tie_lower : bool) (orderedList : list string)
           (targetValue : string) : proc_result :=
  let len := Z.of_nat (length orderedList) in
  if (len =? 0)%Z then Return "Error: List is empty."
  else
    let low := 0%Z in
    let high := (len - 1)%Z in
    let closestValue := lindex orderedList 0 in
    match expr_abs_diff targetValue closestValue with
    | None => TclError
    | Some minDiff =>
        search (S (length orderedList)) tie_lower orderedList targetValue
               low high closestValue minDiff
    end.

(** *** The array and the input loop *)

(** The initialisation of [ar]: every pair of the two lists gets the
    sentinel. *)
Definition init_ar (l_x l_y : list string) (preset : string)
  : gmap string string :=
  foldl (fun ar x => foldl (fun ar y => <[ar_key x y := preset]> ar) ar l_y)
        ∅ l_x.

(** The body of the input loop after [scan]: [x] and [y] are replaced by
    the closest values of the lists and [ar(x,y)] is updated.  [None]
    when a command of the body raises an error. *)
Definition loop_body (tie_lower fix_min find_min : bool)
           (l_x l_y : list string) (ar : gmap string string)
           (x y z : string) : option (gmap string string) :=
  match findClosestValue tie_lower l_x x with
  | Return x =>
      match findClosestValue tie_lower l_y y with
      | Return y => ar_update fix_min find_min ar x y z
      | _ => None
      end
  | _ => None
  end.

(** The input loop over the values that [scan] stored in [x], [y] and
    [z] for each line read; it stops at the first error. *)
Fixpoint input_loop (tie_lower fix_min find_min : bool)
         (l_x l_y : list string) (ar : gmap string string)
         (scanned : list (string * string * string))
  : option (gmap string string) :=
  match scanned with
  | [] => Some ar
  | (x, y, z) :: rest =>
      match loop_body tie_lower fix_min find_min l_x l_y ar x y z with
      | Some ar => input_loop tie_lower fix_min find_min l_x l_y ar rest
      | None => None
      end
  end.

End Tcl.

(** ** Vocabulary of the properties *)

Module Props.
Import F64 Libc Blockminmax.

Local Open Scope string_scope.

(** The arrays as [main] initialises them. *)
Definition initial_state (min : bool) (ncell : Z) (log : list message) : state :=
  {| grid := replicate (Z.to_nat ncell) (if min then infinity else neg_infinity);
     hit := replicate (Z.to_nat ncell) false;
     lines := 0; Mlines := 0; stderr := log |}.

(** The array index of the cell a line is routed to, with its z. *)
Definition route (opt : Options) (nx ny : Z) (line : string)
  : option (nat * double) :=
  match parse_line line with
  | Some (x, y, z) => Some (Z.to_nat (cell_idx nx (map_point opt nx ny x y)), z)
  | None => None
  end.

(** The z values routed to the cell of index [idx], in input order. *)
Definition routed (opt : Options) (nx ny : Z) (idx : nat) (ls : list string)
  : list double :=
  flat_map (fun l =>
    match route opt nx ny l with
    | Some (i, z) => if Nat.eqb i idx then [z] else []
    | None => []
    end) ls.

(** Strict improvement of the stored value [cur] by [z]. *)
Definition improves (min : bool) (z cur : double) : bool :=
  if min then lt z cur else gt z cur.

(** "No worse than": [v <= z] in minimum mode, [v >= z] in maximum mode. *)
Definition bounds (min : bool) (v z : double) : bool :=
  if min then le v z else ge v z.

(** The order the comparisons decide, on a key per value: class (the
    infinities, the two signs of finite values, zero), then exponent,
    then mantissa. *)
Definition key (x : double) : Z * Z * Z :=
  match x with
  | S754_infinity true => (-2, 0, 0)
  | S754_finite true m e => (-1, - e, Zneg m)
  | S754_zero _ => (0, 0, 0)
  | S754_nan => (0, 0, 0)
  | S754_finite false m e => (1, e, Zpos m)
  | S754_infinity false => (2, 0, 0)
  end%Z.

Definition key_compare (a b : Z * Z * Z) : comparison :=
  let '(a1, a2, a3) := a in
  let '(b1, b2, b3) := b in
  match (a1 ?= b1)%Z with
  | Eq => match (a2 ?= b2)%Z with Eq => (a3 ?= b3)%Z | c => c end
  | c => c
  end.

Definition key_lt (a b : Z * Z * Z) : Prop :=
  let '(a1, a2, a3) := a in
  let '(b1, b2, b3) := b in
  (a1 < b1 \/ (a1 = b1 /\ (a2 < b2 \/ (a2 = b2 /\ a3 < b3))))%Z.

(** What the arrays hold after any number of lines, against the list
    of values routed to each cell. *)
Definition cell_ok (min : bool) (zs : list double) (h : option bool)
           (g : option double) : Prop :=
  (zs = [] -> h = Some false) /\
  (zs <> [] ->
     h = Some true /\
     exists v, g = Some v /\ In v zs /\
       (Forall (fun z => is_nan z = false) zs ->
        Forall (fun z => bounds min v z = true) zs)).

(** What [main] checks first on a line: nothing, a newline or [#]
    after the leading blanks and tabs. *)
Definition blank_or_comment (line : string) : bool :=
  match skip_blanks line with
  | EmptyString => true
  | String c _ => Ascii.eqb c "010"%char || Ascii.eqb c "#"%char
  end.

(** Three conversions by [strtod], each starting where the previous
    one stopped; [None] as soon as one converts nothing or reports a
    range error. *)
Definition three_conversions (p : string) : option (double * double * double) :=
  '(x, p1) ← strtod_checked p;
  '(y, p2) ← strtod_checked p1;
  '(z, _) ← strtod_checked p2;
  Some (x, y, z).

(** The double [k + 1/2]: a fractional cell coordinate halfway between
    the nodes [k] and [k + 1]. *)
Definition half_way (k : Z) : double := of_binary false (2 * k + 1) (-1).

(** The two [long long] indices of a point before clamping. *)
Definition raw_index (opt : Options) (x y : double) : Z * Z :=
  if negb (tcl_round opt) then
    (llround (div (sub x (xmin opt)) (inc opt)),
     llround (div (sub y (ymin opt)) (inc opt)))
  else
    let tx := div (sub x (xmin opt)) (inc opt) in
    let ty := div (sub y (ymin opt)) (inc opt) in
    let fx := floor tx in
    let fy := floor ty in
    let fracx := sub tx fx in
    let fracy := sub ty fy in
    (cast_ll (if gt fracx (add half eps) then add fx one else fx),
     cast_ll (if gt fracy (add half eps) then add fy one else fy)).

(** The number of lines that the input loop aggregates. *)
Definition is_record (line : string) : bool :=
  match parse_line line with Some _ => true | None => false end.

Definition aggregated (ls : list string) : Z :=
  Z.of_nat (length (List.filter is_record ls)).

(** The log of [main] when the input loop starts. *)
Definition start_log (opt : Options) (nx ny : Z) : list message :=
  [MsgRegion (xmin opt) (xmax opt) (ymin opt) (ymax opt);
   MsgDims nx ny; MsgInitialised].

(** [opt] with the snapping mode chosen. *)
Definition with_tcl_round (b : bool) (opt : Options) : Options :=
  set_tcl_round opt b.

(** Following the specification's words for input records: the tokens
    of a line are its maximal runs of characters that are not white
    space; a token parses as a number when [strtod] converts a
    non-empty prefix of it without a range error (the most lenient
    reading). *)
Fixpoint tokens_from (s : string) (cur : list ascii) : list string :=
  match s with
  | EmptyString =>
      match cur with [] => [] | _ => [string_of_list_ascii (rev cur)] end
  | String c s' =>
      if isspace c then
        match cur with
        | [] => tokens_from s' []
        | _ => string_of_list_ascii (rev cur) :: tokens_from s' []
        end
      else tokens_from s' (c :: cur)
  end.

Definition tokens (s : string) : list string := tokens_from s [].

Definition token_is_number (tok : string) : bool :=
  match strtod_checked tok with Some _ => true | None => false end.

(** A line is a record, by the specification, when it is not blank,
    does not begin with [#], and its first three tokens each parse as
    a number. *)
Definition spec_line_is_record (line : string) : bool :=
  match tokens line with
  | t1 :: t2 :: t3 :: _ =>
      negb (String.prefix "#" t1)
      && token_is_number t1 && token_is_number t2 && token_is_number t3
  | _ => false
  end.

(** The small data set of the test script and its surroundings. *)
Definition testdata_small : string :=
  "-0.49 -0.49 5" +:+ String "010"%char
  ("0.5   0.5   10" +:+ String "010"%char
  ("2.0   2.0   9" +:+ String "010"%char
  ("1.49  0.49  7" +:+ String "010"%char ""))).

Definition test_world : world :=
  {| read_file := fun p =>
       if String.eqb p "testdata_small.xyz" then Some testdata_small else None;
     can_write := fun _ => true;
     can_alloc := fun _ => true |}.

Definition test_options : Options :=
  {| xmin := of_Z 0; xmax := of_Z 2; ymin := of_Z 0; ymax := of_Z 2;
     inc := of_Z 1; find_min := true;
     path := Some "testdata_small.xyz"; out := Some "out_default.min";
     tcl_round := false |}.

(** The first run of the test script and what it leaves. *)
Definition test_argv : list string :=
  ["blockminmax"; "-R0/2/0/2"; "-I1"; "-PATH"; "testdata_small.xyz";
   "-o"; "out_default.min"].

Definition test_result : result :=
  {| res_out := "out_default.min";
     res_rows := [ (of_Z 0, of_Z 0, of_Z 5);
                   (of_Z 1, of_Z 0, of_Z 7);
                   (of_Z 1, of_Z 1, of_Z 10);
                   (of_Z 2, of_Z 2, of_Z 9) ];
     res_stderr := [ MsgRegion (of_Z 0) (of_Z 2) (of_Z 0) (of_Z 2);
                     MsgDims 3 3; MsgInitialised;
                     MsgUpdated true; MsgWrite "out_default.min" ] |}.

(** A field of a region: a non-empty text without a slash. *)
Definition is_field (t : string) : bool :=
  negb (String.eqb t "")
  && forallb (fun c => negb (Ascii.eqb c "/"%char)) (list_ascii_of_string t).

(** The four values that the fields of a region convert to, when each
    has a number at its start. *)
Definition region_values (t1 t2 t3 t4 : string)
  : option (double * double * double * double) :=
  match strtod_checked t1, strtod_checked t2,
        strtod_checked t3, strtod_checked t4 with
  | Some (a, _), Some (b, _), Some (c, _), Some (d, _) => Some (a, b, c, d)
  | _, _, _, _ => None
  end.

(** A finite double: a zero or a finite non-zero value. *)
Definition is_finite (x : double) : bool :=
  match x with S754_finite _ _ _ | S754_zero _ => true | _ => false end.

(** A text that Tcl reads as a finite number. *)
Definition finite_number (s : string) : bool :=
  match Tcl.number s with
  | Some v => is_finite v
  | None => false
  end.

(** The node lists of the test region, as the Tcl script builds them. *)
Definition test_nodes : list string := ["0.0"; "1.0"; "2.0"].

(** A scanned line whose [x] and [y] read as finite numbers. *)
Definition finite_point (p : string * string * string) : bool :=
  let '(x, y, _) := p in finite_number x && finite_number y.

(** The four lines of the test data, as [scan] splits them. *)
Definition test_scanned : list (string * string * string) :=
  [("-0.49", "-0.49", "5"); ("0.5", "0.5", "10");
   ("2.0", "2.0", "9"); ("1.49", "0.49", "7")].

(** A list whose elements increase strictly from each to the next, as
    [expr] compares them. *)
Fixpoint increasing (l : list string) : bool :=
  match l with
  | a :: rest =>
      match rest with
      | b :: _ => Tcl.expr_lt a b && increasing rest
      | [] => true
      end
  | [] => true
  end.

(** Two texts that read as numerically equal numbers. *)
Definition same_number (a b : string) : bool :=
  match Tcl.number a, Tcl.number b with
  | Some x, Some y => SFeqb x y
  | _, _ => false
  end.


(** The two dimensions of the lattice as [main] computes them in double
    precision, before the conversion to [size_t]. *)
Definition nx_d (opt : Options) : double :=
  add (floor (add (div (sub (xmax opt) (xmin opt)) (inc opt)) half)) one.

Definition ny_d (opt : Options) : double :=
  add (floor (add (div (sub (ymax opt) (ymin opt)) (inc opt)) half)) one.

(** 2^64 as a double: the first value that [size_t] cannot hold. *)
Definition two64 : double := of_Z (2 ^ 64).

(** A command line whose spacing makes the step count along x exceed
    every [size_t]. *)
Definition huge_argv : list string :=
  ["blockminmax"; "-R0/1e300/0/1"; "-I1"; "-PATH"; "points.xyz"].

(** Three lines for cell 0 of the test lattice, the best value neither
    first nor last, and a line for another cell; the test options in
    maximum mode. *)
Definition several_lines : list string :=
  ["0 0 5"; "0.2 0.1 3"; "0 0 7"; "1 1 2"].

Definition test_options_max : Options := set_find_min test_options false.

End Props.

(* ================================================================= *)
(** * Part II: properties *)
(* ================================================================= *)

Import F64 Libc Blockminmax Props.

Local Open Scope string_scope.

(** ** The command line *)

Lemma test_argv_options :
  parse_args ["blockminmax"; "-R0/2/0/2"; "-I1"; "-PATH"; "testdata_small.xyz";
              "-o"; "out_default.min"] = Done test_options.
Proof. vm_compute. reflexivity. Qed.

(** C1.  The end-to-end scenario of the test script in the default mode
    (nearest-rounded, clamped addressing; strict-improvement updating;
    minimum): region 0..2 x 0..2, spacing 1, the four points
    (-0.49,-0.49,5), (0.5,0.5,10), (2.0,2.0,9), (1.49,0.49,7) in that
    order.  The run writes exactly four rows, for the cells (0,0), (1,0),
    (1,1) and (2,2), with z = 5, 7, 10 and 9, and the lattice is 3 by 3;
    the four lines are read as those points and routed to the array
    indices 0, 4, 8 and 1 (index = ix + 3 * iy), which are the cells hit
    at the end. *)
Theorem scenario_default_cells :
  main test_world
       ["blockminmax"; "-R0/2/0/2"; "-I1"; "-PATH"; "testdata_small.xyz";
        "-o"; "out_default.min"]
  = Done {| res_out := "out_default.min";
            res_rows := [ (of_Z 0, of_Z 0, of_Z 5);
                          (of_Z 1, of_Z 0, of_Z 7);
                          (of_Z 1, of_Z 1, of_Z 10);
                          (of_Z 2, of_Z 2, of_Z 9) ];
            res_stderr := [ MsgRegion (of_Z 0) (of_Z 2) (of_Z 0) (of_Z 2);
                            MsgDims 3 3; MsgInitialised;
                            MsgUpdated true; MsgWrite "out_default.min" ] |}
  /\ map parse_line (map c_str (fgets_all (Z.to_nat 16384) testdata_small))
     = [ Some (of_decimal true 49 (-2), of_decimal true 49 (-2), of_Z 5);
         Some (of_decimal false 5 (-1), of_decimal false 5 (-1), of_Z 10);
         Some (of_Z 2, of_Z 2, of_Z 9);
         Some (of_decimal false 149 (-2), of_decimal false 49 (-2), of_Z 7) ]
  /\ map (route test_options 3 3)
         (map c_str (fgets_all (Z.to_nat 16384) testdata_small))
     = [ Some (0%nat, of_Z 5); Some (4%nat, of_Z 10);
         Some (8%nat, of_Z 9); Some (1%nat, of_Z 7) ]
  /\ hit (process_lines test_options 3 3 (initial_state true 9 [])
            (map c_str (fgets_all (Z.to_nat 16384) testdata_small)))
     = [ true; true; false;
         false; true; false;
         false; false; true ].
Proof. vm_compute. repeat split; reflexivity. Qed.

(** ** The comparisons of doubles *)

Section Order.

Lemma compare_key (a b : double) :
  is_nan a = false -> is_nan b = false ->
  SFcompare a b = Some (key_compare (key a) (key b)).
Proof.
  destruct a as [[]|[]| |[] m1 e1], b as [[]|[]| |[] m2 e2];
    simpl; intros Ha Hb; try discriminate; try reflexivity.
  rewrite Z.compare_opp, (Z.compare_antisym e2 e1).
  destruct (e2 ?= e1)%Z; reflexivity.
Qed.

Lemma key_compare_lt (a b : Z * Z * Z) :
  key_compare a b = Lt <-> key_lt a b.
Proof.
  destruct a as [[a1 a2] a3], b as [[b1 b2] b3]; unfold key_compare, key_lt.
  destruct (Z.compare_spec a1 b1), (Z.compare_spec a2 b2),
    (Z.compare_spec a3 b3); split; intros K; try discriminate;
    try reflexivity; lia.
Qed.

Lemma key_compare_eq (a b : Z * Z * Z) :
  key_compare a b = Eq <-> a = b.
Proof.
  destruct a as [[a1 a2] a3], b as [[b1 b2] b3]; unfold key_compare.
  destruct (Z.compare_spec a1 b1), (Z.compare_spec a2 b2),
    (Z.compare_spec a3 b3); split; intros K; try discriminate;
    try reflexivity; try (inversion K; lia); subst; reflexivity.
Qed.

Lemma lt_iff (a b : double) :
  lt a b = true <->
  is_nan a = false /\ is_nan b = false /\ key_lt (key a) (key b).
Proof.
  unfold lt, SFltb. split.
  - intros H. assert (Ha : is_nan a = false) by (destruct a; [reflexivity..|discriminate|reflexivity]).
    assert (Hb : is_nan b = false) by (destruct a, b; try reflexivity; discriminate).
    rewrite (compare_key a b Ha Hb) in H.
    repeat split; try assumption. apply key_compare_lt.
    destruct (key_compare (key a) (key b)); congruence.
  - intros (Ha & Hb & H). rewrite (compare_key a b Ha Hb).
    apply key_compare_lt in H. rewrite H. reflexivity.
Qed.

Lemma le_iff (a b : double) :
  le a b = true <->
  is_nan a = false /\ is_nan b = false /\
  (key_lt (key a) (key b) \/ key a = key b).
Proof.
  unfold le, SFleb. split.
  - intros H. assert (Ha : is_nan a = false) by (destruct a; [reflexivity..|discriminate|reflexivity]).
    assert (Hb : is_nan b = false) by (destruct a, b; try reflexivity; discriminate).
    rewrite (compare_key a b Ha Hb) in H.
    repeat split; try assumption.
    destruct (key_compare (key a) (key b)) eqn:E; try discriminate.
    + right. apply key_compare_eq. exact E.
    + left. apply key_compare_lt. exact E.
  - intros (Ha & Hb & [H|H]); rewrite (compare_key a b Ha Hb).
    + apply key_compare_lt in H. rewrite H. reflexivity.
    + apply key_compare_eq in H. rewrite H. reflexivity.
Qed.

Lemma key_lt_trans (a b c : Z * Z * Z) :
  key_lt a b -> key_lt b c -> key_lt a c.
Proof.
  destruct a as [[a1 a2] a3], b as [[b1 b2] b3], c as [[c1 c2] c3];
    unfold key_lt; lia.
Qed.

Lemma key_total (a b : Z * Z * Z) :
  key_lt a b \/ a = b \/ key_lt b a.
Proof.
  destruct a as [[a1 a2] a3], b as [[b1 b2] b3]; unfold key_lt.
  destruct (Z.lt_total a1 b1) as [|[|]], (Z.lt_total a2 b2) as [|[|]],
    (Z.lt_total a3 b3) as [|[|]]; subst; auto; lia.
Qed.

Lemma le_refl (a : double) : is_nan a = false -> le a a = true.
Proof. intros H. apply le_iff. auto. Qed.

Lemma lt_le_trans (a b c : double) :
  lt a b = true -> le b c = true -> le a c = true.
Proof.
  rewrite lt_iff, !le_iff. intros (Ha & Hb & H1) (_ & Hc & [H2|H2]).
  - repeat split; auto. left. eapply key_lt_trans; eauto.
  - repeat split; auto. left. rewrite <- H2. exact H1.
Qed.

Lemma le_lt_trans (a b c : double) :
  le a b = true -> lt b c = true -> le a c = true.
Proof.
  rewrite lt_iff, !le_iff. intros (Ha & Hb & [H1|H1]) (_ & Hc & H2).
  - repeat split; auto. left. eapply key_lt_trans; eauto.
  - repeat split; auto. left. rewrite H1. exact H2.
Qed.

(** Among values that are not NaN the order is total. *)
Lemma not_lt_le (a b : double) :
  is_nan a = false -> is_nan b = false -> lt a b = false -> le b a = true.
Proof.
  intros Ha Hb H. apply le_iff. repeat split; auto.
  destruct (key_total (key a) (key b)) as [K|[K|K]]; auto.
  assert (lt a b = true) by (apply lt_iff; auto). congruence.
Qed.

(** Every comparison with a NaN is false. *)
Lemma lt_nan_r (z : double) : lt z S754_nan = false.
Proof. destruct z as [[]|[]| |[] m e]; reflexivity. Qed.

Lemma lt_nan_l (z : double) : lt S754_nan z = false.
Proof. reflexivity. Qed.

Lemma le_nan_l (z : double) : le S754_nan z = false.
Proof. reflexivity. Qed.

Lemma le_nan_r (z : double) : le z S754_nan = false.
Proof. destruct z as [[]|[]| |[] m e]; reflexivity. Qed.

End Order.

(** ** The coordinate mapper stays inside the lattice *)

Section Range.

Lemma to_ll_range (o : option Z) : LLONG_MIN <= to_ll o <= LLONG_MAX.
Proof.
  unfold to_ll, ll_indefinite. destruct o as [n|].
  - destruct (Z.leb_spec LLONG_MIN n), (Z.leb_spec n LLONG_MAX); simpl;
      unfold LLONG_MIN, LLONG_MAX in *; lia.
  - unfold LLONG_MIN, LLONG_MAX. lia.
Qed.

(** Whatever [long long] the conversion delivered, the clamped index
    is a valid one. *)
Lemma clamp_range (n v : Z) :
  1 <= n <= SIZE_MAX -> LLONG_MIN <= v <= LLONG_MAX ->
  0 <= clamp n v < n.
Proof.
  unfold clamp, u64, s64, SIZE_MAX, LLONG_MIN, LLONG_MAX.
  change (2 ^ 64)%Z with 18446744073709551616%Z.
  change (2 ^ 63)%Z with 9223372036854775808%Z.
  intros Hn Hv. destruct (Z.ltb_spec v 0); [lia|].
  rewrite (Z.mod_small v) by lia.
  destruct (Z.leb_spec n v); [|lia].
  rewrite Z.mod_small by lia. lia.
Qed.

Lemma clamp_id (n v : Z) :
  0 <= v < n -> n <= SIZE_MAX -> clamp n v = v.
Proof.
  unfold clamp, u64, SIZE_MAX.
  change (2 ^ 64)%Z with 18446744073709551616%Z.
  intros Hv Hn. destruct (Z.ltb_spec v 0); [lia|].
  rewrite Z.mod_small by lia.
  destruct (Z.leb_spec n v); lia.
Qed.

Lemma map_point_range (opt : Options) (nx ny : Z) (x y : double) :
  1 <= nx <= SIZE_MAX -> 1 <= ny <= SIZE_MAX ->
  0 <= fst (map_point opt nx ny x y) < nx /\
  0 <= snd (map_point opt nx ny x y) < ny.
Proof.
  intros Hx Hy. unfold map_point.
  destruct (negb (tcl_round opt)); simpl;
    split; apply clamp_range; auto; apply to_ll_range.
Qed.

Lemma u64_small (n : Z) : 0 <= n <= SIZE_MAX -> u64 n = n.
Proof.
  unfold u64, SIZE_MAX. change (2 ^ 64)%Z with 18446744073709551616%Z.
  intros H. apply Z.mod_small. lia.
Qed.

Lemma cell_idx_range (nx ny : Z) (c : Z * Z) :
  nx * ny <= SIZE_MAX ->
  0 <= fst c < nx -> 0 <= snd c < ny ->
  cell_idx nx c = fst c + nx * snd c /\ 0 <= cell_idx nx c < nx * ny.
Proof.
  unfold cell_idx, u64, SIZE_MAX.
  change (2 ^ 64)%Z with 18446744073709551616%Z.
  intros Hn Hx Hy.
  assert (nx * snd c + nx <= nx * ny) by nia.
  assert (0 <= nx * snd c) by nia.
  rewrite (Z.mod_small (fst c)), (Z.mod_small (snd c)) by nia.
  rewrite (Z.mod_small (nx * snd c)) by lia.
  rewrite Z.mod_small by lia. lia.
Qed.

(** The array index of a routed line is inside both arrays. *)
Lemma route_in_range (opt : Options) (nx ny : Z) (line : string) (i : nat) (z : double) :
  1 <= nx -> 1 <= ny -> nx * ny <= SIZE_MAX ->
  route opt nx ny line = Some (i, z) ->
  (i < Z.to_nat (nx * ny))%nat.
Proof.
  intros Hx Hy Hn. unfold route.
  destruct (parse_line line) as [[[x y] z']|]; [|discriminate].
  intros [= <- <-].
  assert (nx <= SIZE_MAX /\ ny <= SIZE_MAX) as [Hx' Hy'] by (unfold SIZE_MAX in *; nia).
  destruct (map_point_range opt nx ny x y) as [H1 H2]; [lia..|].
  destruct (cell_idx_range nx ny (map_point opt nx ny x y) Hn H1 H2) as [_ H3].
  lia.
Qed.

End Range.

(** ** Results of the arithmetic are canonical doubles *)

Section Canonical.

Lemma digits2_log2 (p : positive) :
  Zpos (digits2_pos p) = Z.log2 (Zpos p) + 1.
Proof.
  assert (H : forall q, digits2_pos q = Pos.size q)
    by (induction q; simpl; congruence).
  rewrite H. destruct p; simpl; rewrite ?Pos2Z.inj_succ; lia.
Qed.

Lemma shr_1_m (mrs : shr_record) :
  0 <= shr_m mrs -> shr_m (shr_1 mrs) = shr_m mrs / 2.
Proof.
  destruct mrs as [m r s]; simpl. intros Hm.
  destruct m as [|[p|p|]|p]; simpl; try reflexivity; try lia.
  - rewrite (Pos2Z.inj_xI p). apply Z.div_unique with 1; lia.
  - rewrite (Pos2Z.inj_xO p). apply Z.div_unique with 0; lia.
Qed.

Lemma iter_shr_1_m (p : positive) (mrs : shr_record) :
  0 <= shr_m mrs ->
  shr_m (SpecFloat.iter_pos shr_1 p mrs) = shr_m mrs / 2 ^ Zpos p.
Proof.
  revert mrs. induction p as [p IH|p IH|]; intros mrs Hm; simpl SpecFloat.iter_pos.
  - assert (H1 : 0 <= shr_m (shr_1 mrs))
      by (rewrite shr_1_m by assumption; apply Z.div_pos; lia).
    assert (H2 : 0 <= shr_m (SpecFloat.iter_pos shr_1 p (shr_1 mrs)))
      by (rewrite IH by assumption; apply Z.div_pos; lia).
    rewrite IH, IH, shr_1_m by assumption.
    rewrite !Z.div_div by lia. f_equal.
    rewrite (Pos2Z.inj_xI p).
    replace (2 * Z.pos p + 1) with (Z.pos p + Z.pos p + 1) by lia.
    rewrite !Z.pow_add_r, Z.pow_1_r by lia. ring.
  - assert (H2 : 0 <= shr_m (SpecFloat.iter_pos shr_1 p mrs))
      by (rewrite IH by assumption; apply Z.div_pos; lia).
    rewrite IH, IH by assumption.
    rewrite !Z.div_div by lia. f_equal.
    rewrite (Pos2Z.inj_xO p).
    replace (2 * Z.pos p) with (Z.pos p + Z.pos p) by lia.
    rewrite Z.pow_add_r by lia. reflexivity.
  - rewrite shr_1_m by assumption. reflexivity.
Qed.

Lemma Zdigits2_log2 (x : Z) : 0 < x -> Zdigits2 x = Z.log2 x + 1.
Proof. destruct x as [|p|p]; try lia; intros _; apply digits2_log2. Qed.

Lemma Zdigits2_pos (x : Z) : 0 <= x -> (0 < Zdigits2 x <-> 0 < x).
Proof.
  destruct x as [|p|p]; simpl; lia.
Qed.

Lemma Zdigits2_shift (x k : Z) :
  0 <= x -> 0 <= k -> Zdigits2 (x / 2 ^ k) = Z.max 0 (Zdigits2 x - k).
Proof.
  intros Hx Hk. destruct (Z.eq_dec x 0) as [->|Hx0].
  { rewrite Z.div_0_l by (apply Z.pow_nonzero; lia). simpl. lia. }
  assert (Hpow : 0 < 2 ^ k) by (apply Z.pow_pos_nonneg; lia).
  rewrite (Zdigits2_log2 x) by lia.
  destruct (Z.lt_ge_cases x (2 ^ k)) as [Hlt|Hge].
  - rewrite Z.div_small by lia. simpl.
    apply Z.log2_lt_pow2 in Hlt; lia.
  - assert (0 < x / 2 ^ k) by (apply Z.div_str_pos; lia).
    rewrite Zdigits2_log2 by assumption.
    rewrite <- Z.shiftr_div_pow2 by assumption.
    rewrite Z.log2_shiftr by lia.
    apply Z.log2_le_pow2 in Hge; lia.
Qed.

Lemma Zdigits2_succ (x : Z) :
  0 <= x -> Zdigits2 (x + 1) = Zdigits2 x \/ Zdigits2 (x + 1) = Zdigits2 x + 1.
Proof.
  intros Hx. destruct (Z.eq_dec x 0) as [->|Hx0]; [right; reflexivity|].
  rewrite !Zdigits2_log2 by lia.
  destruct (Z.log2_succ_or x) as [H|H]; unfold Z.succ in H; lia.
Qed.

Lemma shr_record_of_loc_m (m : Z) (l : location) :
  shr_m (shr_record_of_loc m l) = m.
Proof. destruct l as [|[]]; reflexivity. Qed.

Lemma shr_fexp_spec (m e : Z) (l : location) :
  0 <= m ->
  let n := Z.max 0 (fexp prec emax (Zdigits2 m + e) - e) in
  shr_m (fst (shr_fexp prec emax m e l)) = m / 2 ^ n /\
  snd (shr_fexp prec emax m e l) = e + n.
Proof.
  intros Hm n. unfold shr_fexp, shr. subst n.
  destruct (fexp prec emax (Zdigits2 m + e) - e) as [|p|p]; simpl fst; simpl snd.
  - rewrite shr_record_of_loc_m, Z.max_id. simpl. rewrite Z.div_1_r. lia.
  - rewrite iter_shr_1_m by (rewrite shr_record_of_loc_m; assumption).
    rewrite shr_record_of_loc_m. rewrite Z.max_r by lia. lia.
  - rewrite shr_record_of_loc_m. rewrite Z.max_l by lia. simpl.
    rewrite Z.div_1_r. lia.
Qed.

Lemma round_nearest_even_or (m : Z) (l : location) :
  round_nearest_even m l = m \/ round_nearest_even m l = m + 1.
Proof.
  destruct l as [|[]]; simpl; auto. destruct (Z.even m); auto.
Qed.

Lemma canonical_arith (d d1 d2 d3 e e' e'' : Z) :
  0 < d -> e <= Z.max (d + e - 53) (-1074) ->
  e' = e + Z.max 0 (Z.max (d + e - 53) (-1074) - e) ->
  d1 = Z.max 0 (d - Z.max 0 (Z.max (d + e - 53) (-1074) - e)) ->
  d2 = d1 \/ d2 = d1 + 1 -> (d1 = 0 -> d2 <= 1) ->
  e'' = e' + Z.max 0 (Z.max (d2 + e' - 53) (-1074) - e') ->
  d3 = Z.max 0 (d2 - Z.max 0 (Z.max (d2 + e' - 53) (-1074) - e')) ->
  0 < d3 ->
  Z.max (d3 + e'' - 53) (-1074) = e''.
Proof. lia. Qed.

(** The rounding step of every arithmetic operation delivers a
    canonical (normalised or subnormal) mantissa and exponent. *)
Lemma binary_round_aux_valid (s : bool) (m e : Z) (l : location) :
  0 < m -> e <= fexp prec emax (Zdigits2 m + e) ->
  valid_binary prec emax (binary_round_aux prec emax s m e l) = true.
Proof.
  intros Hm He. unfold binary_round_aux.
  destruct (shr_fexp_spec m e l) as [E1 E1']; [lia|].
  destruct (shr_fexp prec emax m e l) as [mrs' e'] eqn:S1.
  simpl fst in E1; simpl snd in E1'.
  set (m2 := round_nearest_even (shr_m mrs') (loc_of_shr_record mrs')).
  assert (H1 : 0 <= shr_m mrs')
    by (rewrite E1; apply Z.div_pos; [lia|apply Z.pow_pos_nonneg; lia]).
  assert (H2 : m2 = shr_m mrs' \/ m2 = shr_m mrs' + 1)
    by apply round_nearest_even_or.
  destruct (shr_fexp_spec m2 e' loc_Exact) as [E2 E2']; [lia|].
  destruct (shr_fexp prec emax m2 e' loc_Exact) as [mrs'' e''] eqn:S2.
  simpl fst in E2; simpl snd in E2'.
  destruct (shr_m mrs'') as [|p|p] eqn:M3; try reflexivity.
  destruct (e'' <=? emax - prec)%Z eqn:Le; try reflexivity.
  simpl. unfold bounded, canonical_mantissa. rewrite Le, andb_true_r.
  apply Z.eqb_eq.
  change (Zpos (digits2_pos p)) with (Zdigits2 (Zpos p)).
  apply (canonical_arith (Zdigits2 m) (Zdigits2 (shr_m mrs')) (Zdigits2 m2)
           (Zdigits2 (Zpos p)) e e' e'').
  - apply Zdigits2_pos; lia.
  - exact He.
  - exact E1'.
  - rewrite E1. apply Zdigits2_shift; lia.
  - destruct H2 as [->| ->]; auto. apply Zdigits2_succ, H1.
  - intros Z0. apply Zdigits2_pos in H1. destruct H2 as [E|E]; rewrite E.
    + lia.
    + assert (shr_m mrs' = 0) as -> by (destruct (shr_m mrs'); simpl in *; lia).
      simpl. lia.
  - exact E2'.
  - rewrite E2. apply Zdigits2_shift; lia.
  - reflexivity.
Qed.

Lemma digits2_iter_xO (m d : positive) :
  Zpos (digits2_pos (Pos.iter xO m d)) = Zpos (digits2_pos m) + Zpos d.
Proof.
  induction d as [|d IH] using Pos.peano_ind.
  - simpl. lia.
  - rewrite Pos.iter_succ. simpl digits2_pos. lia.
Qed.

Lemma binary_round_valid (s : bool) (m : positive) (e : Z) :
  valid_binary prec emax (binary_round prec emax s m e) = true.
Proof.
  unfold binary_round, shl_align.
  destruct (fexp prec emax (Zpos (digits2_pos m) + e) - e) as [|d|d] eqn:E;
    apply binary_round_aux_valid; try lia; simpl Zdigits2.
  - lia.
  - lia.
  - rewrite digits2_iter_xO.
    replace (Zpos (digits2_pos m) + Zpos d + fexp prec emax (Zpos (digits2_pos m) + e))
      with (Zpos (digits2_pos m) + e) by lia.
    lia.
Qed.

Lemma binary_normalize_valid (n e : Z) (sz : bool) :
  valid_binary prec emax (binary_normalize prec emax n e sz) = true.
Proof. destruct n; simpl; auto using binary_round_valid. Qed.

(** [x + 1.0] is a canonical double whatever [x] is. *)
Lemma add_one_valid (x : double) : valid_binary prec emax (add x one) = true.
Proof.
  destruct x as [s|s| |s m e]; try reflexivity.
  unfold add, one, SFadd. apply binary_normalize_valid.
Qed.

(** A canonical double that compares [>= 1.0] and converts to [size_t]
    converts to an integer that is at least 1. *)
Lemma cast_size_ge_one (x : double) (n : Z) :
  valid_binary prec emax x = true -> ge x one = true ->
  cast_size x = Some n -> 1 <= n <= SIZE_MAX.
Proof.
  unfold ge. rewrite le_iff. intros V (_ & _ & K) C.
  unfold cast_size in C.
  destruct x as [s|s| |s m e]; simpl in C; try discriminate.
  { simpl in K. unfold key_lt in K. destruct K as [K|K]; [lia|discriminate]. }
  destruct ((0 <=? _)%Z && (_ <=? SIZE_MAX)%Z) eqn:B; [|discriminate].
  injection C as <-. apply andb_true_iff in B. destruct B as [_ B].
  apply Z.leb_le in B. split; [|exact B].
  destruct s.
  { simpl in K. unfold key_lt in K. destruct K as [K|K]; [lia|discriminate]. }
  assert (He : -52 < e \/ (e = -52 /\ 4503599627370496 <= Zpos m)).
  { simpl in K. unfold key_lt in K. destruct K as [K|K]; [lia|].
    inversion K. lia. }
  simpl in V. unfold bounded, canonical_mantissa in V.
  apply andb_true_iff in V. destruct V as [V _]. apply Z.eqb_eq in V.
  rewrite digits2_log2 in V. unfold fexp, emin, prec, emax in V.
  destruct (Z.leb_spec 0 e) as [E0|E0].
  - rewrite Z.shiftl_mul_pow2 by lia.
    assert (0 < 2 ^ e) by (apply Z.pow_pos_nonneg; lia). nia.
  - rewrite Z.shiftr_div_pow2 by lia.
    assert (L : Z.log2 (Zpos m) = 52) by lia.
    assert (P : 2 ^ (- e) <= Zpos m).
    { apply Z.log2_le_pow2; lia. }
    assert (0 < 2 ^ (- e)) by (apply Z.pow_pos_nonneg; lia).
    apply Z.div_le_lower_bound; lia.
Qed.

(** The lattice of a run that gets past the dimension check has at
    least one column and one row. *)
Lemma grid_dims_ok (opt : Options) (nx ny : Z) :
  grid_dims opt = Done (nx, ny) ->
  1 <= nx <= SIZE_MAX /\ 1 <= ny <= SIZE_MAX.
Proof.
  unfold grid_dims.
  set (nx_d := add (floor _) one). set (ny_d := add (floor _) one).
  destruct (ge nx_d one) eqn:Gx; [|discriminate].
  destruct (ge ny_d one) eqn:Gy; [|discriminate]. simpl.
  destruct (cast_size nx_d) as [a|] eqn:Cx; [|discriminate].
  destruct (cast_size ny_d) as [b|] eqn:Cy; [|discriminate].
  intros [= <- <-]. split.
  - apply (cast_size_ge_one nx_d); auto. apply add_one_valid.
  - apply (cast_size_ge_one ny_d); auto. apply add_one_valid.
Qed.
End Canonical.

(** ** The lattice and the coordinate mapper *)

(** C4.  Under either clamped addressing strategy (nearest-rounded with
    [tcl_round = false], nearest with ties low with [tcl_round = true]),
    on the lattice [nx] by [ny] that [main] computes for the options, the
    cell [(ix, iy)] a point is mapped to satisfies [0 <= ix < nx] and
    [0 <= iy < ny] for every input point [(x, y)]: finite and arbitrarily
    far outside the region, and infinite or NaN as well. *)
Theorem clamped_index_in_lattice (opt : Options) (nx ny : Z) (x y : double) :
  grid_dims opt = Done (nx, ny) ->
  0 <= fst (map_point (with_tcl_round false opt) nx ny x y) < nx /\
  0 <= snd (map_point (with_tcl_round false opt) nx ny x y) < ny /\
  0 <= fst (map_point (with_tcl_round true opt) nx ny x y) < nx /\
  0 <= snd (map_point (with_tcl_round true opt) nx ny x y) < ny.
Proof.
  intros H. apply grid_dims_ok in H. destruct H as [Hx Hy].
  pose proof (map_point_range (with_tcl_round false opt) nx ny x y Hx Hy).
  pose proof (map_point_range (with_tcl_round true opt) nx ny x y Hx Hy).
  tauto.
Qed.

(** A point 10^300 to the right of and below the 3 by 3 test lattice. *)
Lemma clamped_index_in_lattice_witness :
  grid_dims test_options = Done (3, 3) /\
  0 <= fst (map_point (with_tcl_round false test_options) 3 3
              (of_decimal false 1 300) (of_decimal true 1 300)) < 3 /\
  0 <= snd (map_point (with_tcl_round false test_options) 3 3
              (of_decimal false 1 300) (of_decimal true 1 300)) < 3 /\
  0 <= fst (map_point (with_tcl_round true test_options) 3 3
              (of_decimal false 1 300) (of_decimal true 1 300)) < 3 /\
  0 <= snd (map_point (with_tcl_round true test_options) 3 3
              (of_decimal false 1 300) (of_decimal true 1 300)) < 3.
Proof.
  split; [vm_compute; reflexivity|].
  apply (clamped_index_in_lattice test_options 3 3).
  vm_compute; reflexivity.
Defined.

(** C5.  The lattice of the region 0 .. 0.49999999999999994 (the largest
    double below one half) by 0 .. 1 with spacing 1: the step count along
    x is q = 0.49999999999999994, whose nearest integer is 0, so that
    rounding to nearest gives [nx = 0 + 1 = 1]; [main] computes
    [floor(q + 0.5) + 1], and the sum [q + 0.5] rounds to 1.0, which
    makes [nx = 2]. *)
Theorem grid_dims_just_below_half :
  exists opt : Options,
    parse_args ["blockminmax"; "-R0/0.49999999999999994/0/1"; "-I1";
                "-PATH"; "testdata_small.xyz"] = Done opt /\
    round_half_away (div (sub (xmax opt) (xmin opt)) (inc opt)) = Some 0 /\
    add (div (sub (xmax opt) (xmin opt)) (inc opt)) half = one /\
    grid_dims opt = Done (2, 2).
Proof.
  eexists. split; [vm_compute; reflexivity|].
  vm_compute. repeat split; reflexivity.
Qed.

(** C6.  The gridline-registration mode is selected by [--gmtbin], as in
    the README and in the third run of the test script; [parse_args]
    has no branch for it: wherever the argument loop meets it the process
    exits with a failure and "Unknown option", before any file is opened,
    and so does the run of the test script. *)
Theorem gmtbin_is_an_unknown_option :
  (forall (rest : list string) (opt : Options),
     parse_loop ("--gmtbin" :: rest) opt
     = Exit EXIT_FAILURE "Unknown option: --gmtbin") /\
  main test_world
       ["blockminmax"; "-R0/2/0/2"; "-I1"; "-PATH"; "testdata_small.xyz";
        "--gmtbin"; "-o"; "out_gmt.min"]
  = Exit EXIT_FAILURE "Unknown option: --gmtbin".
Proof. split; [intros rest opt|]; reflexivity. Qed.

(** C7.  The legacy-compatible formatting is selected by [--tclfmt], as
    in the README and in the second run of the test script; [parse_args]
    has no branch for it either: the process exits with a failure and
    "Unknown option", and no row is written. *)
Theorem tclfmt_is_an_unknown_option :
  (forall (rest : list string) (opt : Options),
     parse_loop ("--tclfmt" :: rest) opt
     = Exit EXIT_FAILURE "Unknown option: --tclfmt") /\
  main test_world
       ["blockminmax"; "-R0/2/0/2"; "-I1"; "-PATH"; "testdata_small.xyz";
        "--tclround"; "--tclfmt"; "-o"; "out_tcllike.min"]
  = Exit EXIT_FAILURE "Unknown option: --tclfmt".
Proof. split; [intros rest opt|]; reflexivity. Qed.

(** ** The cell aggregator *)

Section Aggregator.

Lemma store_length (min : bool) (idx : nat) (z : double) (g : list double) (h : list bool) :
  length (fst (store min idx z g h)) = length g /\
  length (snd (store min idx z g h)) = length h.
Proof.
  unfold store; simpl. split; [|apply length_insert].
  destruct (_ || _); [apply length_insert|reflexivity].
Qed.

Lemma store_other (min : bool) (idx j : nat) (z : double) (g : list double) (h : list bool) :
  idx <> j ->
  fst (store min idx z g h) !! j = g !! j /\
  snd (store min idx z g h) !! j = h !! j.
Proof.
  intros Hne. unfold store; simpl. split; [|apply list_lookup_insert_ne, Hne].
  destruct (_ || _); [apply list_lookup_insert_ne, Hne|reflexivity].
Qed.

Lemma store_hit (min : bool) (idx : nat) (z : double) (g : list double) (h : list bool) :
  (idx < length h)%nat -> snd (store min idx z g h) !! idx = Some true.
Proof. intros H. unfold store; simpl. apply list_lookup_insert_eq, H. Qed.

(** First write to a cell: [z] is stored whatever it is. *)
Lemma store_first (min : bool) (idx : nat) (z : double) (g : list double) (h : list bool) :
  (idx < length g)%nat -> h !! idx = Some false ->
  fst (store min idx z g h) !! idx = Some z.
Proof.
  intros Hg Hh. unfold store; simpl. rewrite Hh. simpl.
  apply list_lookup_insert_eq, Hg.
Qed.

(** Later writes: [z] replaces the stored value exactly when it
    improves on it strictly. *)
Lemma store_later (min : bool) (idx : nat) (z cur : double) (g : list double) (h : list bool) :
  g !! idx = Some cur -> h !! idx = Some true ->
  fst (store min idx z g h) !! idx = Some (if improves min z cur then z else cur).
Proof.
  intros Hg Hh. unfold store, improves; simpl. rewrite Hh, Hg. simpl.
  destruct (if min then lt z cur else gt z cur).
  - apply list_lookup_insert_eq. eapply lookup_lt_Some, Hg.
  - exact Hg.
Qed.

Lemma count_line_arrays (st : state) (g : list double) (h : list bool) :
  grid (count_line st g h) = g /\ hit (count_line st g h) = h.
Proof. unfold count_line. destruct (_ =? _)%Z; split; reflexivity. Qed.

(** One iteration of the input loop, by the routing of its line. *)
Lemma process_line_skipped (opt : Options) (nx ny : Z) (st : state) (line : string) :
  route opt nx ny line = None -> process_line opt nx ny st line = st.
Proof.
  unfold route, process_line.
  destruct (parse_line line) as [[[x y] z]|]; [discriminate|reflexivity].
Qed.

Lemma process_line_routed (opt : Options) (nx ny : Z) (st : state)
      (line : string) (i : nat) (z : double) :
  route opt nx ny line = Some (i, z) ->
  grid (process_line opt nx ny st line)
    = fst (store (find_min opt) i z (grid st) (hit st)) /\
  hit (process_line opt nx ny st line)
    = snd (store (find_min opt) i z (grid st) (hit st)).
Proof.
  unfold route, process_line.
  destruct (parse_line line) as [[[x y] z']|]; [|discriminate].
  intros [= <- <-].
  destruct (store _ _ _ _ _) as [g h] eqn:E. simpl.
  apply count_line_arrays.
Qed.

Lemma process_lines_snoc (opt : Options) (nx ny : Z) (st : state)
      (ls : list string) (l : string) :
  process_lines opt nx ny st (ls ++ [l])%list
  = process_line opt nx ny (process_lines opt nx ny st ls) l.
Proof. unfold process_lines. rewrite fold_left_app. reflexivity. Qed.

Lemma routed_snoc (opt : Options) (nx ny : Z) (idx : nat)
      (ls : list string) (l : string) :
  routed opt nx ny idx (ls ++ [l])%list
  = (routed opt nx ny idx ls ++
     match route opt nx ny l with
     | Some (i, z) => if Nat.eqb i idx then [z] else []
     | None => []
     end)%list.
Proof. unfold routed. rewrite flat_map_app. simpl. rewrite app_nil_r. reflexivity. Qed.

Lemma bounds_refl (min : bool) (z : double) :
  is_nan z = false -> bounds min z z = true.
Proof. intros H. destruct min; apply le_refl, H. Qed.

Lemma bounds_improved (min : bool) (z v z' : double) :
  improves min z v = true -> bounds min v z' = true -> bounds min z z' = true.
Proof.
  destruct min; simpl; unfold ge, gt.
  - apply lt_le_trans.
  - intros H1 H2. eapply le_lt_trans; eauto.
Qed.

Lemma bounds_kept (min : bool) (z v : double) :
  is_nan z = false -> is_nan v = false ->
  improves min z v = false -> bounds min v z = true.
Proof.
  destruct min; simpl; unfold ge, gt; intros Hz Hv H.
  - apply not_lt_le; assumption.
  - apply not_lt_le; assumption.
Qed.

Lemma cell_ok_write (min : bool) (zs : list double) (z : double)
      (i : nat) (g : list double) (h : list bool) :
  (i < length g)%nat -> (i < length h)%nat ->
  cell_ok min zs (h !! i) (g !! i) ->
  cell_ok min (zs ++ [z])%list (snd (store min i z g h) !! i)
          (fst (store min i z g h) !! i).
Proof.
  intros Hg Hh [H0 H1]. split.
  { intros E. destruct zs; discriminate. }
  intros _. split; [apply store_hit, Hh|].
  destruct zs as [|z0 zs'].
  - exists z. rewrite store_first by auto. repeat split.
    + simpl. auto.
    + intros F. inversion F; subst. constructor; [|constructor].
      apply bounds_refl. assumption.
  - destruct H1 as (Hhit & v & Hv & Hin & Hb); [discriminate|].
    rewrite (store_later min i z v g h Hv Hhit).
    eexists. split; [reflexivity|]. split.
    + destruct (improves min z v); apply in_or_app; simpl; auto.
    + intros F. apply Forall_app in F. destruct F as [F1 F2].
      inversion F2 as [|? ? Hz _]; subst.
      specialize (Hb F1).
      assert (Nv : is_nan v = false).
      { rewrite Forall_forall in F1. apply F1.
        apply list_elem_of_In. exact Hin. }
      destruct (improves min z v) eqn:I.
      * apply Forall_app. split.
        -- eapply Forall_impl; [exact Hb|]. simpl. intros z'.
           apply bounds_improved. exact I.
        -- constructor; [|constructor]. apply bounds_refl, Hz.
      * apply Forall_app. split; [exact Hb|].
        constructor; [|constructor]. apply bounds_kept; assumption.
Qed.

Lemma process_lines_cells (opt : Options) (nx ny : Z) (log : list message)
      (ls : list string) :
  1 <= nx -> 1 <= ny -> nx * ny <= SIZE_MAX ->
  let st := process_lines opt nx ny
              (initial_state (find_min opt) (nx * ny) log) ls in
  length (grid st) = Z.to_nat (nx * ny) /\
  length (hit st) = Z.to_nat (nx * ny) /\
  forall i : nat, (i < Z.to_nat (nx * ny))%nat ->
    cell_ok (find_min opt) (routed opt nx ny i ls) (hit st !! i) (grid st !! i).
Proof.
  intros Hx Hy Hn. induction ls as [|l ls IH] using rev_ind.
  - simpl. rewrite !length_replicate. split; [reflexivity|]. split; [reflexivity|].
    intros i Hi. split.
    + intros _. apply lookup_replicate_2. assumption.
    + intros E. exfalso. apply E. reflexivity.
  - cbv zeta in *. rewrite process_lines_snoc.
    set (st := process_lines opt nx ny _ ls) in *.
    destruct IH as (Lg & Lh & IH).
    destruct (route opt nx ny l) as [[j z]|] eqn:R.
    + pose proof (route_in_range opt nx ny l j z Hx Hy Hn R) as Hj.
      destruct (process_line_routed opt nx ny st l j z R) as [-> ->].
      destruct (store_length (find_min opt) j z (grid st) (hit st)) as [-> ->].
      split; [assumption|]. split; [assumption|].
      intros i Hi. rewrite routed_snoc, R.
      destruct (Nat.eqb_spec j i) as [->|Hne].
      * apply cell_ok_write; try lia. apply IH, Hi.
      * rewrite app_nil_r.
        destruct (store_other (find_min opt) j i z (grid st) (hit st) Hne) as [-> ->].
        apply IH, Hi.
    + rewrite (process_line_skipped opt nx ny st l R).
      split; [assumption|]. split; [assumption|].
      intros i Hi. rewrite routed_snoc, R, app_nil_r. apply IH, Hi.
Qed.

End Aggregator.

Section Run.

Lemma safe_mul_ok (a b n : Z) :
  1 <= a -> 1 <= b -> safe_mul_size_t a b = Done n ->
  n = a * b /\ a * b <= SIZE_MAX.
Proof.
  intros Ha Hb. unfold safe_mul_size_t.
  destruct (Z.eqb_spec a 0); [lia|]. destruct (Z.eqb_spec b 0); [lia|]. simpl.
  destruct (Z.ltb_spec (SIZE_MAX / b) a); [discriminate|].
  intros [= <-]. split; [reflexivity|].
  transitivity (b * (SIZE_MAX / b)); [nia|].
  apply Z.mul_div_le. lia.
Qed.

(** The lattice of a run that reaches the input loop. *)
Lemma lattice_ok (opt : Options) (nx ny ncell : Z) :
  grid_dims opt = Done (nx, ny) -> safe_mul_size_t nx ny = Done ncell ->
  1 <= nx /\ 1 <= ny /\ ncell = nx * ny /\ nx * ny <= SIZE_MAX.
Proof.
  intros G M. apply grid_dims_ok in G. destruct G as [Hx Hy].
  destruct (safe_mul_ok nx ny ncell) as [-> H]; [lia|lia|exact M|].
  lia.
Qed.

(** A cell holding a NaN keeps it. *)
Lemma nan_cell_line (opt : Options) (nx ny : Z) (st : state) (line : string) (i : nat) :
  hit st !! i = Some true -> grid st !! i = Some S754_nan ->
  hit (process_line opt nx ny st line) !! i = Some true /\
  grid (process_line opt nx ny st line) !! i = Some S754_nan.
Proof.
  intros Hh Hg. destruct (route opt nx ny line) as [[j z]|] eqn:R.
  - destruct (process_line_routed opt nx ny st line j z R) as [-> ->].
    destruct (Nat.eq_dec j i) as [->|Hne].
    + split.
      * apply store_hit. eapply lookup_lt_Some, Hh.
      * rewrite (store_later _ i z S754_nan _ _ Hg Hh).
        unfold improves, gt. rewrite lt_nan_r, lt_nan_l.
        destruct (find_min opt); reflexivity.
    + destruct (store_other (find_min opt) j i z (grid st) (hit st) Hne) as [-> ->].
      auto.
  - rewrite (process_line_skipped opt nx ny st line R). auto.
Qed.

Lemma nan_cell_lines (opt : Options) (nx ny : Z) (ls : list string) (st : state) (i : nat) :
  hit st !! i = Some true -> grid st !! i = Some S754_nan ->
  hit (process_lines opt nx ny st ls) !! i = Some true /\
  grid (process_lines opt nx ny st ls) !! i = Some S754_nan.
Proof.
  revert st. induction ls as [|l ls IH]; intros st Hh Hg; [auto|].
  simpl. destruct (nan_cell_line opt nx ny st l i Hh Hg) as [H1 H2].
  apply IH; assumption.
Qed.

(** Every hit cell of the lattice has its row in the output. *)
Lemma write_results_row (opt : Options) (nx ny : Z) (st : state) (c : Z * Z) (v : double) :
  nx <= SIZE_MAX -> ny <= SIZE_MAX ->
  0 <= fst c < nx -> 0 <= snd c < ny ->
  hit st !! Z.to_nat (cell_idx nx c) = Some true ->
  grid st !! Z.to_nat (cell_idx nx c) = Some v ->
  In (add (xmin opt) (mul (of_Z (fst c)) (inc opt)),
      add (ymin opt) (mul (of_Z (snd c)) (inc opt)), v)
     (write_results opt nx ny st).
Proof.
  intros Mx My Hx Hy Hh Hg. unfold write_results.
  apply in_flat_map. exists (snd c). split.
  { apply list_elem_of_In, elem_of_seqZ. lia. }
  apply in_flat_map. exists (fst c). split.
  { apply list_elem_of_In, elem_of_seqZ. lia. }
  unfold cell_idx in Hh, Hg. cbv zeta in Hh, Hg.
  rewrite (u64_small (fst c)), (u64_small (snd c)) in Hh, Hg by lia.
  rewrite Hh, Hg. simpl. auto.
Qed.

End Run.

(** ** The update policy of the C program *)

(** C2, as the program has it.  On the lattice of a run: the first line
    routed to a cell stores its z unconditionally and sets the hit flag;
    every later line routed to it replaces the stored value if and only
    if its z improves on it strictly ([z < current] in minimum mode,
    [z > current] in maximum mode) and leaves it alone otherwise; and for
    every hit cell to which no NaN was routed, the value stored at the
    end is one of the values routed to the cell and is [<=] each of them
    in minimum mode ([>=] in maximum mode). *)
Theorem strict_improvement_update (opt : Options) (nx ny ncell : Z) :
  grid_dims opt = Done (nx, ny) -> safe_mul_size_t nx ny = Done ncell ->
  (forall (st : state) (line : string) (i : nat) (z : double),
     length (grid st) = Z.to_nat ncell -> length (hit st) = Z.to_nat ncell ->
     route opt nx ny line = Some (i, z) -> hit st !! i = Some false ->
     grid (process_line opt nx ny st line) !! i = Some z /\
     hit (process_line opt nx ny st line) !! i = Some true) /\
  (forall (st : state) (line : string) (i : nat) (z cur : double),
     route opt nx ny line = Some (i, z) ->
     hit st !! i = Some true -> grid st !! i = Some cur ->
     grid (process_line opt nx ny st line) !! i
       = Some (if improves (find_min opt) z cur then z else cur) /\
     hit (process_line opt nx ny st line) !! i = Some true) /\
  (forall (log : list message) (ls : list string) (i : nat),
     let st := process_lines opt nx ny
                 (initial_state (find_min opt) ncell log) ls in
     hit st !! i = Some true ->
     Forall (fun z => is_nan z = false) (routed opt nx ny i ls) ->
     exists v : double,
       grid st !! i = Some v /\ In v (routed opt nx ny i ls) /\
       Forall (fun z => bounds (find_min opt) v z = true) (routed opt nx ny i ls)).
Proof.
  intros G M. destruct (lattice_ok opt nx ny ncell G M) as (Hx & Hy & -> & Hn).
  split; [|split].
  - intros st line i z Lg Lh R Hh.
    pose proof (route_in_range opt nx ny line i z Hx Hy Hn R) as Hi.
    destruct (process_line_routed opt nx ny st line i z R) as [-> ->]. split.
    + apply store_first; [lia|assumption].
    + apply store_hit. lia.
  - intros st line i z cur R Hh Hg.
    destruct (process_line_routed opt nx ny st line i z R) as [-> ->]. split.
    + apply store_later; assumption.
    + apply store_hit. eapply lookup_lt_Some, Hh.
  - intros log ls i st Hh F.
    destruct (process_lines_cells opt nx ny log ls Hx Hy Hn) as (Lg & Lh & C).
    fold st in Lg, Lh, C.
    assert (Hi : (i < Z.to_nat (nx * ny))%nat)
      by (rewrite <- Lh; eapply lookup_lt_Some, Hh).
    destruct (C i Hi) as [C0 C1].
    destruct (routed opt nx ny i ls) as [|z0 zs] eqn:E.
    + rewrite C0 in Hh by reflexivity. discriminate.
    + destruct C1 as (_ & v & Hv & Hin & Hb); [discriminate|].
      exists v. auto.
Qed.

(** Three values routed to one cell, in both modes.  The lines "0 0 5",
    "0.2 0.1 3" and "0 0 7" go to cell 0 of the test lattice and "1 1 2"
    to cell 4.  The first write stores 5; against the stored 5, a later
    3 replaces it in minimum mode and a later 5 or 7 is ignored, and in
    maximum mode a later 7 replaces it and a later 5 or 3 is ignored;
    after the four lines the cell holds 3 in minimum mode and 7 in
    maximum mode, a routed value that bounds the three of them. *)
Lemma strict_improvement_update_witness :
  grid_dims test_options = Done (3, 3) /\
  grid_dims test_options_max = Done (3, 3) /\ safe_mul_size_t 3 3 = Done 9 /\
  routed test_options 3 3 0 several_lines = [of_Z 5; of_Z 3; of_Z 7] /\
  routed test_options_max 3 3 0 several_lines = [of_Z 5; of_Z 3; of_Z 7] /\
  (let st1 := process_line test_options 3 3 (initial_state true 9 []) "0 0 5" in
   let st := process_lines test_options 3 3 (initial_state true 9 []) several_lines in
   grid st1 !! 0%nat = Some (of_Z 5) /\ hit st1 !! 0%nat = Some true /\
   grid (process_line test_options 3 3 st1 "0.2 0.1 3") !! 0%nat = Some (of_Z 3) /\
   grid (process_line test_options 3 3 st1 "0 0 5") !! 0%nat = Some (of_Z 5) /\
   grid (process_line test_options 3 3 st1 "0 0 7") !! 0%nat = Some (of_Z 5) /\
   grid st !! 0%nat = Some (of_Z 3) /\
   In (of_Z 3) (routed test_options 3 3 0 several_lines) /\
   Forall (fun z => le (of_Z 3) z = true)
          (routed test_options 3 3 0 several_lines)) /\
  (let st1 := process_line test_options_max 3 3 (initial_state false 9 []) "0 0 5" in
   let st := process_lines test_options_max 3 3 (initial_state false 9 [])
               several_lines in
   grid st1 !! 0%nat = Some (of_Z 5) /\ hit st1 !! 0%nat = Some true /\
   grid (process_line test_options_max 3 3 st1 "0 0 7") !! 0%nat = Some (of_Z 7) /\
   grid (process_line test_options_max 3 3 st1 "0 0 5") !! 0%nat = Some (of_Z 5) /\
   grid (process_line test_options_max 3 3 st1 "0.2 0.1 3") !! 0%nat
     = Some (of_Z 5) /\
   grid st !! 0%nat = Some (of_Z 7) /\
   In (of_Z 7) (routed test_options_max 3 3 0 several_lines) /\
   Forall (fun z => ge (of_Z 7) z = true)
          (routed test_options_max 3 3 0 several_lines)).
Proof.
  split; [vm_compute; reflexivity|]. split; [vm_compute; reflexivity|].
  split; [vm_compute; reflexivity|].
  split; [vm_compute; reflexivity|]. split; [vm_compute; reflexivity|].
  split.
  - destruct (strict_improvement_update test_options 3 3 9) as (H1 & H2 & H3);
      [vm_compute; reflexivity..|].
    intros st1 st.
    destruct (H1 (initial_state true 9 []) "0 0 5" 0%nat (of_Z 5))
      as [G1 Hit1]; [vm_compute; reflexivity..|].
    fold st1 in G1, Hit1.
    destruct (H2 st1 "0.2 0.1 3" 0%nat (of_Z 3) (of_Z 5)) as [A _];
      [vm_compute; reflexivity|exact Hit1|exact G1|].
    destruct (H2 st1 "0 0 5" 0%nat (of_Z 5) (of_Z 5)) as [B _];
      [vm_compute; reflexivity|exact Hit1|exact G1|].
    destruct (H2 st1 "0 0 7" 0%nat (of_Z 7) (of_Z 5)) as [C _];
      [vm_compute; reflexivity|exact Hit1|exact G1|].
    destruct (H3 [] several_lines 0%nat) as (v & Hv & Hin & Hb);
      [vm_compute; reflexivity|vm_compute; repeat constructor|].
    fold st in Hv.
    assert (E : v = of_Z 3) by (vm_compute in Hv; vm_compute; congruence).
    subst v.
    split; [exact G1|]. split; [exact Hit1|]. split; [exact A|].
    split; [exact B|]. split; [exact C|]. split; [exact Hv|].
    split; [exact Hin|exact Hb].
  - destruct (strict_improvement_update test_options_max 3 3 9) as (H1 & H2 & H3);
      [vm_compute; reflexivity..|].
    intros st1 st.
    destruct (H1 (initial_state false 9 []) "0 0 5" 0%nat (of_Z 5))
      as [G1 Hit1]; [vm_compute; reflexivity..|].
    fold st1 in G1, Hit1.
    destruct (H2 st1 "0 0 7" 0%nat (of_Z 7) (of_Z 5)) as [A _];
      [vm_compute; reflexivity|exact Hit1|exact G1|].
    destruct (H2 st1 "0 0 5" 0%nat (of_Z 5) (of_Z 5)) as [B _];
      [vm_compute; reflexivity|exact Hit1|exact G1|].
    destruct (H2 st1 "0.2 0.1 3" 0%nat (of_Z 3) (of_Z 5)) as [C _];
      [vm_compute; reflexivity|exact Hit1|exact G1|].
    destruct (H3 [] several_lines 0%nat) as (v & Hv & Hin & Hb);
      [vm_compute; reflexivity|vm_compute; repeat constructor|].
    fold st in Hv.
    assert (E : v = of_Z 7) by (vm_compute in Hv; vm_compute; congruence).
    subst v.
    split; [exact G1|]. split; [exact Hit1|]. split; [exact A|].
    split; [exact B|]. split; [exact C|]. split; [exact Hv|].
    split; [exact Hin|exact Hb].
Defined.

(** C2 as stated fails when a NaN is routed to the cell: after the lines
    "0 0 nan" and "0 0 1" the hit cell 0 holds the NaN, which is not
    [<=] the routed value 1; after "0 0 1" and "0 0 nan" it holds 1,
    which is not [<=] the routed NaN. *)
Lemma strict_improvement_nan_counterexample :
  (let ls := ["0 0 nan"; "0 0 1"] in
   let st := process_lines test_options 3 3 (initial_state true 9 []) ls in
   routed test_options 3 3 0 ls = [S754_nan; of_Z 1] /\
   hit st !! 0%nat = Some true /\ grid st !! 0%nat = Some S754_nan /\
   le S754_nan (of_Z 1) = false) /\
  (let ls := ["0 0 1"; "0 0 nan"] in
   let st := process_lines test_options 3 3 (initial_state true 9 []) ls in
   routed test_options 3 3 0 ls = [of_Z 1; S754_nan] /\
   hit st !! 0%nat = Some true /\ grid st !! 0%nat = Some (of_Z 1) /\
   le (of_Z 1) S754_nan = false).
Proof. vm_compute. repeat split; reflexivity. Qed.

(** C10.  When the first line routed to a cell carries z = NaN, the cell
    holds NaN after any further lines, in minimum and in maximum mode
    alike, and the output loop writes the row of the cell with z = NaN. *)
Theorem nan_first_write_sticks (opt : Options) (nx ny ncell : Z) (st : state)
        (first : string) (later : list string) (x y : double) :
  grid_dims opt = Done (nx, ny) -> safe_mul_size_t nx ny = Done ncell ->
  length (grid st) = Z.to_nat ncell -> length (hit st) = Z.to_nat ncell ->
  parse_line first = Some (x, y, S754_nan) ->
  let c := map_point opt nx ny x y in
  let i := Z.to_nat (cell_idx nx c) in
  hit st !! i = Some false ->
  let st' := process_lines opt nx ny st (first :: later) in
  hit st' !! i = Some true /\ grid st' !! i = Some S754_nan /\
  In (add (xmin opt) (mul (of_Z (fst c)) (inc opt)),
      add (ymin opt) (mul (of_Z (snd c)) (inc opt)), S754_nan)
     (write_results opt nx ny st').
Proof.
  intros G M Lg Lh P c i Hh st'.
  destruct (lattice_ok opt nx ny ncell G M) as (Hx & Hy & -> & Hn).
  assert (R : route opt nx ny first = Some (i, S754_nan))
    by (unfold route; rewrite P; reflexivity).
  pose proof (route_in_range opt nx ny first i _ Hx Hy Hn R) as Hi.
  assert (H1 : hit (process_line opt nx ny st first) !! i = Some true /\
               grid (process_line opt nx ny st first) !! i = Some S754_nan).
  { destruct (process_line_routed opt nx ny st first i _ R) as [-> ->]. split.
    - apply store_hit. lia.
    - apply store_first; [lia|assumption]. }
  destruct H1 as [H1 H2].
  destruct (nan_cell_lines opt nx ny later _ i H1 H2) as [H3 H4].
  change (process_lines opt nx ny (process_line opt nx ny st first) later)
    with st' in H3, H4.
  repeat split; try assumption.
  assert (nx <= SIZE_MAX /\ ny <= SIZE_MAX) as [Hx' Hy']
    by (unfold SIZE_MAX in *; nia).
  destruct (map_point_range opt nx ny x y) as [C1 C2]; [lia..|].
  apply write_results_row; assumption.
Qed.

(** The line "0 0 nan" first and the four test points after it, in
    minimum mode: cell 0 ends as NaN, and its row is in the output. *)
Lemma nan_first_write_sticks_witness :
  let st' := process_lines test_options 3 3 (initial_state true 9 [])
               ("0 0 nan" :: map c_str (fgets_all (Z.to_nat 16384) testdata_small)) in
  hit st' !! 0%nat = Some true /\ grid st' !! 0%nat = Some S754_nan /\
  In (of_Z 0, of_Z 0, S754_nan) (write_results test_options 3 3 st').
Proof.
  apply (nan_first_write_sticks test_options 3 3 9 (initial_state true 9 [])
           "0 0 nan" (map c_str (fgets_all (Z.to_nat 16384) testdata_small))
           (of_Z 0) (of_Z 0));
    vm_compute; reflexivity.
Defined.

(** ** The input lines *)

Section Lines.

Lemma parse_line_blank (line : string) :
  blank_or_comment line = true -> parse_line line = None.
Proof.
  unfold blank_or_comment, parse_line.
  destruct (skip_blanks line) as [|c p]; [reflexivity|].
  intros ->. reflexivity.
Qed.

Lemma parse_line_conversions (line : string) :
  blank_or_comment line = false ->
  parse_line line = three_conversions (skip_blanks line).
Proof.
  unfold blank_or_comment, parse_line, three_conversions.
  destruct (skip_blanks line) as [|c p]; [discriminate|].
  intros ->. generalize (String c p). intros q.
  destruct (strtod_checked q) as [[x p1]|]; [|reflexivity]. simpl.
  destruct (strtod_checked p1) as [[y p2]|]; [|reflexivity]. simpl.
  destruct (strtod_checked p2) as [[z p3]|]; reflexivity.
Qed.

End Lines.

(** C9, as the program has it.  A line that is empty, or whose first
    character after leading blanks and tabs is a newline or [#], is
    skipped; so is a line on which one of three successive [strtod]
    conversions, each starting where the previous one stopped, converts
    nothing or reports a range error.  A skipped line leaves the whole
    state of the loop as it was (arrays, counters and stderr), and the
    loop goes on with the next line.  Every other line is aggregated: its
    point is routed to a cell of the lattice, which is hit afterwards,
    and the line is counted. *)
Theorem line_filter (opt : Options) (nx ny ncell : Z) (st : state) (line : string) :
  grid_dims opt = Done (nx, ny) -> safe_mul_size_t nx ny = Done ncell ->
  length (grid st) = Z.to_nat ncell -> length (hit st) = Z.to_nat ncell ->
  match (if blank_or_comment line then None
         else three_conversions (skip_blanks line)) with
  | None =>
      process_line opt nx ny st line = st /\
      forall rest : list string,
        process_lines opt nx ny st (line :: rest) = process_lines opt nx ny st rest
  | Some (x, y, z) =>
      let i := Z.to_nat (cell_idx nx (map_point opt nx ny x y)) in
      let st' := process_line opt nx ny st line in
      route opt nx ny line = Some (i, z) /\
      (i < Z.to_nat ncell)%nat /\
      hit st' !! i = Some true /\
      (exists v : double, grid st' !! i = Some v /\ (hit st !! i = Some false -> v = z)) /\
      (lines st' = u64 (lines st + 1) \/ (lines st' = 0 /\ Mlines st' = u64 (Mlines st + 1)))
  end.
Proof.
  intros G M Lg Lh.
  destruct (lattice_ok opt nx ny ncell G M) as (Hx & Hy & -> & Hn).
  destruct (blank_or_comment line) eqn:B.
  { assert (E : process_line opt nx ny st line = st)
      by (unfold process_line; rewrite parse_line_blank by assumption; reflexivity).
    split; [exact E|]. intros rest. simpl. rewrite E. reflexivity. }
  pose proof (parse_line_conversions line B) as P.
  destruct (three_conversions (skip_blanks line)) as [[[x y] z]|].
  - cbv zeta.
    assert (R : route opt nx ny line
                = Some (Z.to_nat (cell_idx nx (map_point opt nx ny x y)), z))
      by (unfold route; rewrite P; reflexivity).
    pose proof (route_in_range opt nx ny line _ z Hx Hy Hn R) as Hi.
    set (i := Z.to_nat (cell_idx nx (map_point opt nx ny x y))) in *.
    destruct (process_line_routed opt nx ny st line i z R) as [Eg Eh].
    split; [exact R|]. split; [exact Hi|]. split.
    { rewrite Eh. apply store_hit. lia. }
    split.
    { rewrite Eg. destruct (hit st !! i) as [[]|] eqn:Hh.
      - destruct (lookup_lt_is_Some_2 (grid st) i) as [cur Hc]; [lia|].
        rewrite (store_later _ i z cur _ _ Hc Hh). eexists. split; [reflexivity|].
        discriminate.
      - assert (Hig : (i < length (grid st))%nat) by lia.
        rewrite (store_first _ i z _ _ Hig Hh). eauto.
      - apply lookup_ge_None in Hh. lia. }
    unfold process_line. rewrite P. fold i.
    destruct (store _ _ _ _ _) as [g h]. unfold count_line.
    destruct (_ =? _)%Z; simpl; auto.
  - assert (E : process_line opt nx ny st line = st)
      by (unfold process_line; rewrite P; reflexivity).
    split; [exact E|]. intros rest. simpl. rewrite E. reflexivity.
Qed.

(** A comment line is skipped; the first line of the test data is
    aggregated into cell 0 of the test lattice. *)
Lemma line_filter_witness :
  (process_line test_options 3 3 (initial_state true 9 []) "  # x y z"
   = initial_state true 9 []) /\
  (let st' := process_line test_options 3 3 (initial_state true 9 []) "-0.49 -0.49 5" in
   route test_options 3 3 "-0.49 -0.49 5" = Some (0%nat, of_Z 5) /\
   hit st' !! 0%nat = Some true).
Proof.
  split.
  - apply (line_filter test_options 3 3 9 (initial_state true 9 []) "  # x y z");
      vm_compute; reflexivity.
  - pose proof (line_filter test_options 3 3 9 (initial_state true 9 [])
                  "-0.49 -0.49 5") as H.
    destruct H as (R & _ & Hh & _); [vm_compute; reflexivity..|].
    split; [exact R|exact Hh].
Defined.

(** C9 as stated fails on the line "1+2+3": it holds a single token, so
    that by the specification it is no record and is skipped, but the
    three conversions succeed one after the other (1, +2, +3) and the
    point is aggregated into cell (1, 2) of the test lattice. *)
Lemma one_token_line_counterexample :
  tokens "1+2+3" = ["1+2+3"] /\
  spec_line_is_record "1+2+3" = false /\
  parse_line "1+2+3" = Some (of_Z 1, of_Z 2, of_Z 3) /\
  route test_options 3 3 "1+2+3" = Some (7%nat, of_Z 3) /\
  process_line test_options 3 3 (initial_state true 9 []) "1+2+3"
    <> initial_state true 9 [] /\
  grid (process_line test_options 3 3 (initial_state true 9 []) "1+2+3") !! 7%nat
    = Some (of_Z 3).
Proof.
  split; [vm_compute; reflexivity|]. split; [vm_compute; reflexivity|].
  split; [vm_compute; reflexivity|]. split; [vm_compute; reflexivity|].
  split; [vm_compute; discriminate|vm_compute; reflexivity].
Qed.

(** ** The update of the Tcl script *)

Section TclUpdate.
Import Tcl.

Lemma lt_irrefl (a : double) : lt a a = false.
Proof.
  destruct (lt a a) eqn:E; [|reflexivity]. apply lt_iff in E.
  destruct E as (_ & _ & K). destruct (key a) as [[k1 k2] k3].
  unfold key_lt in K. lia.
Qed.

Lemma lt_asym (a b : double) : lt a b = true -> lt b a = false.
Proof.
  intros H. destruct (lt b a) eqn:E; [|reflexivity].
  apply lt_iff in H, E. destruct H as (_ & _ & K1), E as (_ & _ & K2).
  pose proof (key_lt_trans _ _ _ K1 K2) as K.
  destruct (key a) as [[k1 k2] k3]. unfold key_lt in K. lia.
Qed.

Lemma le_not_gt (a b : double) : le a b = true <-> (is_nan a = false /\ is_nan b = false /\ lt b a = false).
Proof.
  split.
  - intros H. pose proof H as H'. apply le_iff in H'. destruct H' as (Ha & Hb & K).
    repeat split; auto. destruct (lt b a) eqn:E; [|reflexivity].
    apply lt_iff in E. destruct E as (_ & _ & K2). destruct K as [K|K].
    + pose proof (key_lt_trans _ _ _ K K2) as K3.
      destruct (key a) as [[k1 k2] k3]. unfold key_lt in K3. lia.
    + rewrite K in K2. destruct (key b) as [[k1 k2] k3]. unfold key_lt in K2. lia.
  - intros (Ha & Hb & H). apply not_lt_le; assumption.
Qed.

(** Neither smaller nor larger, among values that are not NaN: equal. *)
Lemma tie_eqb (a b : double) :
  is_nan a = false -> is_nan b = false ->
  lt a b = false -> lt b a = false -> SFeqb a b = true.
Proof.
  intros Ha Hb H1 H2. unfold SFeqb. rewrite (compare_key a b Ha Hb).
  destruct (key_total (key a) (key b)) as [K|[K|K]].
  - assert (lt a b = true) by (apply lt_iff; auto). congruence.
  - apply key_compare_eq in K. rewrite K. reflexivity.
  - assert (lt b a = true) by (apply lt_iff; auto). congruence.
Qed.

Lemma eqb_refl (a : double) : is_nan a = false -> SFeqb a a = true.
Proof. intros Ha. apply tie_eqb; auto using lt_irrefl. Qed.

(** The array after one line: only the element of the line changes. *)
Lemma ar_update_lookup (fix_min find_min : bool) (ar : gmap string string)
      (x y z cur : string) :
  ar !! ar_key x y = Some cur ->
  exists ar' : gmap string string,
    ar_update fix_min find_min ar x y z = Some ar' /\
    ar' !! ar_key x y = Some (update fix_min find_min z cur) /\
    forall k : string, k <> ar_key x y -> ar' !! k = ar !! k.
Proof.
  intros H. unfold ar_update. rewrite H. eexists. split; [reflexivity|]. split.
  - apply lookup_insert_eq.
  - intros k Hk. apply lookup_insert_ne. congruence.
Qed.

End TclUpdate.

(** C8, as the script has it.  Without [-FIXMIN]: in minimum mode the
    stored value is replaced when [z < cur] and also when [z > cur], and
    is kept on a tie; in maximum mode it is replaced only when [z > cur].
    For a line value and a stored value that read as numbers other than
    NaN, the value stored in minimum mode is therefore numerically the
    last value seen, with the text of the earlier line on a tie, and in
    maximum mode the write is rejected exactly when [z] is smaller than
    or equal to the stored value. *)
Theorem legacy_last_writer (z cur : string) :
  Tcl.update false true z cur
    = (if Tcl.expr_lt z cur || Tcl.expr_gt z cur then z else cur) /\
  Tcl.update false false z cur = (if Tcl.expr_gt z cur then z else cur) /\
  forall vz vc : double,
    Tcl.number z = Some vz -> Tcl.number cur = Some vc ->
    is_nan vz = false -> is_nan vc = false ->
    (exists v : double,
       Tcl.number (Tcl.update false true z cur) = Some v /\ SFeqb v vz = true) /\
    (lt vz vc = false -> gt vz vc = false ->
       Tcl.update false true z cur = cur /\ Tcl.update false false z cur = cur) /\
    (le vz vc = true -> Tcl.update false false z cur = cur) /\
    (le vz vc = false -> Tcl.update false false z cur = z).
Proof.
  assert (U1 : Tcl.update false true z cur
               = (if Tcl.expr_lt z cur || Tcl.expr_gt z cur then z else cur)).
  { unfold Tcl.update. simpl.
    destruct (Tcl.expr_lt z cur), (Tcl.expr_gt z cur); reflexivity. }
  assert (U2 : Tcl.update false false z cur
               = (if Tcl.expr_gt z cur then z else cur)) by reflexivity.
  split; [exact U1|]. split; [exact U2|].
  intros vz vc Nz Nc Hz Hc.
  assert (E1 : Tcl.expr_lt z cur = lt vz vc)
    by (unfold Tcl.expr_lt; rewrite Nz, Nc; reflexivity).
  assert (E2 : Tcl.expr_gt z cur = gt vz vc)
    by (unfold Tcl.expr_gt; rewrite Nz, Nc; reflexivity).
  rewrite U1, U2, E1, E2. clear U1 U2 E1 E2.
  split; [|split; [|split]].
  - destruct (lt vz vc) eqn:L; simpl.
    + exists vz. split; [exact Nz|apply eqb_refl, Hz].
    + destruct (gt vz vc) eqn:Gt.
      * exists vz. split; [exact Nz|apply eqb_refl, Hz].
      * exists vc. split; [exact Nc|]. apply tie_eqb; auto.
  - intros L G. rewrite L, G. split; reflexivity.
  - intros L. apply le_not_gt in L. destruct L as (_ & _ & L).
    change (gt vz vc) with (lt vc vz). rewrite L. reflexivity.
  - intros L. change (gt vz vc) with (lt vc vz).
    destruct (lt vc vz) eqn:E; [reflexivity|].
    rewrite (not_lt_le vc vz Hc Hz E) in L. discriminate.
Qed.

(** A cell holding "5.0" and the values 7 and 3 of a next line. *)
Lemma legacy_last_writer_witness :
  Tcl.update false true "7" "5.0" = "7" /\
  Tcl.update false true "3" "5.0" = "3" /\
  Tcl.update false false "7" "5.0" = "7" /\
  Tcl.update false false "3" "5.0" = "5.0".
Proof.
  destruct (legacy_last_writer "7" "5.0") as (A & B & _).
  destruct (legacy_last_writer "3" "5.0") as (C & _ & H).
  destruct (H (of_Z 3) (of_Z 5)) as (_ & _ & D & _);
    [vm_compute; reflexivity..|].
  split; [exact A|]. split; [exact C|]. split; [exact B|].
  apply D. vm_compute. reflexivity.
Defined.

(** C8 as stated fails on a tie: with "5.0" stored, the value "5" of a
    later line is neither smaller nor larger, and the stored text stays
    "5.0" in minimum mode (the tie does not overwrite) and in maximum
    mode (the write is rejected although 5 is not strictly smaller). *)
Lemma legacy_tie_counterexample :
  Tcl.expr_lt "5" "5.0" = false /\ Tcl.expr_gt "5" "5.0" = false /\
  Tcl.update false true "5" "5.0" = "5.0" /\
  Tcl.update false false "5" "5.0" = "5.0" /\
  "5.0" <> "5".
Proof.
  split; [vm_compute; reflexivity|]. split; [vm_compute; reflexivity|].
  split; [vm_compute; reflexivity|]. split; [vm_compute; reflexivity|].
  discriminate.
Qed.

(** ** Exact results of the rounding step *)

Section Exact.

Lemma iter_xO_Z (m d : positive) :
  Zpos (Pos.iter xO m d) = Zpos m * 2 ^ Zpos d.
Proof.
  induction d as [|d IH] using Pos.peano_ind.
  - simpl. lia.
  - rewrite Pos.iter_succ, Pos2Z.inj_xO, IH, Pos2Z.inj_succ.
    rewrite Z.pow_succ_r by lia. ring.
Qed.

Lemma binary_round_aux_exact (s : bool) (m : positive) (e : Z) :
  canonical_mantissa prec emax m e = true -> e <= emax - prec ->
  binary_round_aux prec emax s (Zpos m) e loc_Exact = S754_finite s m e.
Proof.
  unfold canonical_mantissa. intros C L. apply Z.eqb_eq in C.
  unfold binary_round_aux, shr_fexp. simpl Zdigits2.
  rewrite C, Z.sub_diag. simpl. rewrite C, Z.sub_diag. simpl.
  apply Z.leb_le in L. rewrite L. reflexivity.
Qed.

(** A mantissa that fits and an exponent in range: the value is only
    brought to canonical form. *)
Lemma binary_round_exact (s : bool) (m : positive) (e : Z) :
  fexp prec emax (Zpos (digits2_pos m) + e) <= e ->
  fexp prec emax (Zpos (digits2_pos m) + e) <= emax - prec ->
  binary_round prec emax s m e
  = S754_finite s
      (Z.to_pos (Zpos m * 2 ^ (e - fexp prec emax (Zpos (digits2_pos m) + e))))
      (fexp prec emax (Zpos (digits2_pos m) + e)).
Proof.
  intros H1 H2. unfold binary_round, shl_align.
  set (t := fexp prec emax (Zpos (digits2_pos m) + e)) in *.
  destruct (t - e) as [|d|d] eqn:E; try lia.
  - assert (t = e) as Ht by lia. rewrite Ht, Z.sub_diag, Z.mul_1_r. simpl Z.to_pos.
    apply binary_round_aux_exact; [|lia].
    unfold canonical_mantissa. fold t. apply Z.eqb_eq. exact Ht.
  - assert (Ed : e - t = Zpos d) by lia.
    rewrite Ed, <- iter_xO_Z. simpl Z.to_pos.
    apply binary_round_aux_exact; [|lia].
    unfold canonical_mantissa. apply Z.eqb_eq.
    rewrite digits2_iter_xO.
    replace (Zpos (digits2_pos m) + Zpos d + t) with (Zpos (digits2_pos m) + e) by lia.
    reflexivity.
Qed.

Lemma fexp_normal (x : Z) : -1021 <= x -> fexp prec emax x = x - 53.
Proof. unfold fexp, emin, prec, emax. lia. Qed.

(** The doubles [k] and [k + 1/2] for [1 <= k < 2^52], with
    [s = 51 - log2 k] the number of low zero bits of the mantissa of
    [k + 1/2]. *)
Lemma log2_below_52 (p : positive) :
  Zpos p < 2 ^ 52 -> 0 <= Z.log2 (Zpos p) <= 51.
Proof.
  intros H. split; [apply Z.log2_nonneg|].
  apply Z.log2_lt_pow2 in H; lia.
Qed.

Lemma of_Z_pos (p : positive) :
  Zpos p < 2 ^ 52 ->
  of_Z (Zpos p)
  = S754_finite false (Z.to_pos (Zpos p * 2 ^ (52 - Z.log2 (Zpos p))))
      (Z.log2 (Zpos p) - 52).
Proof.
  intros H. pose proof (log2_below_52 p H) as L.
  unfold of_Z, binary_normalize.
  rewrite binary_round_exact; rewrite digits2_log2, fexp_normal by lia;
    unfold emax, prec; try lia.
  f_equal; [f_equal; f_equal; f_equal|]; lia.
Qed.

Lemma half_way_pos (p : positive) :
  Zpos p < 2 ^ 52 ->
  half_way (Zpos p)
  = S754_finite false
      (Z.to_pos ((2 * Zpos p + 1) * 2 ^ (51 - Z.log2 (Zpos p))))
      (Z.log2 (Zpos p) - 52).
Proof.
  intros H. pose proof (log2_below_52 p H) as L.
  unfold half_way. change (2 * Zpos p + 1) with (Zpos p~1). unfold of_binary.
  assert (D : Zpos (digits2_pos p~1) = Z.log2 (Zpos p) + 2).
  { simpl digits2_pos. rewrite Pos2Z.inj_succ, digits2_log2. lia. }
  rewrite binary_round_exact; rewrite D, fexp_normal by lia;
    unfold emax, prec; try lia.
  f_equal; [f_equal; f_equal; f_equal|]; lia.
Qed.

End Exact.

(** ** Ties between two nodes *)

Section Ties.

Variable p : positive.
Hypothesis Hp : Zpos p < 2 ^ 52.

Let L := Z.log2 (Zpos p).
Let P := 2 ^ (51 - L).

Local Lemma L_range : 0 <= L <= 51.
Proof. apply log2_below_52, Hp. Qed.

Local Lemma P_pos : 0 < P.
Proof. apply Z.pow_pos_nonneg; pose proof L_range; lia. Qed.

Local Lemma pow_52_L : 2 ^ (52 - L) = 2 * P.
Proof.
  unfold P. pose proof L_range.
  replace (52 - L) with (Z.succ (51 - L)) by lia.
  apply Z.pow_succ_r. lia.
Qed.


Lemma floor_half_way_pos : floor (half_way (Zpos p)) = of_Z (Zpos p).
Proof.
  pose proof L_range as HL. pose proof P_pos as HP. pose proof pow_52_L as E2.
  unfold floor, floor_finite. rewrite (half_way_pos p Hp).
  fold L. fold P.
  destruct (Z.leb_spec 0 (L - 52)) as [|_]; [lia|].
  rewrite Z2Pos.id by nia.
  replace (- (L - 52)) with (52 - L) by lia.
  rewrite Z.shiftr_div_pow2 by lia. rewrite E2.
  assert (Q : (2 * Zpos p + 1) * P / (2 * P) = Zpos p).
  { symmetry. apply Z.div_unique with P; lia. }
  rewrite Q. reflexivity.
Qed.

Lemma cast_ll_of_Z_pos : cast_ll (of_Z (Zpos p)) = Zpos p.
Proof.
  pose proof L_range as HL. pose proof P_pos as HP. pose proof pow_52_L as E2.
  unfold cast_ll, truncate. rewrite (of_Z_pos p Hp).
  fold L. rewrite E2.
  destruct (Z.leb_spec 0 (L - 52)) as [|_]; [lia|].
  rewrite Z2Pos.id by nia.
  replace (- (L - 52)) with (52 - L) by lia.
  rewrite Z.shiftr_div_pow2 by lia. rewrite E2.
  rewrite Z.div_mul by lia.
  unfold to_ll, LLONG_MIN, LLONG_MAX.
  change (2 ^ 63) with 9223372036854775808.
  change (2 ^ 52) with 4503599627370496 in Hp.
  destruct (Z.leb_spec (- 9223372036854775808) (Zpos p)); [|lia].
  destruct (Z.leb_spec (Zpos p) (9223372036854775808 - 1)); [|lia].
  reflexivity.
Qed.


End Ties.

Section TiesAll.

Variable k : Z.
Hypothesis Hk : 0 <= k < 2 ^ 52.




Lemma cast_ll_of_Z : cast_ll (of_Z k) = k.
Proof.
  destruct k as [|p|p]; [reflexivity| |lia].
  apply cast_ll_of_Z_pos. lia.
Qed.

End TiesAll.





(* ================================================================= *)
(** * Part III: further properties of the code *)
(* ================================================================= *)

(** ** Clamping is saturation *)

Lemma clamp_saturates (n v : Z) :
  1 <= n <= SIZE_MAX -> LLONG_MIN <= v <= LLONG_MAX ->
  clamp n v = Z.max 0 (Z.min (n - 1) v).
Proof.
  unfold clamp, u64, s64, SIZE_MAX, LLONG_MIN, LLONG_MAX.
  change (2 ^ 64)%Z with 18446744073709551616%Z.
  change (2 ^ 63)%Z with 9223372036854775808%Z.
  intros Hn Hv. destruct (Z.ltb_spec v 0); [lia|].
  rewrite (Z.mod_small v) by lia.
  destruct (Z.leb_spec n v); [|lia].
  rewrite Z.mod_small by lia. lia.
Qed.

(** X1.  On the lattice of a run, under either snapping mode, the cell
    of a point is the pair of [long long] indices the conversion
    delivered, each saturated to its axis: [max 0 (min (n - 1) i)].  The
    unsigned comparison and the signed cast of the source change nothing
    to that, also for lattices wider than [LLONG_MAX]. *)
Theorem mapped_index_saturates (opt : Options) (nx ny : Z) (x y : double) :
  grid_dims opt = Done (nx, ny) ->
  LLONG_MIN <= fst (raw_index opt x y) <= LLONG_MAX /\
  LLONG_MIN <= snd (raw_index opt x y) <= LLONG_MAX /\
  map_point opt nx ny x y
  = (Z.max 0 (Z.min (nx - 1) (fst (raw_index opt x y))),
     Z.max 0 (Z.min (ny - 1) (snd (raw_index opt x y)))).
Proof.
  intros G. apply grid_dims_ok in G. destruct G as [Hx Hy].
  assert (R : LLONG_MIN <= fst (raw_index opt x y) <= LLONG_MAX /\
              LLONG_MIN <= snd (raw_index opt x y) <= LLONG_MAX).
  { unfold raw_index. destruct (negb (tcl_round opt)); simpl;
      split; apply to_ll_range. }
  destruct R as [Rx Ry]. split; [exact Rx|]. split; [exact Ry|].
  rewrite <- (clamp_saturates nx _ Hx Rx), <- (clamp_saturates ny _ Hy Ry).
  unfold map_point, raw_index. destruct (negb (tcl_round opt)); reflexivity.
Qed.

(** The point (7.3, -4.2) on the test lattice: raw indices (7, -4). *)
Lemma mapped_index_saturates_witness :
  map_point test_options 3 3 (of_decimal false 73 (-1)) (of_decimal true 42 (-1))
  = (2, 0) /\
  raw_index test_options (of_decimal false 73 (-1)) (of_decimal true 42 (-1))
  = (7, -4).
Proof.
  destruct (mapped_index_saturates test_options 3 3
              (of_decimal false 73 (-1)) (of_decimal true 42 (-1)))
    as (_ & _ & H); [vm_compute; reflexivity|].
  split; [rewrite H|]; vm_compute; reflexivity.
Defined.

(** ** The overflow check of the cell count *)

(** X2.  [safe_mul_size_t] returns the exact product when it fits
    [size_t] and dies otherwise: it never returns a wrapped product. *)
Theorem safe_mul_size_t_exact (a b : Z) :
  0 <= a <= SIZE_MAX -> 0 <= b <= SIZE_MAX ->
  (a * b <= SIZE_MAX -> safe_mul_size_t a b = Done (a * b)) /\
  (SIZE_MAX < a * b ->
   safe_mul_size_t a b = Exit EXIT_FAILURE "Grid size too large (overflow)").
Proof.
  intros Ha Hb. unfold safe_mul_size_t.
  destruct (Z.eqb_spec a 0) as [->|Na]; simpl.
  { split; [reflexivity|]. unfold SIZE_MAX. lia. }
  destruct (Z.eqb_spec b 0) as [->|Nb]; simpl.
  { rewrite Z.mul_0_r. split; [reflexivity|]. unfold SIZE_MAX. lia. }
  assert (Hdiv : SIZE_MAX / b < a <-> SIZE_MAX < a * b).
  { pose proof (Z.div_mod SIZE_MAX b Nb) as D.
    pose proof (Z.mod_pos_bound SIZE_MAX b ltac:(lia)) as M.
    split; intros H.
    - nia.
    - apply Z.div_lt_upper_bound; lia. }
  destruct (Z.ltb_spec (SIZE_MAX / b) a) as [L|L]; split; intros H;
    try reflexivity; lia.
Qed.

Lemma safe_mul_size_t_exact_witness :
  safe_mul_size_t 3 3 = Done 9 /\
  safe_mul_size_t (2 ^ 33) (2 ^ 33)
  = Exit EXIT_FAILURE "Grid size too large (overflow)".
Proof.
  assert (R : forall n, 0 <= n <= 2 ^ 33 -> 0 <= n <= SIZE_MAX)
    by (unfold SIZE_MAX; intros n; change (2 ^ 33) with 8589934592;
        change (2 ^ 64) with 18446744073709551616; lia).
  destruct (safe_mul_size_t_exact 3 3) as [A _]; [apply R; vm_compute; split; discriminate..|].
  destruct (safe_mul_size_t_exact (2 ^ 33) (2 ^ 33)) as [_ B];
    [apply R; vm_compute; split; discriminate..|].
  split; [apply A|apply B]; vm_compute; [discriminate|reflexivity].
Defined.

(** ** Array accesses *)

(** X3.  Memory safety of the two arrays.  For a run that reaches the
    input loop, the arrays have [ncell >= 1] elements before and after
    any number of lines, every line that is aggregated reads and writes
    them at an index below [ncell], and so does the output loop for
    every cell of the lattice. *)
Theorem array_accesses_in_bounds (opt : Options) (nx ny ncell : Z)
        (log : list message) (ls : list string) :
  grid_dims opt = Done (nx, ny) -> safe_mul_size_t nx ny = Done ncell ->
  let st := process_lines opt nx ny (initial_state (find_min opt) ncell log) ls in
  1 <= ncell <= SIZE_MAX /\
  length (grid st) = Z.to_nat ncell /\ length (hit st) = Z.to_nat ncell /\
  (forall (line : string) (i : nat) (z : double),
     route opt nx ny line = Some (i, z) -> (i < Z.to_nat ncell)%nat) /\
  (forall ix iy : Z, 0 <= ix < nx -> 0 <= iy < ny ->
     (Z.to_nat (u64 (ix + u64 (nx * iy))) < Z.to_nat ncell)%nat).
Proof.
  intros G M st.
  destruct (lattice_ok opt nx ny ncell G M) as (Hx & Hy & -> & Hn).
  destruct (process_lines_cells opt nx ny log ls Hx Hy Hn) as (Lg & Lh & _).
  split; [nia|]. split; [exact Lg|]. split; [exact Lh|]. split.
  - intros line i z R. eapply route_in_range; eauto.
  - intros ix iy Hix Hiy.
    assert (nx <= SIZE_MAX /\ ny <= SIZE_MAX) as [Mx My]
      by (unfold SIZE_MAX in *; nia).
    destruct (cell_idx_range nx ny (ix, iy) Hn Hix Hiy) as [E R].
    unfold cell_idx in E, R. cbv zeta in E, R. simpl fst in E, R. simpl snd in E, R.
    rewrite (u64_small ix), (u64_small iy) in R by lia. lia.
Qed.

Lemma array_accesses_in_bounds_witness :
  length (grid (process_lines test_options 3 3 (initial_state true 9 [])
                  (map c_str (fgets_all (Z.to_nat 16384) testdata_small))))
  = 9%nat.
Proof.
  destruct (array_accesses_in_bounds test_options 3 3 9 []
              (map c_str (fgets_all (Z.to_nat 16384) testdata_small)))
    as (_ & L & _); [vm_compute; reflexivity..|].
  exact L.
Defined.

(** ** What [parse_args] returns *)

Section ParseArgs.

Let inc_ok (opt : Options) : Prop := le (inc opt) zero = false.

Lemma take_inc_ok (opt opt' : Options) (val : string) :
  take_inc opt val = Done opt' -> inc_ok opt'.
Proof.
  unfold take_inc, inc_ok.
  destruct (parse_double_arg val) as [v|]; [|discriminate].
  destruct (le v zero) eqn:E; [discriminate|].
  intros [= <-]. exact E.
Qed.

Lemma parse_loop_inc_ok (n : nat) :
  forall (args : list string) (opt opt' : Options),
    (length args <= n)%nat -> inc_ok opt ->
    parse_loop args opt = Done opt' -> inc_ok opt'.
Proof.
  induction n as [|n IH]; intros args opt opt' Hlen Hinc.
  - destruct args; [|simpl in Hlen; lia]. intros [= <-]. exact Hinc.
  - destruct args as [|a rest]; [intros [= <-]; exact Hinc|].
    simpl in Hlen. simpl parse_loop.
    destruct (String.eqb a "-h" || String.eqb a "--help"); [discriminate|].
    destruct (String.prefix "-R" a || String.prefix "R" a).
    { destruct (parse_region a) as [[[[x0 x1] y0] y1]|]; [|discriminate].
      apply IH; [lia|exact Hinc]. }
    destruct (String.eqb a "-I" || String.prefix "-I" a).
    { destruct (String.substring 2 (String.length a - 2) a) as [|c val].
      - destruct rest as [|val rest']; [discriminate|].
        destruct (take_inc opt val) as [o| |] eqn:T; try discriminate.
        simpl. apply IH; [simpl in Hlen; lia|]. eapply take_inc_ok, T.
      - destruct (take_inc opt (String c val)) as [o| |] eqn:T; try discriminate.
        simpl. apply IH; [lia|]. eapply take_inc_ok, T. }
    destruct (String.eqb a "-PATH" || String.eqb a "-path").
    { destruct rest as [|p rest']; [discriminate|].
      apply IH; [simpl in Hlen; lia|exact Hinc]. }
    destruct (String.eqb a "-MAX"); [apply IH; [lia|exact Hinc]|].
    destruct (String.eqb a "-o").
    { destruct rest as [|o rest']; [discriminate|].
      apply IH; [simpl in Hlen; lia|exact Hinc]. }
    destruct (String.eqb a "--tclround"); [apply IH; [lia|exact Hinc]|].
    destruct (String.prefix "-" a); [discriminate|].
    destruct (path opt); [discriminate|].
    apply IH; [lia|exact Hinc].
Qed.

End ParseArgs.

(** X4.  Options that [parse_args] returns are validated: the region has
    [xmax > xmin] and [ymax > ymin] (so no bound is a NaN), an input path
    and an output path are set, and the increment is not [<= 0] (the
    default 1, or a value of [-I] that passed the check; a NaN passes
    it). *)
Theorem parse_args_validated (argv : list string) (opt : Options) :
  parse_args argv = Done opt ->
  gt (xmax opt) (xmin opt) = true /\ gt (ymax opt) (ymin opt) = true /\
  is_nan (xmin opt) = false /\ is_nan (xmax opt) = false /\
  is_nan (ymin opt) = false /\ is_nan (ymax opt) = false /\
  le (inc opt) zero = false /\
  (exists p : string, path opt = Some p) /\
  (exists o : string, out opt = Some o).
Proof.
  unfold parse_args.
  destruct (parse_loop (tail argv) default_options) as [o| |] eqn:L;
    try discriminate.
  simpl. assert (I0 : le (inc default_options) zero = false) by (vm_compute; reflexivity).
  pose proof (parse_loop_inc_ok (length (tail argv)) (tail argv) default_options o
                (le_n _) I0 L) as I.
  destruct (path o) as [p|] eqn:P; [|discriminate].
  destruct (gt (xmax o) (xmin o)) eqn:Gx; [|discriminate].
  destruct (gt (ymax o) (ymin o)) eqn:Gy; [|discriminate].
  simpl.
  assert (N : is_nan (xmin o) = false /\ is_nan (xmax o) = false /\
              is_nan (ymin o) = false /\ is_nan (ymax o) = false).
  { apply lt_iff in Gx, Gy. tauto. }
  destruct (out o) as [ou|] eqn:O; intros [= <-]; simpl;
    rewrite ?Gx, ?Gy, ?P, ?O; repeat split; try tauto; eauto.
Qed.

Lemma parse_args_validated_witness :
  gt (xmax test_options) (xmin test_options) = true /\
  le (inc test_options) zero = false.
Proof.
  destruct (parse_args_validated
              ["blockminmax"; "-R0/2/0/2"; "-I1"; "-PATH"; "testdata_small.xyz";
               "-o"; "out_default.min"] test_options)
    as (A & _ & _ & _ & _ & _ & B & _); [vm_compute; reflexivity|].
  split; assumption.
Defined.

(** ** A whole run *)

Section WholeRun.

(** What a run that returns from [main] went through. *)
Lemma main_done (w : world) (argv : list string) (res : result) :
  main w argv = Done res ->
  exists (opt : Options) (nx ny ncell : Z) (content : string),
    parse_args argv = Done opt /\ grid_dims opt = Done (nx, ny) /\
    safe_mul_size_t nx ny = Done ncell /\
    read_file w (default "" (path opt)) = Some content /\
    res_out res = default "" (out opt) /\
    res_rows res
    = write_results opt nx ny
        (process_lines opt nx ny
           (initial_state (find_min opt) ncell (start_log opt nx ny))
           (map c_str (fgets_all (Z.to_nat 16384) content))).
Proof.
  unfold main.
  destruct (parse_args argv) as [opt| |] eqn:PA; try discriminate. simpl.
  destruct (grid_dims opt) as [[nx ny]| |] eqn:G; try discriminate. simpl.
  destruct (safe_mul_size_t nx ny) as [ncell| |] eqn:M; try discriminate. simpl.
  destruct (negb (can_alloc w (u64 (ncell * 8)))); [discriminate|].
  destruct (negb (can_alloc w ncell)); [discriminate|].
  destruct (u64 (ncell * 8) <? ncell * 8)%Z; [discriminate|].
  destruct (read_file w (default "" (path opt))) as [content|] eqn:RF;
    [|discriminate].
  destruct (negb (can_write w (default "" (out opt)))); [discriminate|].
  intros [= <-]. exists opt, nx, ny, ncell, content. simpl.
  repeat split; reflexivity || assumption.
Qed.

Lemma le_antisym_eqb (a b : double) :
  le a b = true -> le b a = true -> SFeqb a b = true.
Proof.
  intros H1 H2. apply le_not_gt in H1, H2.
  destruct H1 as (Ha & Hb & L1), H2 as (_ & _ & L2).
  apply tie_eqb; assumption.
Qed.

Lemma bounds_antisym_eqb (min : bool) (a b : double) :
  bounds min a b = true -> bounds min b a = true -> SFeqb a b = true.
Proof.
  destruct min; simpl; unfold ge; intros H1 H2.
  - apply le_antisym_eqb; assumption.
  - apply le_antisym_eqb; assumption.
Qed.

End WholeRun.

(** X5.  The output of a run that returns from [main].  Every row
    written is the row of a cell [(ix, iy)] of the lattice, carries the
    node coordinates [xmin + ix * inc], [ymin + iy * inc], and its z is
    the z of an input line routed to that cell: the initial sentinels
    are never written.  Conversely every cell to which a line was routed
    has its row. *)
Theorem output_rows_are_the_hit_cells (w : world) (argv : list string) (res : result) :
  main w argv = Done res ->
  exists (opt : Options) (nx ny : Z) (content : string),
    parse_args argv = Done opt /\ grid_dims opt = Done (nx, ny) /\
    read_file w (default "" (path opt)) = Some content /\
    let ls := map c_str (fgets_all (Z.to_nat 16384) content) in
    (forall gx gy gz : double,
       In (gx, gy, gz) (res_rows res) ->
       exists ix iy : Z,
         0 <= ix < nx /\ 0 <= iy < ny /\
         gx = add (xmin opt) (mul (of_Z ix) (inc opt)) /\
         gy = add (ymin opt) (mul (of_Z iy) (inc opt)) /\
         In gz (routed opt nx ny (Z.to_nat (ix + nx * iy)) ls)) /\
    (forall ix iy : Z,
       0 <= ix < nx -> 0 <= iy < ny ->
       routed opt nx ny (Z.to_nat (ix + nx * iy)) ls <> [] ->
       exists gz : double,
         In (add (xmin opt) (mul (of_Z ix) (inc opt)),
             add (ymin opt) (mul (of_Z iy) (inc opt)), gz) (res_rows res)).
Proof.
  intros Hm.
  destruct (main_done w argv res Hm)
    as (opt & nx & ny & ncell & content & PA & G & M & RF & _ & Rows).
  exists opt, nx, ny, content. split; [exact PA|]. split; [exact G|].
  split; [exact RF|]. intros ls.
  destruct (lattice_ok opt nx ny ncell G M) as (Hx & Hy & -> & Hn).
  destruct (process_lines_cells opt nx ny (start_log opt nx ny) ls Hx Hy Hn)
    as (Lg & Lh & C).
  fold ls in Rows. set (st := process_lines opt nx ny _ ls) in *.
  assert (nx <= SIZE_MAX /\ ny <= SIZE_MAX) as [Mx My]
    by (unfold SIZE_MAX in *; nia).
  assert (Idx : forall ix iy : Z, 0 <= ix < nx -> 0 <= iy < ny ->
            u64 (ix + u64 (nx * iy)) = ix + nx * iy /\
            (Z.to_nat (ix + nx * iy) < Z.to_nat (nx * ny))%nat).
  { intros ix iy Hix Hiy.
    destruct (cell_idx_range nx ny (ix, iy) Hn Hix Hiy) as [E R].
    unfold cell_idx in E, R. cbv zeta in E, R. simpl fst in E, R. simpl snd in E, R.
    rewrite (u64_small ix), (u64_small iy) in E, R by lia. split; [exact E|lia]. }
  split.
  - intros gx gy gz Hin. rewrite Rows in Hin. unfold write_results in Hin.
    apply in_flat_map in Hin. destruct Hin as (iy & Hiy & Hin).
    apply in_flat_map in Hin. destruct Hin as (ix & Hix & Hin).
    apply list_elem_of_In, elem_of_seqZ in Hiy, Hix.
    destruct (Idx ix iy ltac:(lia) ltac:(lia)) as [E Hi].
    rewrite E in Hin.
    destruct (C _ Hi) as [C0 C1].
    destruct (hit st !! Z.to_nat (ix + nx * iy)) as [[]|] eqn:Hh;
      simpl in Hin; try contradiction.
    destruct Hin as [Hin|[]]. injection Hin as <- <- <-.
    exists ix, iy. split; [lia|]. split; [lia|]. split; [reflexivity|].
    split; [reflexivity|].
    destruct (routed opt nx ny (Z.to_nat (ix + nx * iy)) ls) as [|z0 zs] eqn:R.
    { specialize (C0 eq_refl). discriminate. }
    destruct C1 as (_ & v & Hv & Hvin & _); [discriminate|].
    rewrite Hv. exact Hvin.
  - intros ix iy Hix Hiy Hr.
    destruct (Idx ix iy Hix Hiy) as [E Hi].
    destruct (C _ Hi) as [_ C1]. destruct (C1 Hr) as (Hh & v & Hv & _).
    exists v. rewrite Rows.
    apply (write_results_row opt nx ny st (ix, iy) v Mx My Hix Hiy).
    + unfold cell_idx. cbv zeta. simpl fst. simpl snd.
      rewrite (u64_small ix), (u64_small iy), E by lia. exact Hh.
    + unfold cell_idx. cbv zeta. simpl fst. simpl snd.
      rewrite (u64_small ix), (u64_small iy), E by lia. exact Hv.
Qed.

(** The first run of the test script. *)
Lemma output_rows_are_the_hit_cells_witness :
  exists (opt : Options) (nx ny : Z) (content : string),
    parse_args test_argv = Done opt /\ grid_dims opt = Done (nx, ny) /\
    read_file test_world (default "" (path opt)) = Some content.
Proof.
  destruct (output_rows_are_the_hit_cells test_world test_argv test_result)
    as (opt & nx & ny & content & PA & G & RF & _); [vm_compute; reflexivity|].
  exists opt, nx, ny, content. auto.
Defined.

(** ** The order of the input lines *)

(** X6.  Reordering the input lines changes neither which cells are hit
    nor, for a cell to which no NaN was routed, the value it ends with:
    the two values compare equal (they can differ as doubles only by the
    sign of a zero). *)
Theorem line_order_is_irrelevant (opt : Options) (nx ny ncell : Z)
        (log log' : list message) (ls ls' : list string) (i : nat) :
  grid_dims opt = Done (nx, ny) -> safe_mul_size_t nx ny = Done ncell ->
  Permutation ls ls' ->
  let st := process_lines opt nx ny (initial_state (find_min opt) ncell log) ls in
  let st' := process_lines opt nx ny (initial_state (find_min opt) ncell log') ls' in
  hit st !! i = hit st' !! i /\
  (Forall (fun z => is_nan z = false) (routed opt nx ny i ls) ->
   forall v v' : double,
     hit st !! i = Some true ->
     grid st !! i = Some v -> grid st' !! i = Some v' -> SFeqb v v' = true).
Proof.
  intros G M Hp st st'.
  destruct (lattice_ok opt nx ny ncell G M) as (Hx & Hy & -> & Hn).
  destruct (process_lines_cells opt nx ny log ls Hx Hy Hn) as (Lg & Lh & C).
  destruct (process_lines_cells opt nx ny log' ls' Hx Hy Hn) as (Lg' & Lh' & C').
  fold st in Lg, Lh, C. fold st' in Lg', Lh', C'.
  assert (Pr : Permutation (routed opt nx ny i ls) (routed opt nx ny i ls'))
    by (unfold routed; apply Permutation_flat_map, Hp).
  destruct (Nat.lt_ge_cases i (Z.to_nat (nx * ny))) as [Hi|Hi].
  2:{ split.
      - rewrite (proj2 (lookup_ge_None (hit st) i)),
          (proj2 (lookup_ge_None (hit st') i)) by lia. reflexivity.
      - intros _ v v' Hh. apply lookup_lt_Some in Hh. lia. }
  destruct (C i Hi) as [C0 C1], (C' i Hi) as [C0' C1'].
  destruct (routed opt nx ny i ls) as [|z0 zs] eqn:R.
  { apply Permutation_nil in Pr. rewrite Pr in C0'.
    rewrite C0, C0' by reflexivity. split; [reflexivity|].
    intros _ v v' Hh. discriminate. }
  assert (R' : routed opt nx ny i ls' <> []).
  { intros E. rewrite E in Pr. symmetry in Pr. apply Permutation_nil in Pr.
    discriminate. }
  destruct C1 as (Hh & v0 & Hv0 & Hin & Hb); [discriminate|].
  destruct (C1' R') as (Hh' & v0' & Hv0' & Hin' & Hb').
  split; [rewrite Hh, Hh'; reflexivity|].
  intros F v v' _ Hv Hv'.
  rewrite Hv0 in Hv. rewrite Hv0' in Hv'. injection Hv as <-. injection Hv' as <-.
  assert (F' : Forall (fun z => is_nan z = false) (routed opt nx ny i ls')).
  { rewrite Forall_forall in F |- *. intros z Hz. apply F.
    apply list_elem_of_In. apply list_elem_of_In in Hz.
    eapply Permutation_in; [symmetry; exact Pr|exact Hz]. }
  specialize (Hb F). specialize (Hb' F').
  rewrite Forall_forall in Hb, Hb'.
  apply (bounds_antisym_eqb (find_min opt)).
  - apply Hb. apply list_elem_of_In.
    eapply Permutation_in; [symmetry; exact Pr|exact Hin'].
  - apply Hb'. apply list_elem_of_In.
    eapply Permutation_in; [exact Pr|exact Hin].
Qed.

(** The test data read forwards and backwards. *)
Lemma line_order_is_irrelevant_witness :
  let ls := map c_str (fgets_all (Z.to_nat 16384) testdata_small) in
  hit (process_lines test_options 3 3 (initial_state true 9 []) ls) !! 4%nat
  = hit (process_lines test_options 3 3 (initial_state true 9 []) (rev ls)) !! 4%nat.
Proof.
  intros ls.
  apply (line_order_is_irrelevant test_options 3 3 9 [] [] ls (rev ls) 4%nat).
  - vm_compute; reflexivity.
  - vm_compute; reflexivity.
  - apply Permutation_rev.
Defined.

(** ** The progress counters *)

Section Counters.

Lemma count_line_counters (st : state) (g : list double) (h : list bool) (n : Z)
      (log : list message) :
  0 <= n ->
  lines st = n mod 1000000 -> Mlines st = u64 (n / 1000000) ->
  stderr st = (log ++ map (fun k => MsgProgress (u64 k)) (seqZ 1 (n / 1000000)))%list ->
  lines (count_line st g h) = (n + 1) mod 1000000 /\
  Mlines (count_line st g h) = u64 ((n + 1) / 1000000) /\
  stderr (count_line st g h)
  = (log ++ map (fun k => MsgProgress (u64 k)) (seqZ 1 ((n + 1) / 1000000)))%list.
Proof.
  intros Hn Hl Hm Hs. unfold count_line.
  pose proof (Z.mod_pos_bound n 1000000 ltac:(lia)) as B.
  pose proof (Z.div_mod n 1000000 ltac:(lia)) as D.
  assert (Q : 0 <= n / 1000000) by (apply Z.div_pos; lia).
  rewrite Hl, (u64_small (n mod 1000000 + 1)) by (unfold SIZE_MAX; lia).
  destruct (Z.eqb_spec (n mod 1000000 + 1) 1000000) as [E|E]; simpl.
  - assert (Dv : (n + 1) / 1000000 = n / 1000000 + 1)
      by (symmetry; apply Z.div_unique with 0; lia).
    assert (Md : (n + 1) mod 1000000 = 0)
      by (symmetry; apply Z.mod_unique with (n / 1000000 + 1); lia).
    rewrite Dv, Md, Hm, Hs. unfold u64. rewrite Zplus_mod_idemp_l.
    split; [reflexivity|]. split; [reflexivity|].
    rewrite seqZ_app by lia. rewrite map_app, app_assoc. simpl.
    rewrite Z.add_comm. reflexivity.
  - assert (Dv : (n + 1) / 1000000 = n / 1000000)
      by (symmetry; apply Z.div_unique with (n mod 1000000 + 1); lia).
    assert (Md : (n + 1) mod 1000000 = n mod 1000000 + 1)
      by (symmetry; apply Z.mod_unique with (n / 1000000); lia).
    rewrite Dv, Md. auto.
Qed.

End Counters.

(** X7.  The progress report counts aggregated lines only.  After any
    input, with [n] the number of lines that were aggregated (skipped
    lines are not counted), [lines] is [n mod 1000000], [Mlines] is
    [n / 1000000] (as a [size_t]), and stderr has received one progress
    line per full million, numbered 1, 2, ... *)
Theorem progress_counts_aggregated_lines (opt : Options) (nx ny ncell : Z)
        (log : list message) (ls : list string) :
  let st := process_lines opt nx ny (initial_state (find_min opt) ncell log) ls in
  let n := aggregated ls in
  lines st = n mod 1000000 /\ Mlines st = u64 (n / 1000000) /\
  stderr st
  = (log ++ map (fun k => MsgProgress (u64 k)) (seqZ 1 (n / 1000000)))%list.
Proof.
  induction ls as [|l ls IH] using rev_ind.
  - simpl. rewrite app_nil_r. auto.
  - cbv zeta in *. rewrite process_lines_snoc.
    unfold aggregated in *. rewrite List.filter_app, length_app, Nat2Z.inj_add.
    set (st := process_lines opt nx ny _ ls) in *.
    set (n := Z.of_nat (length (List.filter is_record ls))) in *.
    destruct IH as (Hl & Hm & Hs).
    simpl List.filter. unfold process_line.
    destruct (parse_line l) as [[[x y] z]|] eqn:P.
    + assert (Ir : is_record l = true) by (unfold is_record; rewrite P; reflexivity).
      rewrite Ir. simpl length. change (Z.of_nat 1) with 1.
      destruct (store _ _ _ _ _) as [g h].
      apply count_line_counters; auto. unfold n. lia.
    + assert (Ir : is_record l = false) by (unfold is_record; rewrite P; reflexivity).
      rewrite Ir. simpl length. rewrite Z.add_0_r. auto.
Qed.

(** ** Exactly representable results *)

Section Representable.

Lemma shr_1_even (k : Z) :
  0 <= k ->
  shr_1 {| shr_m := 2 * k; shr_r := false; shr_s := false |}
  = {| shr_m := k; shr_r := false; shr_s := false |}.
Proof. destruct k as [|q|q]; intros H; try lia; reflexivity. Qed.

Lemma iter_shr_1_exact (p : positive) :
  forall k : Z, 0 <= k ->
    SpecFloat.iter_pos shr_1 p
      {| shr_m := k * 2 ^ Zpos p; shr_r := false; shr_s := false |}
    = {| shr_m := k; shr_r := false; shr_s := false |}.
Proof.
  induction p as [p IH|p IH|]; intros k Hk; cbn [SpecFloat.iter_pos].
  - replace (k * 2 ^ Zpos p~1) with (2 * ((k * 2 ^ Zpos p) * 2 ^ Zpos p)).
    2:{ rewrite (Pos2Z.inj_xI p).
        replace (2 * Zpos p + 1) with (Zpos p + Zpos p + 1) by lia.
        rewrite !Z.pow_add_r, Z.pow_1_r by lia. ring. }
    assert (0 <= 2 ^ Zpos p) by (apply Z.pow_nonneg; lia).
    rewrite shr_1_even by nia. rewrite IH by nia. apply IH, Hk.
  - replace (k * 2 ^ Zpos p~0) with ((k * 2 ^ Zpos p) * 2 ^ Zpos p).
    2:{ rewrite (Pos2Z.inj_xO p).
        replace (2 * Zpos p) with (Zpos p + Zpos p) by lia.
        rewrite Z.pow_add_r by lia. ring. }
    assert (0 <= 2 ^ Zpos p) by (apply Z.pow_nonneg; lia).
    rewrite IH by nia. apply IH, Hk.
  - replace (k * 2 ^ 1) with (2 * k) by (rewrite Z.pow_1_r; ring).
    apply shr_1_even, Hk.
Qed.

Lemma Zdigits2_mul_pow2 (N j : Z) :
  0 < N -> 0 <= j -> Zdigits2 (N * 2 ^ j) = Zdigits2 N + j.
Proof.
  intros HN Hj. assert (0 < 2 ^ j) by (apply Z.pow_pos_nonneg; lia).
  rewrite !Zdigits2_log2 by nia. rewrite Z.log2_mul_pow2 by lia. lia.
Qed.

(** A mantissa with low zero bits to drop. *)
Lemma binary_round_shift (s : bool) (M k n : positive) (e : Z) :
  Zpos M = Zpos k * 2 ^ Zpos n ->
  canonical_mantissa prec emax k (e + Zpos n) = true ->
  e + Zpos n <= emax - prec ->
  binary_round prec emax s M e = S754_finite s k (e + Zpos n).
Proof.
  intros EM C Le. pose proof C as C'. unfold canonical_mantissa in C'.
  apply Z.eqb_eq in C'.
  assert (D : Zpos (digits2_pos M) = Zpos (digits2_pos k) + Zpos n).
  { change (Zdigits2 (Zpos M) = Zdigits2 (Zpos k) + Zpos n).
    rewrite EM. apply Zdigits2_mul_pow2; lia. }
  assert (T : fexp prec emax (Zpos (digits2_pos M) + e) = e + Zpos n).
  { rewrite D.
    replace (Zpos (digits2_pos k) + Zpos n + e)
      with (Zpos (digits2_pos k) + (e + Zpos n)) by lia.
    exact C'. }
  unfold binary_round, shl_align. rewrite T.
  replace (e + Zpos n - e) with (Zpos n) by lia.
  unfold binary_round_aux, shr_fexp. simpl Zdigits2. rewrite T.
  replace (e + Zpos n - e) with (Zpos n) by lia.
  unfold shr. simpl shr_record_of_loc. rewrite EM.
  rewrite iter_shr_1_exact by lia. simpl shr_m. simpl loc_of_shr_record.
  simpl round_nearest_even. simpl Zdigits2. rewrite C', Z.sub_diag.
  simpl. apply Z.leb_le in Le. rewrite Le. reflexivity.
Qed.

(** The double of value [N * 2^E], given at any finer scale. *)
Lemma binary_normalize_canon (N E j : Z) :
  0 < N -> 0 <= j -> Zdigits2 N <= 53 ->
  -1074 <= Zdigits2 N + E - 53 <= 971 ->
  binary_normalize prec emax (N * 2 ^ j) (E - j) false
  = S754_finite false (Z.to_pos (N * 2 ^ (53 - Zdigits2 N)))
      (Zdigits2 N + E - 53).
Proof.
  intros HN Hj Hd Ht.
  assert (P2 : 0 < 2 ^ j) by (apply Z.pow_pos_nonneg; lia).
  destruct (N * 2 ^ j) as [|M|M] eqn:EM; try nia.
  unfold binary_normalize.
  assert (D : Zpos (digits2_pos M) = Zdigits2 N + j).
  { change (Zdigits2 (Zpos M) = Zdigits2 N + j). rewrite <- EM.
    apply Zdigits2_mul_pow2; lia. }
  set (t := Zdigits2 N + E - 53) in *.
  assert (T : fexp prec emax (Zpos (digits2_pos M) + (E - j)) = t).
  { rewrite D. unfold fexp, emin, prec, emax, t. lia. }
  assert (Pk : 0 < 2 ^ (53 - Zdigits2 N)) by (apply Z.pow_pos_nonneg; lia).
  destruct (Z.le_gt_cases t (E - j)) as [Hle|Hgt].
  - rewrite binary_round_exact; rewrite T; unfold emax, prec; try lia.
    f_equal. f_equal. rewrite <- EM, <- Z.mul_assoc, <- Z.pow_add_r by lia.
    f_equal. f_equal. unfold t. lia.
  - destruct (t - (E - j)) as [|n|n] eqn:En; try lia.
    replace t with (E - j + Zpos n) by lia.
    apply binary_round_shift.
    + rewrite Z2Pos.id by nia. rewrite <- EM, <- Z.mul_assoc, <- Z.pow_add_r by lia.
      f_equal. f_equal. unfold t in En. lia.
    + unfold canonical_mantissa. apply Z.eqb_eq.
      change (Zpos (digits2_pos (Z.to_pos (N * 2 ^ (53 - Zdigits2 N)))))
        with (Zdigits2 (Zpos (Z.to_pos (N * 2 ^ (53 - Zdigits2 N))))).
      rewrite Z2Pos.id by nia. rewrite Zdigits2_mul_pow2 by lia.
      unfold fexp, emin, prec, emax. unfold t in *. lia.
    + unfold emax, prec. lia.
Qed.

Lemma shl_align_Z (m : positive) (e ez : Z) :
  ez <= e -> Zpos (fst (shl_align m e ez)) = Zpos m * 2 ^ (e - ez).
Proof.
  intros H. unfold shl_align.
  destruct (ez - e) as [|d|d] eqn:E; try lia; simpl fst.
  - replace (e - ez) with 0 by lia. simpl. lia.
  - rewrite iter_xO_Z. f_equal. f_equal. lia.
Qed.

(** The sum of two positive doubles, from its exact value. *)
Lemma add_exact (m1 m2 : positive) (e1 e2 N E : Z) :
  0 < N -> Zdigits2 N <= 53 -> -1074 <= Zdigits2 N + E - 53 <= 971 ->
  Z.min e1 e2 <= E ->
  Zpos m1 * 2 ^ (e1 - Z.min e1 e2) + Zpos m2 * 2 ^ (e2 - Z.min e1 e2)
    = N * 2 ^ (E - Z.min e1 e2) ->
  add (S754_finite false m1 e1) (S754_finite false m2 e2)
  = S754_finite false (Z.to_pos (N * 2 ^ (53 - Zdigits2 N)))
      (Zdigits2 N + E - 53).
Proof.
  intros HN Hd Ht HE Hsum. unfold add, SFadd, cond_Zopp.
  rewrite !shl_align_Z by lia. rewrite Hsum.
  replace (Z.min e1 e2) with (E - (E - Z.min e1 e2)) at 2 by lia.
  apply binary_normalize_canon; lia.
Qed.

End Representable.

(** ** Whole numbers of steps *)

Section WholeSteps.

Variable p : positive.
Hypothesis Hp : Zpos p < 2 ^ 52.

Lemma Zdigits2_succ_double : Zdigits2 (2 * Zpos p + 1) = Z.log2 (Zpos p) + 2.
Proof.
  rewrite Zdigits2_log2 by lia. rewrite Z.log2_succ_double by lia. lia.
Qed.

Lemma add_of_Z_half : add (of_Z (Zpos p)) half = half_way (Zpos p).
Proof.
  pose proof (log2_below_52 p Hp) as HL.
  pose proof Zdigits2_succ_double as Dg.
  assert (P1 : 0 < 2 ^ (52 - Z.log2 (Zpos p))) by (apply Z.pow_pos_nonneg; lia).
  rewrite (of_Z_pos p Hp), (half_way_pos p Hp). unfold half.
  rewrite (add_exact _ _ _ _ (2 * Zpos p + 1) (-1)); rewrite ?Dg; try lia.
  - f_equal; [|lia]. f_equal. f_equal. f_equal. lia.
  - rewrite Z.min_r by lia. rewrite Z2Pos.id by nia.
    rewrite <- Z.mul_assoc, <- Z.pow_add_r by lia.
    replace (52 - Z.log2 (Zpos p) + (Z.log2 (Zpos p) - 52 - -53)) with 53 by lia.
    replace (-53 - -53) with 0 by lia. replace (-1 - -53) with 52 by lia.
    change (2 ^ 53) with (2 * 2 ^ 52). change (2 ^ 0) with 1.
    change (2 ^ 52) with 4503599627370496. lia.
Qed.

Hypothesis Hp1 : Zpos p + 1 < 2 ^ 52.

Lemma add_of_Z_one : add (of_Z (Zpos p)) one = of_Z (Zpos p + 1).
Proof.
  pose proof (log2_below_52 p Hp) as HL.
  assert (Hq : Zpos (p + 1) < 2 ^ 52) by (rewrite Pos2Z.inj_add; exact Hp1).
  pose proof (log2_below_52 (p + 1) Hq) as HL'.
  assert (P1 : 0 < 2 ^ (52 - Z.log2 (Zpos p))) by (apply Z.pow_pos_nonneg; lia).
  replace (Zpos p + 1) with (Zpos (p + 1)) by (rewrite Pos2Z.inj_add; reflexivity).
  rewrite (of_Z_pos p Hp), (of_Z_pos (p + 1) Hq). unfold one.
  assert (Dg : Zdigits2 (Zpos (p + 1)) = Z.log2 (Zpos (p + 1)) + 1)
    by (apply Zdigits2_log2; lia).
  rewrite (add_exact _ _ _ _ (Zpos (p + 1)) 0); rewrite ?Dg; try lia.
  - f_equal; [|lia]. f_equal. f_equal. f_equal. lia.
  - rewrite Z.min_r by lia. rewrite Z2Pos.id by nia.
    rewrite <- Z.mul_assoc, <- Z.pow_add_r by lia.
    replace (52 - Z.log2 (Zpos p) + (Z.log2 (Zpos p) - 52 - -52)) with 52 by lia.
    replace (-52 - -52) with 0 by lia. replace (0 - -52) with 52 by lia.
    change (2 ^ 0) with 1. change (2 ^ 52) with 4503599627370496.
    rewrite Pos2Z.inj_add. lia.
Qed.

End WholeSteps.

Section WholeStepsAll.

Variable n : Z.
Hypothesis Hn : 0 <= n.
Hypothesis Hn1 : n + 1 < 2 ^ 52.

Lemma steps_plus_one : add (floor (add (of_Z n) half)) one = of_Z (n + 1).
Proof.
  destruct n as [|p|p]; [reflexivity| |lia].
  rewrite add_of_Z_half by lia. rewrite floor_half_way_pos by lia.
  apply add_of_Z_one; lia.
Qed.

Lemma of_Z_succ_ge_one : ge (of_Z (n + 1)) one = true.
Proof.
  unfold ge. apply le_iff.
  destruct (n + 1) as [|q|q] eqn:E; try lia.
  pose proof (log2_below_52 q ltac:(lia)) as HL.
  destruct (Pos.eq_dec q 1%positive) as [->|Q1]; [vm_compute; intuition congruence|].
  assert (L1 : 1 <= Z.log2 (Zpos q)).
  { apply Z.log2_le_pow2; [lia|]. rewrite Z.pow_1_r. lia. }
  rewrite (of_Z_pos q) by lia. split; [reflexivity|]. split; [reflexivity|].
  unfold one, key, key_lt. cbn [fst snd].
  left. right. split; [reflexivity|]. left. lia.
Qed.

Lemma cast_size_of_Z_succ : cast_size (of_Z (n + 1)) = Some (n + 1).
Proof.
  destruct (n + 1) as [|q|q] eqn:E; try lia.
  pose proof (log2_below_52 q ltac:(lia)) as HL.
  assert (P1 : 0 < 2 ^ (52 - Z.log2 (Zpos q))) by (apply Z.pow_pos_nonneg; lia).
  unfold cast_size, truncate. rewrite (of_Z_pos q) by lia.
  destruct (Z.leb_spec 0 (Z.log2 (Zpos q) - 52)) as [|_]; [lia|].
  rewrite Z2Pos.id by nia.
  replace (- (Z.log2 (Zpos q) - 52)) with (52 - Z.log2 (Zpos q)) by lia.
  rewrite Z.shiftr_div_pow2 by lia. rewrite Z.div_mul by lia.
  unfold SIZE_MAX. change (2 ^ 64) with 18446744073709551616.
  change (2 ^ 52) with 4503599627370496 in Hn1.
  destruct (Z.leb_spec 0 (Zpos q)); [|lia].
  destruct (Z.leb_spec (Zpos q) (18446744073709551616 - 1)); [|lia].
  reflexivity.
Qed.

End WholeStepsAll.

(** X8.  A region that spans a whole number of steps.  When the step
    counts [(xmax - xmin) / inc] and [(ymax - ymin) / inc] are computed
    as the integers [n] and [m] (below 2^52 - 1), the lattice has
    [n + 1] columns and [m + 1] rows: the first and the last node sit on
    the region bounds. *)
Theorem grid_dims_whole_steps (opt : Options) (n m : Z) :
  0 <= n -> n + 1 < 2 ^ 52 -> 0 <= m -> m + 1 < 2 ^ 52 ->
  div (sub (xmax opt) (xmin opt)) (inc opt) = of_Z n ->
  div (sub (ymax opt) (ymin opt)) (inc opt) = of_Z m ->
  grid_dims opt = Done (n + 1, m + 1).
Proof.
  intros Hn Hn1 Hm Hm1 Qx Qy. unfold grid_dims. rewrite Qx, Qy.
  rewrite (steps_plus_one n Hn Hn1), (steps_plus_one m Hm Hm1).
  rewrite (of_Z_succ_ge_one n Hn Hn1), (of_Z_succ_ge_one m Hm Hm1).
  cbn [negb andb].
  rewrite (cast_size_of_Z_succ n Hn Hn1), (cast_size_of_Z_succ m Hm Hm1).
  reflexivity.
Qed.

(** The region of the long example of the README with spacing 0.5: 3408
    steps along x and 6612 along y. *)
Lemma grid_dims_whole_steps_witness :
  exists opt : Options,
    parse_args ["blockminmax"; "-R1585520.5/1587224.5/5464422.5/5467728.5";
                "-I0.5"; "-PATH"; "spittals.xyz.bm"] = Done opt /\
    grid_dims opt = Done (3409, 6613).
Proof.
  eexists. split; [vm_compute; reflexivity|].
  apply (grid_dims_whole_steps _ 3408 6612);
    try (change (2 ^ 52) with 4503599627370496; lia);
    vm_compute; reflexivity.
Defined.

(** ** Points on a node *)

Section OnNode.

Variable p : positive.
Hypothesis Hp : Zpos p < 2 ^ 52.

Lemma of_Z_pos_div :
  Z.shiftr (Zpos p * 2 ^ (52 - Z.log2 (Zpos p))) (52 - Z.log2 (Zpos p)) = Zpos p.
Proof.
  pose proof (log2_below_52 p Hp) as HL.
  assert (P1 : 0 < 2 ^ (52 - Z.log2 (Zpos p))) by (apply Z.pow_pos_nonneg; lia).
  rewrite Z.shiftr_div_pow2 by lia. apply Z.div_mul. lia.
Qed.

Lemma llround_of_Z_pos : llround (of_Z (Zpos p)) = Zpos p.
Proof.
  pose proof (log2_below_52 p Hp) as HL.
  assert (P1 : 0 < 2 ^ (52 - Z.log2 (Zpos p))) by (apply Z.pow_pos_nonneg; lia).
  unfold llround, round_half_away. rewrite (of_Z_pos p Hp).
  destruct (Z.leb_spec 0 (Z.log2 (Zpos p) - 52)) as [|_]; [lia|].
  rewrite Z2Pos.id by nia.
  replace (- (Z.log2 (Zpos p) - 52)) with (52 - Z.log2 (Zpos p)) by lia.
  rewrite of_Z_pos_div. rewrite Z.shiftl_mul_pow2 by lia.
  destruct (Z.leb_spec (2 ^ (52 - Z.log2 (Zpos p)))
              (2 * (Zpos p * 2 ^ (52 - Z.log2 (Zpos p))
                    - Zpos p * 2 ^ (52 - Z.log2 (Zpos p))))) as [H|_]; [lia|].
  unfold to_ll, LLONG_MIN, LLONG_MAX.
  change (2 ^ 63) with 9223372036854775808.
  change (2 ^ 52) with 4503599627370496 in Hp.
  destruct (Z.leb_spec (- 9223372036854775808) (Zpos p)); [|lia].
  destruct (Z.leb_spec (Zpos p) (9223372036854775808 - 1)); [|lia].
  reflexivity.
Qed.

Lemma floor_of_Z_pos : floor (of_Z (Zpos p)) = of_Z (Zpos p).
Proof.
  pose proof (log2_below_52 p Hp) as HL.
  assert (P1 : 0 < 2 ^ (52 - Z.log2 (Zpos p))) by (apply Z.pow_pos_nonneg; lia).
  rewrite (of_Z_pos p Hp) at 1. unfold floor, floor_finite.
  destruct (Z.leb_spec 0 (Z.log2 (Zpos p) - 52)) as [|_]; [lia|].
  rewrite Z2Pos.id by nia.
  replace (- (Z.log2 (Zpos p) - 52)) with (52 - Z.log2 (Zpos p)) by lia.
  rewrite of_Z_pos_div. reflexivity.
Qed.

Lemma sub_of_Z_pos_diag : sub (of_Z (Zpos p)) (of_Z (Zpos p)) = S754_zero false.
Proof.
  rewrite (of_Z_pos p Hp). unfold sub, SFsub. rewrite Z.min_id.
  unfold shl_align. rewrite Z.sub_diag. cbn [fst cond_Zopp].
  reflexivity.
Qed.

End OnNode.

Section OnNodeAll.

Variable k : Z.
Hypothesis Hk : 0 <= k < 2 ^ 52.

Lemma llround_of_Z : llround (of_Z k) = k.
Proof.
  destruct k as [|p|p]; [reflexivity| |lia]. apply llround_of_Z_pos. lia.
Qed.

Lemma floor_of_Z : floor (of_Z k) = of_Z k.
Proof.
  destruct k as [|p|p]; [reflexivity| |lia]. apply floor_of_Z_pos. lia.
Qed.

Lemma sub_of_Z_diag : sub (of_Z k) (of_Z k) = S754_zero false.
Proof.
  destruct k as [|p|p]; [reflexivity| |lia]. apply sub_of_Z_pos_diag. lia.
Qed.

End OnNodeAll.

Lemma zero_not_above_threshold : gt (S754_zero false) (add half eps) = false.
Proof. vm_compute. reflexivity. Qed.

(** X9.  A point on a node.  A point whose fractional cell coordinate
    [(x - xmin) / inc] is exactly the integer [k] of a column of the
    lattice ([0 <= k <= nx - 1]) is assigned to column [k] by both
    strategies, the nearest-rounded one and the ties-low one; the same
    holds along y for the rows. *)
Theorem node_point_keeps_its_node (opt : Options) (nx ny : Z) (x y : double) (k : Z) :
  grid_dims opt = Done (nx, ny) -> 0 <= k < 2 ^ 52 ->
  (div (sub x (xmin opt)) (inc opt) = of_Z k -> k < nx ->
   fst (map_point (with_tcl_round false opt) nx ny x y) = k /\
   fst (map_point (with_tcl_round true opt) nx ny x y) = k) /\
  (div (sub y (ymin opt)) (inc opt) = of_Z k -> k < ny ->
   snd (map_point (with_tcl_round false opt) nx ny x y) = k /\
   snd (map_point (with_tcl_round true opt) nx ny x y) = k).
Proof.
  intros G Hk. apply grid_dims_ok in G. destruct G as [Hx Hy].
  split; intros T Hn; unfold map_point, with_tcl_round, set_tcl_round;
    cbn [tcl_round xmin ymin inc negb fst snd]; rewrite T;
    rewrite (floor_of_Z k Hk), (sub_of_Z_diag k Hk), zero_not_above_threshold,
      (llround_of_Z k Hk), (cast_ll_of_Z k Hk);
    split; apply clamp_id; lia.
Qed.

(** The points (2.0, 2.0) and (1.0, 0.0) on the lattice of the test. *)
Lemma node_point_keeps_its_node_witness :
  map_point (with_tcl_round false test_options) 3 3
            (of_decimal false 20 (-1)) (of_decimal false 20 (-1)) = (2, 2) /\
  map_point (with_tcl_round true test_options) 3 3
            (of_decimal false 20 (-1)) (of_decimal false 20 (-1)) = (2, 2) /\
  fst (map_point (with_tcl_round false test_options) 3 3
            (of_decimal false 1 0) (of_decimal false 0 0)) = 1 /\
  fst (map_point (with_tcl_round true test_options) 3 3
            (of_decimal false 1 0) (of_decimal false 0 0)) = 1.
Proof.
  assert (G : grid_dims test_options = Done (3, 3)) by (vm_compute; reflexivity).
  assert (K1 : 0 <= 1 < 2 ^ 52) by (change (2 ^ 52) with 4503599627370496; lia).
  assert (K2 : 0 <= 2 < 2 ^ 52) by (change (2 ^ 52) with 4503599627370496; lia).
  destruct (node_point_keeps_its_node test_options 3 3
              (of_decimal false 20 (-1)) (of_decimal false 20 (-1)) 2 G K2)
    as [Hx Hy].
  destruct Hx as [A B]; [vm_compute; reflexivity|lia|].
  destruct Hy as [C D]; [vm_compute; reflexivity|lia|].
  destruct (node_point_keeps_its_node test_options 3 3
              (of_decimal false 1 0) (of_decimal false 0 0) 1 G K1)
    as [Hx _].
  destruct Hx as [E F]; [vm_compute; reflexivity|lia|].
  split; [|split; [|split]].
  - rewrite (surjective_pairing (map_point _ _ _ _ _)), A, C. reflexivity.
  - rewrite (surjective_pairing (map_point _ _ _ _ _)), B, D. reflexivity.
  - exact E.
  - exact F.
Defined.

(** ** The region argument *)

Section Region.

Lemma substring_all (s : string) : String.substring 0 (String.length s) s = s.
Proof. induction s as [|c s IH]; simpl; [reflexivity|]. rewrite IH. reflexivity. Qed.

Lemma append_cons (c : ascii) (t r : string) :
  String c t +:+ r = String c (t +:+ r).
Proof. reflexivity. Qed.

Lemma is_field_inv (t : string) :
  is_field t = true ->
  exists (c : ascii) (t' : string),
    t = String c t' /\ is_delim "/" c = false /\
    forallb (fun c => negb (Ascii.eqb c "/"%char)) (list_ascii_of_string t') = true.
Proof.
  unfold is_field. destruct t as [|c t']; [discriminate|].
  simpl. intros H. apply andb_prop in H. destruct H as [H1 H2].
  exists c, t'. split; [reflexivity|]. split; [|exact H2].
  unfold is_delim. simpl. destruct (Ascii.eqb c "/"); [discriminate|reflexivity].
Qed.

Lemma split_token_field (t r : string) :
  forallb (fun c => negb (Ascii.eqb c "/"%char)) (list_ascii_of_string t) = true ->
  split_token "/" (t +:+ String "/" r) = (t, r).
Proof.
  induction t as [|c t IH]; intros H.
  - reflexivity.
  - simpl in H. apply andb_prop in H. destruct H as [H1 H2].
    rewrite append_cons. simpl split_token.
    unfold is_delim. simpl existsb. destruct (Ascii.eqb c "/"); [discriminate|].
    simpl. rewrite (IH H2). reflexivity.
Qed.

Lemma split_token_last (t : string) :
  forallb (fun c => negb (Ascii.eqb c "/"%char)) (list_ascii_of_string t) = true ->
  split_token "/" t = (t, "").
Proof.
  induction t as [|c t IH]; simpl; intros H.
  - reflexivity.
  - apply andb_prop in H. destruct H as [H1 H2].
    unfold is_delim. simpl. destruct (Ascii.eqb c "/"); [discriminate|].
    simpl. rewrite (IH H2). reflexivity.
Qed.

Lemma strtok_r_field (t r : string) :
  is_field t = true -> strtok_r (t +:+ String "/" r) "/" = Some (t, r).
Proof.
  intros H. destruct (is_field_inv t H) as (c & t' & -> & D & F).
  unfold strtok_r. simpl skip_delims. rewrite D.
  change (String c (t' +:+ String "/" r)) with (String c t' +:+ String "/" r).
  rewrite split_token_field; [reflexivity|].
  simpl. rewrite F. unfold is_delim in D. simpl in D.
  destruct (Ascii.eqb c "/"); [discriminate|reflexivity].
Qed.

Lemma strtok_r_last (t : string) :
  is_field t = true -> strtok_r t "/" = Some (t, "").
Proof.
  intros H. destruct (is_field_inv t H) as (c & t' & -> & D & F).
  unfold strtok_r. simpl skip_delims. rewrite D.
  rewrite split_token_last; [reflexivity|].
  simpl. rewrite F. unfold is_delim in D. simpl in D.
  destruct (Ascii.eqb c "/"); [discriminate|reflexivity].
Qed.

Lemma strtok_r_fourth (t suffix : string) :
  is_field t = true -> suffix = "" \/ (exists u : string, suffix = String "/" u) ->
  exists save : string, strtok_r (t +:+ suffix) "/" = Some (t, save).
Proof.
  intros H [->|[u ->]].
  - exists "". replace (t +:+ "") with t; [apply strtok_r_last; exact H|].
    clear H. induction t as [|c t IH]; [reflexivity|].
    rewrite append_cons. f_equal. exact IH.
  - exists u. apply strtok_r_field. exact H.
Qed.

Lemma strip_region_prefix (pre body : string) :
  In pre ["-R"; "-r"; "R"; "r"] ->
  (if String.prefix "-R" (pre +:+ body) || String.prefix "-r" (pre +:+ body)
   then String.substring 2 (String.length (pre +:+ body) - 2) (pre +:+ body)
   else if String.prefix "R" (pre +:+ body) || String.prefix "r" (pre +:+ body)
   then String.substring 1 (String.length (pre +:+ body) - 1) (pre +:+ body)
   else pre +:+ body) = body.
Proof.
  intros [<-|[<-|[<-|[<-|[]]]]]; simpl;
    rewrite ?Nat.sub_0_r; try apply substring_all;
    destruct body; simpl; rewrite ?substring_all; reflexivity.
Qed.

End Region.

(** X10.  The region argument.  After one of the prefixes [-R], [-r],
    [R], [r], four non-empty slash-free fields separated by single
    slashes are converted in the order xmin, xmax, ymin, ymax, each by
    the number at its start; the region is refused when a field has no
    number at its start or a conversion is out of range, and when the
    text after the prefix has 256 characters or more.  Anything after a
    slash that follows the fourth field is ignored. *)
Theorem parse_region_fields (pre t1 t2 t3 t4 suffix : string) :
  In pre ["-R"; "-r"; "R"; "r"] ->
  is_field t1 = true -> is_field t2 = true ->
  is_field t3 = true -> is_field t4 = true ->
  suffix = "" \/ (exists u : string, suffix = String "/" u) ->
  let body := t1 +:+ "/" +:+ t2 +:+ "/" +:+ t3 +:+ "/" +:+ t4 +:+ suffix in
  parse_region (pre +:+ body)
  = if (256 <=? String.length body)%nat then None
    else region_values t1 t2 t3 t4.
Proof.
  intros Hpre F1 F2 F3 F4 Hs body.
  unfold parse_region.
  destruct (pre +:+ body) as [|c0 s0] eqn:E.
  { exfalso. destruct Hpre as [<-|[<-|[<-|[<-|[]]]]]; discriminate E. }
  rewrite <- E. rewrite (strip_region_prefix pre body Hpre).
  destruct (256 <=? String.length body)%nat; [reflexivity|].
  change body
    with (t1 +:+ String "/" (t2 +:+ String "/" (t3 +:+ String "/" (t4 +:+ suffix)))).
  unfold region_values.
  rewrite (strtok_r_field t1 _ F1).
  destruct (strtod_checked t1) as [[a ?]|]; [|reflexivity].
  rewrite (strtok_r_field t2 _ F2).
  destruct (strtod_checked t2) as [[b ?]|]; [|reflexivity].
  rewrite (strtok_r_field t3 _ F3).
  destruct (strtod_checked t3) as [[c ?]|]; [|reflexivity].
  destruct (strtok_r_fourth t4 suffix F4 Hs) as [save ->].
  destruct (strtod_checked t4) as [[d ?]|]; reflexivity.
Qed.

(** The region of the long example of the README, and the same with a
    fifth field. *)
Lemma parse_region_fields_witness :
  parse_region "-R1585520.5/1587224.5/5464422.5/5467728.5"
  = Some (of_decimal false 15855205 (-1), of_decimal false 15872245 (-1),
          of_decimal false 54644225 (-1), of_decimal false 54677285 (-1)) /\
  parse_region "r0/2/0/2x/anything"
  = Some (of_Z 0, of_Z 2, of_Z 0, of_Z 2).
Proof.
  split.
  - refine (eq_trans (parse_region_fields "-R" "1585520.5" "1587224.5" "5464422.5"
                        "5467728.5" "" _ _ _ _ _ _) _);
      [simpl; tauto|reflexivity|reflexivity|reflexivity|reflexivity
      |left; reflexivity|vm_compute; reflexivity].
  - refine (eq_trans (parse_region_fields "r" "0" "2" "0" "2x" "/anything"
                        _ _ _ _ _ _) _);
      [simpl; tauto|reflexivity|reflexivity|reflexivity|reflexivity
      |right; eexists; reflexivity|vm_compute; reflexivity].
Defined.

(** ** The output path *)

Section OutputPath.

Lemma parse_loop_out_none (n : nat) :
  forall (args : list string) (opt opt' : Options),
    (length args <= n)%nat -> ~ In "-o" args -> out opt = None ->
    parse_loop args opt = Done opt' -> out opt' = None.
Proof.
  induction n as [|n IH]; intros args opt opt' Hlen Hno Hout.
  - destruct args; [|simpl in Hlen; lia]. intros [= <-]. exact Hout.
  - destruct args as [|a rest]; [intros [= <-]; exact Hout|].
    simpl in Hlen. simpl parse_loop.
    assert (Hrest : ~ In "-o" rest) by (intros H; apply Hno; right; exact H).
    destruct (String.eqb a "-h" || String.eqb a "--help"); [discriminate|].
    destruct (String.prefix "-R" a || String.prefix "R" a).
    { destruct (parse_region a) as [[[[x0 x1] y0] y1]|]; [|discriminate].
      apply IH; [lia|exact Hrest|exact Hout]. }
    destruct (String.eqb a "-I" || String.prefix "-I" a).
    { unfold take_inc.
      destruct (String.substring 2 (String.length a - 2) a) as [|c val].
      - destruct rest as [|val rest']; [discriminate|].
        destruct (parse_double_arg val) as [v|]; [|discriminate].
        destruct (le v zero); [discriminate|].
        simpl. apply IH; [simpl in Hlen; lia| |exact Hout].
        intros H; apply Hrest; right; exact H.
      - destruct (parse_double_arg (String c val)) as [v|]; [|discriminate].
        destruct (le v zero); [discriminate|].
        simpl. apply IH; [lia|exact Hrest|exact Hout]. }
    destruct (String.eqb a "-PATH" || String.eqb a "-path").
    { destruct rest as [|p rest']; [discriminate|].
      apply IH; [simpl in Hlen; lia| |exact Hout].
      intros H; apply Hrest; right; exact H. }
    destruct (String.eqb a "-MAX"); [apply IH; [lia|exact Hrest|exact Hout]|].
    destruct (String.eqb a "-o") eqn:E.
    { exfalso. apply Hno. left. apply String.eqb_eq in E. exact E. }
    destruct (String.eqb a "--tclround"); [apply IH; [lia|exact Hrest|exact Hout]|].
    destruct (String.prefix "-" a); [discriminate|].
    destruct (path opt); [discriminate|].
    apply IH; [lia|exact Hrest|exact Hout].
Qed.

End OutputPath.

(** X11.  The default output path.  When no argument is [-o], the
    options that [parse_args] returns name the input path followed by
    [.min] in minimum mode and by [.max] in maximum mode, wherever
    [-MAX] stood on the command line. *)
Theorem default_output_path (argv : list string) (opt : Options) :
  parse_args argv = Done opt -> ~ In "-o" (tail argv) ->
  exists p : string,
    path opt = Some p /\
    out opt = Some (p +:+ (if find_min opt then ".min" else ".max")).
Proof.
  unfold parse_args. intros H Hno.
  destruct (parse_loop (tail argv) default_options) as [o| |] eqn:L;
    try discriminate.
  simpl in H.
  pose proof (parse_loop_out_none (length (tail argv)) (tail argv)
                default_options o (le_n _) Hno eq_refl L) as O.
  destruct (path o) as [p|] eqn:P; [|discriminate].
  destruct (negb (gt (xmax o) (xmin o) && gt (ymax o) (ymin o))); [discriminate|].
  rewrite O in H. injection H as <-. exists p. split; [exact P|reflexivity].
Qed.

(** The command of the README in maximum mode, [-MAX] given first. *)
Lemma default_output_path_witness :
  exists opt : Options,
    parse_args ["blockminmax"; "-MAX"; "-R0/2/0/2"; "-I1"; "testdata_small.xyz"]
    = Done opt /\
    find_min opt = false /\
    exists p : string,
      path opt = Some p /\
      out opt = Some (p +:+ (if find_min opt then ".min" else ".max")).
Proof.
  eexists. split; [vm_compute; reflexivity|]. split; [reflexivity|].
  apply (default_output_path
           ["blockminmax"; "-MAX"; "-R0/2/0/2"; "-I1"; "testdata_small.xyz"]).
  - vm_compute. reflexivity.
  - simpl. intros [H|[H|[H|[H|[]]]]]; discriminate H.
Defined.

(** ** blockminmax.tcl: the closest node *)

Section NotNan.

Lemma binary_round_aux_not_nan (s : bool) (m e : Z) (l : location) :
  0 < m -> is_nan (binary_round_aux prec emax s m e l) = false.
Proof.
  intros Hm. unfold binary_round_aux.
  destruct (shr_fexp_spec m e l) as [E1 _]; [lia|].
  destruct (shr_fexp prec emax m e l) as [mrs' e'] eqn:S1.
  simpl fst in E1.
  set (m2 := round_nearest_even (shr_m mrs') (loc_of_shr_record mrs')).
  assert (H1 : 0 <= shr_m mrs')
    by (rewrite E1; apply Z.div_pos; [lia|apply Z.pow_pos_nonneg; lia]).
  assert (H2 : m2 = shr_m mrs' \/ m2 = shr_m mrs' + 1)
    by apply round_nearest_even_or.
  destruct (shr_fexp_spec m2 e' loc_Exact) as [E2 _]; [lia|].
  destruct (shr_fexp prec emax m2 e' loc_Exact) as [mrs'' e''] eqn:S2.
  simpl fst in E2.
  assert (H3 : 0 <= shr_m mrs'')
    by (rewrite E2; apply Z.div_pos; [lia|apply Z.pow_pos_nonneg; lia]).
  destruct (shr_m mrs'') as [|p|p]; [reflexivity| |lia].
  destruct (e'' <=? emax - prec)%Z; reflexivity.
Qed.

Lemma binary_round_not_nan (s : bool) (m : positive) (e : Z) :
  is_nan (binary_round prec emax s m e) = false.
Proof.
  unfold binary_round.
  destruct (shl_align m e (fexp prec emax (Zpos (digits2_pos m) + e))) as [mz ez].
  apply binary_round_aux_not_nan. lia.
Qed.

Lemma binary_normalize_not_nan (n e : Z) (sz : bool) :
  is_nan (binary_normalize prec emax n e sz) = false.
Proof. destruct n; simpl; auto using binary_round_not_nan. Qed.

Lemma sub_finite_not_nan (x y : double) :
  is_finite x = true -> is_finite y = true -> is_nan (sub x y) = false.
Proof.
  destruct x as [sx|sx| |sx mx ex], y as [sy|sy| |sy my ey];
    try discriminate; intros _ _; unfold sub, SFsub.
  - destruct sx, sy; reflexivity.
  - reflexivity.
  - reflexivity.
  - apply binary_normalize_not_nan.
Qed.

End NotNan.

Section ClosestValue.

Variable tie_lower : bool.
Variable l : list string.
Variable t : string.
Hypothesis Hl : forallb finite_number l = true.
Hypothesis Ht : finite_number t = true.

Lemma lindex_In (i : Z) :
  0 <= i < Z.of_nat (length l) -> In (Tcl.lindex l i) l.
Proof.
  intros Hi. unfold Tcl.lindex.
  destruct (Z.ltb_spec i 0) as [|_]; [lia|].
  destruct (lookup_lt_is_Some_2 l (Z.to_nat i)) as [x Hx]; [lia|].
  rewrite Hx. simpl. apply list_elem_of_In. eapply list_elem_of_lookup_2, Hx.
Qed.

Lemma In_finite (v : string) : In v l -> finite_number v = true.
Proof. intros H. eapply forallb_forall in Hl; [exact Hl|exact H]. Qed.

Lemma abs_diff_finite (a : string) :
  finite_number a = true -> exists d : double, Tcl.expr_abs_diff t a = Some d.
Proof.
  intros Ha. unfold finite_number in Ha, Ht. unfold Tcl.expr_abs_diff.
  destruct (Tcl.number t) as [x|]; [|discriminate].
  destruct (Tcl.number a) as [y|]; [|discriminate].
  rewrite (sub_finite_not_nan x y Ht Ha).
  destruct x, y; try discriminate; simpl; eauto.
Qed.

Lemma probe_in_loop_fst (cv clo : string) (cd md : double) :
  fst (Tcl.probe_in_loop tie_lower cv cd clo md) = cv \/
  fst (Tcl.probe_in_loop tie_lower cv cd clo md) = clo.
Proof.
  unfold Tcl.probe_in_loop.
  destruct (lt cd md); [left; reflexivity|].
  destruct (SFeqb cd md); [|right; reflexivity].
  destruct (tie_lower && Tcl.expr_lt cv clo); [left|right]; reflexivity.
Qed.

Lemma probe_after_loop_fst (cv clo : string) (cd md : double) :
  fst (Tcl.probe_after_loop tie_lower cv cd clo md) = cv \/
  fst (Tcl.probe_after_loop tie_lower cv cd clo md) = clo.
Proof.
  unfold Tcl.probe_after_loop.
  destruct (lt cd md); [left; reflexivity|].
  destruct (tie_lower && SFeqb cd md && Tcl.expr_lt cv clo); [left|right]; reflexivity.
Qed.

Lemma after_loop_member (low high : Z) (clo : string) (md : double) :
  0 <= low -> high < Z.of_nat (length l) -> In clo l ->
  exists v : string,
    Tcl.after_loop tie_lower l t low high clo md = Tcl.Return v /\ In v l.
Proof.
  intros Hlow Hhigh Hclo. unfold Tcl.after_loop.
  assert (A : exists (clo' : string) (md' : double),
             (if (low <? Z.of_nat (length l))%Z
              then match Tcl.expr_abs_diff t (Tcl.lindex l low) with
                   | Some diffAtLow =>
                       Some (Tcl.probe_after_loop tie_lower (Tcl.lindex l low)
                                                  diffAtLow clo md)
                   | None => None
                   end
              else Some (clo, md)) = Some (clo', md') /\ In clo' l).
  { destruct (Z.ltb_spec low (Z.of_nat (length l))) as [L|L].
    - pose proof (lindex_In low ltac:(lia)) as I.
      destruct (abs_diff_finite _ (In_finite _ I)) as [d ->].
      destruct (Tcl.probe_after_loop tie_lower (Tcl.lindex l low) d clo md)
        as [c' m'] eqn:P.
      exists c', m'. split; [reflexivity|].
      destruct (probe_after_loop_fst (Tcl.lindex l low) clo d md) as [E|E];
        rewrite P in E; simpl in E; rewrite E; assumption.
    - exists clo, md. split; [reflexivity|assumption]. }
  destruct A as (clo' & md' & -> & Hclo').
  destruct (Z.leb_spec 0 high) as [H|H].
  - pose proof (lindex_In high ltac:(lia)) as I.
    destruct (abs_diff_finite _ (In_finite _ I)) as [d ->].
    eexists. split; [reflexivity|].
    destruct (probe_after_loop_fst (Tcl.lindex l high) clo' d md') as [E|E];
      rewrite E; assumption.
  - exists clo'. split; [reflexivity|assumption].
Qed.

Lemma search_member (fuel : nat) :
  forall (low high : Z) (clo : string) (md : double),
    0 <= low -> high < Z.of_nat (length l) -> low <= high + 1 ->
    high - low + 1 < Z.of_nat fuel -> In clo l ->
    exists v : string,
      Tcl.search fuel tie_lower l t low high clo md = Tcl.Return v /\ In v l.
Proof.
  induction fuel as [|fuel IH]; intros low high clo md Hlow Hhigh Hle Hfuel Hclo.
  - lia.
  - simpl Tcl.search. destruct (Z.leb_spec low high) as [L|L].
    + assert (M : low <= (low + high) / 2 <= high).
      { split; [apply Z.div_le_lower_bound|apply Z.div_le_upper_bound]; lia. }
      pose proof (lindex_In ((low + high) / 2) ltac:(lia)) as I.
      destruct (abs_diff_finite _ (In_finite _ I)) as [d ->].
      destruct (Tcl.probe_in_loop tie_lower (Tcl.lindex l ((low + high) / 2)) d clo md)
        as [c' m'] eqn:P.
      assert (Hc' : In c' l).
      { destruct (probe_in_loop_fst (Tcl.lindex l ((low + high) / 2)) clo d md)
          as [E|E]; rewrite P in E; simpl in E; rewrite E; assumption. }
      destruct (Tcl.expr_lt (Tcl.lindex l ((low + high) / 2)) t).
      { apply IH; try lia. exact Hc'. }
      destruct (Tcl.expr_gt (Tcl.lindex l ((low + high) / 2)) t).
      { apply IH; try lia. exact Hc'. }
      eexists. split; [reflexivity|exact I].
    + apply after_loop_member; assumption.
Qed.

End ClosestValue.

Lemma closest_value_is_an_element_aux (tie_lower : bool) (l : list string)
      (t : string) :
  l <> [] -> forallb finite_number l = true -> finite_number t = true ->
  exists v : string,
    Tcl.findClosestValue tie_lower l t = Tcl.Return v /\ In v l.
Proof.
  intros Hne Hl Ht. unfold Tcl.findClosestValue.
  destruct l as [|a l'] eqn:E; [congruence|]. rewrite <- E in *.
  assert (Hlen : 0 < Z.of_nat (length l)) by (rewrite E; simpl; lia).
  destruct (Z.eqb_spec (Z.of_nat (length l)) 0) as [|_]; [lia|].
  pose proof (lindex_In l 0 ltac:(lia)) as I.
  destruct (abs_diff_finite t Ht _ (In_finite l Hl _ I)) as [d ->].
  apply search_member; try assumption; lia.
Qed.

(** X12.  [findClosestValue] on a non-empty list of finite numbers and a
    finite number as target: the binary search ends within the length of
    the list, no command of the procedure raises an error, and the value
    returned is an element of the list, with or without [-TIELOW]. *)
Theorem closest_value_is_an_element (tie_lower : bool) (l : list string)
        (t : string) :
  l <> [] -> forallb finite_number l = true -> finite_number t = true ->
  exists v : string,
    Tcl.findClosestValue tie_lower l t = Tcl.Return v /\ In v l.
Proof. exact (closest_value_is_an_element_aux tie_lower l t). Qed.

(** The x values 0.49, 2.0 and 7 against the nodes 0.0, 1.0, 2.0. *)
Lemma closest_value_is_an_element_witness :
  Tcl.findClosestValue false test_nodes "0.49" = Tcl.Return "0.0" /\
  Tcl.findClosestValue false test_nodes "2.0" = Tcl.Return "2.0" /\
  exists v : string,
    Tcl.findClosestValue true test_nodes "7" = Tcl.Return v /\ In v test_nodes.
Proof.
  split; [vm_compute; reflexivity|]. split; [vm_compute; reflexivity|].
  apply closest_value_is_an_element;
    [discriminate|vm_compute; reflexivity|vm_compute; reflexivity].
Defined.

(** ** blockminmax.tcl: the array under the input loop *)

Section TclArray.

Variables l_x l_y : list string.
Variable preset : string.

Lemma row_keeps (x : string) (k : string) :
  forall (ys : list string) (ar : gmap string string),
    is_Some (ar !! k) ->
    is_Some (foldl (fun ar y => <[Tcl.ar_key x y := preset]> ar) ar ys !! k).
Proof.
  induction ys as [|y ys IH]; intros ar H; simpl; [exact H|].
  apply IH. destruct (decide (Tcl.ar_key x y = k)) as [<-|N].
  - rewrite lookup_insert_eq. eauto.
  - rewrite lookup_insert_ne by exact N. exact H.
Qed.

Lemma row_sets (x b : string) :
  forall (ys : list string) (ar : gmap string string),
    In b ys ->
    is_Some (foldl (fun ar y => <[Tcl.ar_key x y := preset]> ar) ar ys
             !! Tcl.ar_key x b).
Proof.
  induction ys as [|y ys IH]; intros ar H; simpl; [destruct H|].
  destruct H as [->|H]; [|apply IH, H].
  apply row_keeps. rewrite lookup_insert_eq. eauto.
Qed.

Lemma rows_keep (k : string) :
  forall (xs : list string) (ar : gmap string string),
    is_Some (ar !! k) ->
    is_Some (foldl (fun ar x =>
                      foldl (fun ar y => <[Tcl.ar_key x y := preset]> ar) ar l_y)
                   ar xs !! k).
Proof.
  induction xs as [|x xs IH]; intros ar H; simpl; [exact H|].
  apply IH, row_keeps, H.
Qed.

Lemma rows_set (a b : string) :
  In b l_y ->
  forall (xs : list string) (ar : gmap string string),
    In a xs ->
    is_Some (foldl (fun ar x =>
                      foldl (fun ar y => <[Tcl.ar_key x y := preset]> ar) ar l_y)
                   ar xs !! Tcl.ar_key a b).
Proof.
  intros Hb. induction xs as [|x xs IH]; intros ar H; simpl; [destruct H|].
  destruct H as [->|H]; [|apply IH, H].
  apply rows_keep, row_sets, Hb.
Qed.

Lemma init_ar_covers (a b : string) :
  In a l_x -> In b l_y ->
  is_Some (Tcl.init_ar l_x l_y preset !! Tcl.ar_key a b).
Proof. intros Ha Hb. apply rows_set; assumption. Qed.

Variables tie_lower fix_min find_min : bool.
Hypothesis Hx : l_x <> [].
Hypothesis Hy : l_y <> [].
Hypothesis Fx : forallb finite_number l_x = true.
Hypothesis Fy : forallb finite_number l_y = true.

Lemma loop_body_keeps (ar : gmap string string) (x y z : string) :
  (forall a b : string, In a l_x -> In b l_y -> is_Some (ar !! Tcl.ar_key a b)) ->
  finite_number x = true -> finite_number y = true ->
  exists ar' : gmap string string,
    Tcl.loop_body tie_lower fix_min find_min l_x l_y ar x y z = Some ar' /\
    forall k : string, is_Some (ar' !! k) <-> is_Some (ar !! k).
Proof.
  intros C Nx Ny. unfold Tcl.loop_body.
  destruct (closest_value_is_an_element_aux tie_lower l_x x Hx Fx Nx) as (a & -> & Ha).
  destruct (closest_value_is_an_element_aux tie_lower l_y y Hy Fy Ny) as (b & -> & Hb).
  destruct (C a b Ha Hb) as [cur Hcur].
  destruct (ar_update_lookup fix_min find_min ar a b z cur Hcur) as (ar' & -> & S & O).
  exists ar'. split; [reflexivity|]. intros k.
  destruct (decide (k = Tcl.ar_key a b)) as [->|N].
  - rewrite S, Hcur. split; eauto.
  - rewrite (O k N). tauto.
Qed.

Lemma input_loop_keeps (scanned : list (string * string * string)) :
  forallb finite_point scanned = true ->
  forall ar : gmap string string,
    (forall a b : string, In a l_x -> In b l_y -> is_Some (ar !! Tcl.ar_key a b)) ->
    exists ar' : gmap string string,
      Tcl.input_loop tie_lower fix_min find_min l_x l_y ar scanned = Some ar' /\
      forall k : string, is_Some (ar' !! k) <-> is_Some (ar !! k).
Proof.
  induction scanned as [|[[x y] z] rest IH]; intros F ar C.
  - exists ar. split; [reflexivity|tauto].
  - simpl in F. apply andb_prop in F. destruct F as [F1 F2].
    apply andb_prop in F1. destruct F1 as [Nx Ny].
    simpl Tcl.input_loop.
    destruct (loop_body_keeps ar x y z C Nx Ny) as (ar1 & -> & K1).
    destruct (IH F2 ar1) as (ar' & -> & K').
    { intros a b Ha Hb. apply K1, C; assumption. }
    exists ar'. split; [reflexivity|]. intros k. rewrite K', K1. tauto.
Qed.

End TclArray.

(** X13.  The Tcl script never reads a cell that it did not initialise.
    With non-empty node lists of finite numbers, and for scanned lines
    whose x and y read as finite numbers, every round of the input loop
    finds [ar(x,y)] set, whatever the options; the loop ends without an
    error and the array has the elements it was initialised with, no
    more and no fewer. *)
Theorem input_loop_reads_initialised_cells
        (tie_lower fix_min find_min : bool) (l_x l_y : list string)
        (preset : string) (scanned : list (string * string * string)) :
  l_x <> [] -> l_y <> [] ->
  forallb finite_number l_x = true -> forallb finite_number l_y = true ->
  forallb finite_point scanned = true ->
  exists ar' : gmap string string,
    Tcl.input_loop tie_lower fix_min find_min l_x l_y
                   (Tcl.init_ar l_x l_y preset) scanned = Some ar' /\
    forall k : string,
      is_Some (ar' !! k) <-> is_Some (Tcl.init_ar l_x l_y preset !! k).
Proof.
  intros Hx Hy Fx Fy Fs.
  apply input_loop_keeps; try assumption.
  intros a b Ha Hb. apply init_ar_covers; assumption.
Qed.

(** The test data on the 3 x 3 nodes of the test region. *)
Lemma input_loop_reads_initialised_cells_witness :
  exists ar' : gmap string string,
    Tcl.input_loop false false true test_nodes test_nodes
                   (Tcl.init_ar test_nodes test_nodes "1e10") test_scanned
    = Some ar' /\
    forall k : string,
      is_Some (ar' !! k)
      <-> is_Some (Tcl.init_ar test_nodes test_nodes "1e10" !! k).
Proof.
  apply input_loop_reads_initialised_cells;
    [discriminate|discriminate|vm_compute; reflexivity..].
Defined.

(** ** blockminmax.tcl: the update with [-FIXMIN] *)

Lemma eqb_not_lt (a b : double) :
  is_nan a = false -> is_nan b = false -> SFeqb a b = true ->
  lt a b = false /\ lt b a = false.
Proof.
  intros Ha Hb E. unfold SFeqb in E. unfold lt, SFltb.
  rewrite (compare_key a b Ha Hb) in *. rewrite (compare_key b a Hb Ha).
  destruct (key_compare (key a) (key b)) eqn:K; try discriminate.
  apply key_compare_eq in K. rewrite K.
  assert (K' : key_compare (key b) (key b) = Eq) by (apply key_compare_eq; reflexivity).
  rewrite K'. split; reflexivity.
Qed.

(** X14.  With [-FIXMIN], for a line value and a stored value that read
    as numbers other than NaN, the cell holds after the update the
    smaller of the two in minimum mode and the larger in maximum mode;
    it is one of the two texts, and the stored text when the two are
    numerically equal. *)
Theorem fixmin_keeps_the_extreme (find_min : bool) (z cur : string)
        (vz vc : double) :
  Tcl.number z = Some vz -> Tcl.number cur = Some vc ->
  is_nan vz = false -> is_nan vc = false ->
  (Tcl.update true find_min z cur = z \/ Tcl.update true find_min z cur = cur) /\
  (exists v : double,
     Tcl.number (Tcl.update true find_min z cur) = Some v /\
     if find_min then le v vz = true /\ le v vc = true
     else le vz v = true /\ le vc v = true) /\
  (SFeqb vz vc = true -> Tcl.update true find_min z cur = cur).
Proof.
  intros Nz Nc Hz Hc.
  assert (E1 : Tcl.expr_lt z cur = lt vz vc)
    by (unfold Tcl.expr_lt; rewrite Nz, Nc; reflexivity).
  assert (E2 : Tcl.expr_gt z cur = lt vc vz)
    by (unfold Tcl.expr_gt; rewrite Nz, Nc; reflexivity).
  unfold Tcl.update. rewrite E1, E2. clear E1 E2.
  split; [|split].
  - destruct find_min; [destruct (lt vz vc)|destruct (lt vc vz)]; auto.
  - destruct find_min.
    + destruct (lt vz vc) eqn:L.
      * exists vz. split; [exact Nz|]. split; [apply le_refl, Hz|].
        apply (lt_le_trans vz vc vc L), le_refl, Hc.
      * exists vc. split; [exact Nc|]. split; [|apply le_refl, Hc].
        apply not_lt_le; assumption.
    + destruct (lt vc vz) eqn:L.
      * exists vz. split; [exact Nz|]. split; [apply le_refl, Hz|].
        apply (lt_le_trans vc vz vz L), le_refl, Hz.
      * exists vc. split; [exact Nc|]. split; [|apply le_refl, Hc].
        apply not_lt_le; assumption.
  - intros E. destruct (eqb_not_lt vz vc Hz Hc E) as [L1 L2].
    rewrite L1, L2. destruct find_min; reflexivity.
Qed.

(** A cell holding "5.0" and the values 7, 3 and 5 of a next line. *)
Lemma fixmin_keeps_the_extreme_witness :
  Tcl.update true true "7" "5.0" = "5.0" /\
  Tcl.update true true "3" "5.0" = "3" /\
  Tcl.update true false "7" "5.0" = "7" /\
  Tcl.update true true "5" "5.0" = "5.0".
Proof.
  destruct (fixmin_keeps_the_extreme true "5" "5.0" (of_Z 5) (of_Z 5))
    as (_ & _ & T); [vm_compute; reflexivity..|].
  split; [vm_compute; reflexivity|]. split; [vm_compute; reflexivity|].
  split; [vm_compute; reflexivity|]. apply T. vm_compute. reflexivity.
Defined.

(** ** blockminmax.tcl: the binary search on an exact match *)

Section ExactHit.

Lemma is_finite_not_nan (x : double) : is_finite x = true -> is_nan x = false.
Proof. destruct x; simpl; congruence. Qed.

Lemma eqb_key (a b : double) :
  is_nan a = false -> is_nan b = false -> SFeqb a b = true -> key a = key b.
Proof.
  intros Ha Hb E. unfold SFeqb in E. rewrite (compare_key a b Ha Hb) in E.
  destruct (key_compare (key a) (key b)) eqn:K; try discriminate.
  apply key_compare_eq, K.
Qed.

Lemma lt_trans (a b c : double) :
  lt a b = true -> lt b c = true -> lt a c = true.
Proof.
  rewrite !lt_iff. intros (Ha & Hb & K1) (_ & Hc & K2).
  split; [exact Ha|]. split; [exact Hc|]. eapply key_lt_trans; eassumption.
Qed.

Lemma expr_lt_numbers (a b : string) (va vb : double) :
  Tcl.number a = Some va -> Tcl.number b = Some vb ->
  Tcl.expr_lt a b = lt va vb /\ Tcl.expr_gt a b = lt vb va.
Proof.
  intros Na Nb. unfold Tcl.expr_lt, Tcl.expr_gt. rewrite Na, Nb.
  split; reflexivity.
Qed.

Lemma finite_number_inv (a : string) :
  finite_number a = true ->
  exists va : double, Tcl.number a = Some va /\ is_nan va = false.
Proof.
  unfold finite_number. destruct (Tcl.number a) as [va|]; [|discriminate].
  intros F. exists va. split; [reflexivity|apply is_finite_not_nan, F].
Qed.

Lemma expr_lt_trans (a b c : string) :
  finite_number a = true -> finite_number b = true -> finite_number c = true ->
  Tcl.expr_lt a b = true -> Tcl.expr_lt b c = true -> Tcl.expr_lt a c = true.
Proof.
  intros Fa Fb Fc.
  destruct (finite_number_inv a Fa) as (va & Na & _).
  destruct (finite_number_inv b Fb) as (vb & Nb & _).
  destruct (finite_number_inv c Fc) as (vc & Nc & _).
  rewrite (proj1 (expr_lt_numbers a b va vb Na Nb)).
  rewrite (proj1 (expr_lt_numbers b c vb vc Nb Nc)).
  rewrite (proj1 (expr_lt_numbers a c va vc Na Nc)).
  apply lt_trans.
Qed.

Lemma increasing_head (rest : list string) :
  forall a : string,
    forallb finite_number (a :: rest) = true -> increasing (a :: rest) = true ->
    forall b : string, In b rest -> Tcl.expr_lt a b = true.
Proof.
  induction rest as [|b rest IH]; intros a F I c Hc; [destruct Hc|].
  simpl in F. apply andb_prop in F. destruct F as [Fa F].
  pose proof F as F'. simpl in F'. apply andb_prop in F'. destruct F' as [Fb Fr].
  change (increasing (a :: b :: rest))
    with (Tcl.expr_lt a b && increasing (b :: rest)) in I.
  apply andb_prop in I. destruct I as [Lab I].
  destruct Hc as [<-|Hc]; [exact Lab|].
  apply (expr_lt_trans a b c Fa Fb); [|exact Lab|apply (IH b F I c Hc)].
  eapply forallb_forall in Fr; [exact Fr|exact Hc].
Qed.

Lemma increasing_pairwise (l : list string) :
  forallb finite_number l = true -> increasing l = true ->
  forall (i j : nat) (a b : string),
    l !! i = Some a -> l !! j = Some b -> (i < j)%nat -> Tcl.expr_lt a b = true.
Proof.
  induction l as [|a0 rest IH]; intros F I i j a b Hi Hj Hij.
  - discriminate Hi.
  - destruct j as [|j]; [lia|]. simpl in Hj.
    destruct i as [|i].
    + simpl in Hi. injection Hi as <-.
      apply (increasing_head rest a0 F I).
      apply list_elem_of_In. eapply list_elem_of_lookup_2, Hj.
    + simpl in Hi. apply (IH) with (i := i) (j := j); try assumption; try lia.
      * simpl in F. apply andb_prop in F. tauto.
      * destruct rest as [|b0 rest']; [reflexivity|].
        change (increasing (a0 :: b0 :: rest'))
          with (Tcl.expr_lt a0 b0 && increasing (b0 :: rest')) in I.
        apply andb_prop in I. tauto.
Qed.

Variable tie_lower : bool.
Variable l : list string.
Variables t e : string.
Variable i0 : nat.
Hypothesis Hl : forallb finite_number l = true.
Hypothesis Hinc : increasing l = true.
Hypothesis Ht : finite_number t = true.
Hypothesis He : l !! i0 = Some e.
Hypothesis Hsame : same_number e t = true.

Lemma lookup_finite (i : nat) (a : string) :
  l !! i = Some a -> finite_number a = true.
Proof.
  intros H. eapply forallb_forall in Hl; [exact Hl|].
  apply list_elem_of_In. eapply list_elem_of_lookup_2, H.
Qed.

Lemma target_key :
  exists ve vt : double,
    Tcl.number e = Some ve /\ Tcl.number t = Some vt /\
    is_nan ve = false /\ is_nan vt = false /\ key ve = key vt.
Proof.
  destruct (finite_number_inv e (lookup_finite i0 e He)) as (ve & Ne & He').
  destruct (finite_number_inv t Ht) as (vt & Nt & Ht').
  exists ve, vt. unfold same_number in Hsame. rewrite Ne, Nt in Hsame.
  split; [exact Ne|]. split; [exact Nt|]. split; [exact He'|].
  split; [exact Ht'|]. apply eqb_key; assumption.
Qed.

Lemma below_hit (i : nat) (a : string) :
  l !! i = Some a -> (i < i0)%nat -> Tcl.expr_lt a t = true.
Proof.
  intros Ha Hi.
  destruct target_key as (ve & vt & Ne & Nt & He' & Ht' & K).
  destruct (finite_number_inv a (lookup_finite i a Ha)) as (va & Na & Ha').
  pose proof (increasing_pairwise l Hl Hinc i i0 a e Ha He Hi) as L.
  rewrite (proj1 (expr_lt_numbers a e va ve Na Ne)) in L.
  rewrite (proj1 (expr_lt_numbers a t va vt Na Nt)).
  apply lt_iff in L. apply lt_iff. rewrite <- K. tauto.
Qed.

Lemma above_hit (i : nat) (a : string) :
  l !! i = Some a -> (i0 < i)%nat ->
  Tcl.expr_lt a t = false /\ Tcl.expr_gt a t = true.
Proof.
  intros Ha Hi.
  destruct target_key as (ve & vt & Ne & Nt & He' & Ht' & K).
  destruct (finite_number_inv a (lookup_finite i a Ha)) as (va & Na & Ha').
  pose proof (increasing_pairwise l Hl Hinc i0 i e a He Ha Hi) as L.
  rewrite (proj1 (expr_lt_numbers e a ve va Ne Na)) in L.
  destruct (expr_lt_numbers a t va vt Na Nt) as [-> ->].
  assert (G : lt vt va = true).
  { apply lt_iff in L. apply lt_iff. rewrite <- K. tauto. }
  split; [apply lt_asym, G|exact G].
Qed.

Lemma at_hit : Tcl.expr_lt e t = false /\ Tcl.expr_gt e t = false.
Proof.
  destruct target_key as (ve & vt & Ne & Nt & He' & Ht' & K).
  destruct (expr_lt_numbers e t ve vt Ne Nt) as [-> ->].
  split.
  - destruct (lt ve vt) eqn:L; [|reflexivity].
    apply lt_iff in L. destruct L as (_ & _ & L). rewrite K in L.
    assert (L' : lt vt vt = true) by (apply lt_iff; auto).
    rewrite lt_irrefl in L'. discriminate.
  - destruct (lt vt ve) eqn:L; [|reflexivity].
    apply lt_iff in L. destruct L as (_ & _ & L). rewrite K in L.
    assert (L' : lt vt vt = true) by (apply lt_iff; auto).
    rewrite lt_irrefl in L'. discriminate.
Qed.

Lemma search_exact (fuel : nat) :
  forall (low high : Z) (clo : string) (md : double),
    0 <= low -> high < Z.of_nat (length l) ->
    low <= Z.of_nat i0 <= high -> high - low + 1 < Z.of_nat fuel ->
    Tcl.search fuel tie_lower l t low high clo md = Tcl.Return e.
Proof.
  induction fuel as [|fuel IH]; intros low high clo md Hlow Hhigh Hi Hfuel.
  - lia.
  - simpl Tcl.search. destruct (Z.leb_spec low high) as [L|L]; [|lia].
    assert (M : low <= (low + high) / 2 <= high).
    { split; [apply Z.div_le_lower_bound|apply Z.div_le_upper_bound]; lia. }
    set (mid := (low + high) / 2) in *.
    destruct (lookup_lt_is_Some_2 l (Z.to_nat mid)) as [a Ha]; [lia|].
    assert (Ea : Tcl.lindex l mid = a).
    { unfold Tcl.lindex. destruct (Z.ltb_spec mid 0) as [|_]; [lia|].
      rewrite Ha. reflexivity. }
    rewrite Ea.
    destruct (abs_diff_finite t Ht a (lookup_finite _ a Ha)) as [d ->].
    destruct (Tcl.probe_in_loop tie_lower a d clo md) as [c' m'].
    destruct (Z.compare_spec mid (Z.of_nat i0)) as [C|C|C].
    + assert (a = e) as -> by (rewrite C, Nat2Z.id in Ha; congruence).
      destruct at_hit as [-> ->]. reflexivity.
    + rewrite (below_hit (Z.to_nat mid) a Ha) by lia.
      apply IH; lia.
    + destruct (above_hit (Z.to_nat mid) a Ha) as [-> ->]; [lia|].
      apply IH; lia.
Qed.

End ExactHit.

(** X15.  An exact match is found.  On a list of finite numbers that
    increase strictly, when the target is numerically equal to an
    element of the list, [findClosestValue] returns that element (its
    text in the list), with or without [-TIELOW]. *)
Theorem closest_value_exact_match (tie_lower : bool) (l : list string)
        (t e : string) :
  forallb finite_number l = true -> increasing l = true ->
  finite_number t = true -> In e l -> same_number e t = true ->
  Tcl.findClosestValue tie_lower l t = Tcl.Return e.
Proof.
  intros Hl Hinc Ht He Hsame.
  apply list_elem_of_In, list_elem_of_lookup_1 in He. destruct He as [i0 He].
  pose proof (lookup_lt_Some l i0 e He) as Hi0.
  unfold Tcl.findClosestValue.
  destruct (Z.eqb_spec (Z.of_nat (length l)) 0) as [|_]; [lia|].
  assert (I : In (Tcl.lindex l 0) l) by (apply lindex_In; lia).
  destruct (abs_diff_finite t Ht _ (In_finite l Hl _ I)) as [d ->].
  apply (search_exact tie_lower l t e i0 Hl Hinc Ht He Hsame); lia.
Qed.

(** The x values 1 and 2.00 against the nodes 0.0, 1.0, 2.0. *)
Lemma closest_value_exact_match_witness :
  Tcl.findClosestValue false test_nodes "1" = Tcl.Return "1.0" /\
  Tcl.findClosestValue true test_nodes "2.00" = Tcl.Return "2.0".
Proof.
  split.
  - apply closest_value_exact_match;
      [vm_compute; reflexivity| vm_compute; reflexivity| vm_compute; reflexivity
      | simpl; tauto | vm_compute; reflexivity].
  - apply closest_value_exact_match;
      [vm_compute; reflexivity| vm_compute; reflexivity| vm_compute; reflexivity
      | simpl; tauto | vm_compute; reflexivity].
Defined.

(** ** Exit statuses *)

Section ExitStatus.

Lemma parse_loop_exit (n : nat) :
  forall (args : list string) (opt : Options) (s : Z) (m : string),
    (length args <= n)%nat ->
    parse_loop args opt = Exit s m ->
    s = EXIT_FAILURE \/
    (s = EXIT_SUCCESS /\ (In "-h" args \/ In "--help" args)).
Proof.
  induction n as [|n IH]; intros args opt s m Hlen.
  - destruct args; [discriminate|simpl in Hlen; lia].
  - destruct args as [|a rest]; [discriminate|].
    simpl in Hlen. simpl parse_loop.
    assert (Up : forall o : Options,
               (length rest <= n)%nat ->
               parse_loop rest o = Exit s m ->
               s = EXIT_FAILURE \/
               (s = EXIT_SUCCESS /\ (In "-h" (a :: rest) \/ In "--help" (a :: rest)))).
    { intros o Hl H. destruct (IH rest o s m Hl H) as [F|[S [I|I]]];
        [left; exact F|right; split; [exact S|left; right; exact I]
        |right; split; [exact S|right; right; exact I]]. }
    destruct (String.eqb a "-h") eqn:E1.
    { simpl. intros [= <- _]. right. split; [reflexivity|].
      left. left. apply String.eqb_eq in E1. congruence. }
    destruct (String.eqb a "--help") eqn:E2.
    { simpl. intros [= <- _]. right. split; [reflexivity|].
      right. left. apply String.eqb_eq in E2. congruence. }
    simpl orb.
    destruct (String.prefix "-R" a || String.prefix "R" a).
    { destruct (parse_region a) as [[[[x0 x1] y0] y1]|].
      - apply Up. lia.
      - intros [= <- _]. left. reflexivity. }
    destruct (String.eqb a "-I" || String.prefix "-I" a).
    { unfold take_inc.
      destruct (String.substring 2 (String.length a - 2) a) as [|c val].
      - destruct rest as [|val rest']; [intros [= <- _]; left; reflexivity|].
        destruct (parse_double_arg val) as [v|];
          [|intros [= <- _]; left; reflexivity].
        destruct (le v zero); [intros [= <- _]; left; reflexivity|].
        simpl. intros H.
        destruct (IH rest' _ s m ltac:(simpl in Hlen; lia) H) as [F|[S [I|I]]];
          [left; exact F|right; split; [exact S|left; right; right; exact I]
          |right; split; [exact S|right; right; right; exact I]].
      - destruct (parse_double_arg (String c val)) as [v|];
          [|intros [= <- _]; left; reflexivity].
        destruct (le v zero); [intros [= <- _]; left; reflexivity|].
        simpl. apply Up. lia. }
    destruct (String.eqb a "-PATH" || String.eqb a "-path").
    { destruct rest as [|p rest']; [intros [= <- _]; left; reflexivity|].
      intros H.
      destruct (IH rest' _ s m ltac:(simpl in Hlen; lia) H) as [F|[S [I|I]]];
        [left; exact F|right; split; [exact S|left; right; right; exact I]
        |right; split; [exact S|right; right; right; exact I]]. }
    destruct (String.eqb a "-MAX"); [apply Up; lia|].
    destruct (String.eqb a "-o").
    { destruct rest as [|o rest']; [intros [= <- _]; left; reflexivity|].
      intros H.
      destruct (IH rest' _ s m ltac:(simpl in Hlen; lia) H) as [F|[S [I|I]]];
        [left; exact F|right; split; [exact S|left; right; right; exact I]
        |right; split; [exact S|right; right; right; exact I]]. }
    destruct (String.eqb a "--tclround"); [apply Up; lia|].
    destruct (String.prefix "-" a); [intros [= <- _]; left; reflexivity|].
    destruct (path opt); [intros [= <- _]; left; reflexivity|].
    apply Up. lia.
Qed.

End ExitStatus.

(** X16.  Exit statuses.  A run that ends with [exit] has status
    [EXIT_FAILURE], except that it has status [EXIT_SUCCESS] after the
    usage text of [-h] or [--help], which then is among the arguments:
    no error ends a run with status 0. *)
Theorem errors_exit_with_failure (w : world) (argv : list string)
        (s : Z) (m : string) :
  main w argv = Exit s m ->
  s = EXIT_FAILURE \/
  (s = EXIT_SUCCESS /\ (In "-h" (tail argv) \/ In "--help" (tail argv))).
Proof.
  unfold main, parse_args.
  destruct (parse_loop (tail argv) default_options) as [o|s0 m0|] eqn:L;
    [|simpl; intros [= <- <-];
      apply (parse_loop_exit (length (tail argv)) (tail argv) default_options s0 m0);
      [apply le_n|exact L]
     |discriminate].
  simpl.
  destruct (path o) as [p|]; [|simpl; intros [= <- _]; left; reflexivity].
  destruct (negb (gt (xmax o) (xmin o) && gt (ymax o) (ymin o)));
    [simpl; intros [= <- _]; left; reflexivity|].
  set (opt := match out o with Some _ => Done o | None => _ end).
  assert (O : exists opt' : Options, opt = Done opt')
    by (unfold opt; destruct (out o); eauto).
  destruct O as [opt' ->]. simpl.
  destruct (grid_dims opt') as [[nx ny]|s1 m1|] eqn:G; [|simpl|discriminate].
  2:{ intros [= <- <-]. left. unfold grid_dims in G.
      destruct (negb _) in G; [injection G as <- _; reflexivity|].
      destruct (cast_size _) in G; [|discriminate].
      destruct (cast_size _) in G; discriminate. }
  simpl.
  destruct (safe_mul_size_t nx ny) as [ncell|s2 m2|] eqn:M; [|simpl|discriminate].
  2:{ intros [= <- <-]. left. unfold safe_mul_size_t in M.
      destruct (_ || _)%bool in M; [discriminate|].
      destruct (_ <? _)%Z in M; [injection M as <- _; reflexivity|discriminate]. }
  simpl.
  destruct (negb (can_alloc w _)); [intros [= <- _]; left; reflexivity|].
  destruct (negb (can_alloc w _)); [intros [= <- _]; left; reflexivity|].
  destruct (_ <? _)%Z; [discriminate|].
  destruct (read_file w _); [|intros [= <- _]; left; reflexivity].
  destruct (negb (can_write w _)); [intros [= <- _]; left; reflexivity|].
  discriminate.
Qed.

(** The test command with [--help] after the region, and the test
    command on a world without the input file. *)
Lemma errors_exit_with_failure_witness :
  (exists m : string,
     main test_world ["blockminmax"; "-R0/2/0/2"; "--help"] = Exit EXIT_SUCCESS m) /\
  (exists m : string,
     main {| read_file := fun _ => None; can_write := fun _ => true;
             can_alloc := fun _ => true |} test_argv = Exit EXIT_FAILURE m).
Proof.
  split.
  - destruct (errors_exit_with_failure test_world
                ["blockminmax"; "-R0/2/0/2"; "--help"] EXIT_SUCCESS
                "Usage: blockminmax -Rxmin/xmax/ymin/ymax [-Iinc] -PATH <file> [-MAX] [-o <outfile>] [--tclround]")
      as [F|[_ _]]; [vm_compute; reflexivity|discriminate F|].
    eexists. vm_compute. reflexivity.
  - eexists. vm_compute. reflexivity.
Defined.

(** ** A repeated line *)

Lemma store_idempotent (min : bool) (idx : nat) (z : double)
      (g : list double) (h : list bool) :
  store min idx z (fst (store min idx z g h)) (snd (store min idx z g h))
  = store min idx z g h.
Proof.
  assert (Irr : (if min then lt z z else gt z z) = false)
    by (destruct min; apply lt_irrefl).
  assert (Nan : (if min then lt z S754_nan else gt z S754_nan) = false)
    by (destruct min; [apply lt_nan_r|apply lt_nan_l]).
  unfold store. cbn [fst snd].
  rewrite list_insert_insert_eq.
  destruct (Nat.lt_ge_cases idx (length h)) as [Lh|Lh].
  - rewrite (list_lookup_insert_eq h idx true Lh). cbn [from_option id negb orb].
    destruct (h !! idx) as [b|] eqn:Hb;
      [|apply lookup_ge_None in Hb; lia].
    cbn [from_option id].
    destruct (negb b || (if min then lt z (default S754_nan (g !! idx))
                         else gt z (default S754_nan (g !! idx)))) eqn:W.
    + destruct (Nat.lt_ge_cases idx (length g)) as [Lg|Lg].
      * rewrite (list_lookup_insert_eq g idx z Lg). cbn [from_option id].
        rewrite Irr. reflexivity.
      * rewrite (list_insert_ge g idx z Lg).
        rewrite (lookup_ge_None_2 g idx Lg). cbn [from_option id].
        rewrite Nan. reflexivity.
    + apply orb_false_iff in W. destruct W as [_ W]. rewrite W. reflexivity.
  - rewrite (list_insert_ge h idx true Lh).
    rewrite (lookup_ge_None_2 h idx Lh). cbn [from_option id negb orb].
    rewrite list_insert_insert_eq. reflexivity.
Qed.

(** X17.  A line that is read twice in a row changes the two arrays
    only the first time: after it, the cell holds a value that the same
    z does not improve on (also when z is a NaN). *)
Theorem repeated_line_changes_nothing (opt : Options) (nx ny : Z)
        (st : state) (line : string) :
  let st1 := process_line opt nx ny st line in
  grid (process_line opt nx ny st1 line) = grid st1 /\
  hit (process_line opt nx ny st1 line) = hit st1.
Proof.
  intros st1. destruct (route opt nx ny line) as [[i z]|] eqn:R.
  - destruct (process_line_routed opt nx ny st line i z R) as [G1 H1].
    destruct (process_line_routed opt nx ny st1 line i z R) as [G2 H2].
    fold st1 in G1, H1. rewrite G2, H2, G1, H1.
    rewrite store_idempotent. split; reflexivity.
  - rewrite (process_line_skipped opt nx ny st1 line R). split; reflexivity.
Qed.

(** ** Dimensions that [size_t] cannot hold *)

Section HugeDims.

Lemma two64_key : key two64 = (1, 12, 4503599627370496).
Proof. vm_compute. reflexivity. Qed.

Lemma two64_not_nan : is_nan two64 = false.
Proof. vm_compute. reflexivity. Qed.

(** For a canonical double that compares [>= 1.0], the conversion to
    [size_t] is undefined exactly from 2^64 on. *)
Lemma cast_size_none_iff (x : double) :
  valid_binary prec emax x = true -> ge x one = true ->
  cast_size x = None <-> ge x two64 = true.
Proof.
  unfold ge. rewrite !le_iff. rewrite two64_key. intros V (_ & Nx & K).
  destruct x as [s|s| |s m e]; try discriminate Nx.
  { simpl in K. unfold key_lt in K. destruct K as [K|K]; [lia|discriminate]. }
  { destruct s.
    - simpl in K. unfold key_lt in K. destruct K as [K|K]; [lia|discriminate].
    - split; [intros _|reflexivity].
      split; [apply two64_not_nan|]. split; [reflexivity|].
      left. simpl. lia. }
  destruct s.
  { simpl in K. unfold key_lt in K. destruct K as [K|K]; [lia|discriminate]. }
  assert (He : -52 < e \/ (e = -52 /\ 4503599627370496 <= Zpos m)).
  { simpl in K. unfold key_lt in K. destruct K as [K|K]; [lia|].
    inversion K. lia. }
  simpl in V. unfold bounded, canonical_mantissa in V.
  apply andb_true_iff in V. destruct V as [V _]. apply Z.eqb_eq in V.
  rewrite digits2_log2 in V. unfold fexp, emin, prec, emax in V.
  assert (L : Z.log2 (Zpos m) = 52) by lia.
  assert (M1 : 2 ^ 52 <= Zpos m) by (apply Z.log2_le_pow2; lia).
  assert (M2 : Zpos m < 2 ^ 53) by (apply Z.log2_lt_pow2; lia).
  change (2 ^ 52) with 4503599627370496 in M1.
  change (2 ^ 53) with 9007199254740992 in M2.
  unfold cast_size, truncate, SIZE_MAX.
  change (2 ^ 64) with 18446744073709551616.
  simpl key. unfold key_lt.
  destruct (Z.leb_spec 0 e) as [E0|E0].
  - rewrite Z.shiftl_mul_pow2 by lia.
    assert (P0 : 0 < 2 ^ e) by (apply Z.pow_pos_nonneg; lia).
    destruct (Z.leb_spec 0 (Zpos m * 2 ^ e)) as [_|]; [|nia].
    destruct (Z.le_gt_cases 12 e) as [E|E].
    + assert (P : 2 ^ 12 <= 2 ^ e) by (apply Z.pow_le_mono_r; lia).
      change (2 ^ 12) with 4096 in P.
      destruct (Z.leb_spec (Zpos m * 2 ^ e) (18446744073709551616 - 1)) as [B|B];
        [nia|].
      split; [intros _|reflexivity].
      split; [apply two64_not_nan|]. split; [reflexivity|].
      destruct (Z.eq_dec e 12) as [->|];
        [|left; right; split; [reflexivity|left; lia]].
      destruct (Z.eq_dec (Zpos m) 4503599627370496) as [->|];
        [right; reflexivity|left; right; split; [reflexivity|right; lia]].
    + assert (P : 2 ^ e <= 2 ^ 11) by (apply Z.pow_le_mono_r; lia).
      change (2 ^ 11) with 2048 in P.
      destruct (Z.leb_spec (Zpos m * 2 ^ e) (18446744073709551616 - 1)) as [B|B];
        [|nia].
      split; [discriminate|]. intros (_ & _ & [Q|Q]); [lia|].
      injection Q as Q _. lia.
  - rewrite Z.shiftr_div_pow2 by lia.
    assert (P0 : 0 < 2 ^ (- e)) by (apply Z.pow_pos_nonneg; lia).
    assert (D : 0 <= Zpos m / 2 ^ (- e) <= Zpos m).
    { split; [apply Z.div_pos; lia|].
      apply Z.div_le_upper_bound; [lia|]. nia. }
    destruct (Z.leb_spec 0 (Zpos m / 2 ^ (- e))) as [_|]; [|lia].
    destruct (Z.leb_spec (Zpos m / 2 ^ (- e)) (18446744073709551616 - 1)) as [B|B];
      [|lia].
    split; [discriminate|]. intros (_ & _ & [Q|Q]); [lia|].
    injection Q as Q _. lia.
Qed.

End HugeDims.

(** X18.  The dimension check has no upper bound.  [main] converts the
    dimensions [nx_d] and [ny_d] to [size_t] once both compare [>= 1.0];
    the conversion, and with it the run, is undefined exactly when one
    of them is 2^64 or more (an infinity included): such a region is not
    refused with a message. *)
Theorem huge_dimensions_are_undefined (opt : Options) :
  grid_dims opt = Undefined <->
  ge (nx_d opt) one = true /\ ge (ny_d opt) one = true /\
  (ge (nx_d opt) two64 = true \/ ge (ny_d opt) two64 = true).
Proof.
  unfold grid_dims. fold (nx_d opt). fold (ny_d opt).
  assert (Vx : valid_binary prec emax (nx_d opt) = true) by apply add_one_valid.
  assert (Vy : valid_binary prec emax (ny_d opt) = true) by apply add_one_valid.
  destruct (ge (nx_d opt) one) eqn:Gx;
    [|split; [discriminate|intros (H & _); discriminate H]].
  destruct (ge (ny_d opt) one) eqn:Gy;
    [|split; [discriminate|intros (_ & H & _); discriminate H]].
  cbn [andb negb].
  pose proof (cast_size_none_iff (nx_d opt) Vx Gx) as Cx.
  pose proof (cast_size_none_iff (ny_d opt) Vy Gy) as Cy.
  destruct (cast_size (nx_d opt)) as [nx|].
  - destruct (cast_size (ny_d opt)) as [ny|].
    + split; [discriminate|]. intros (_ & _ & [H|H]).
      * apply Cx in H. discriminate H.
      * apply Cy in H. discriminate H.
    + split; [intros _|reflexivity]. split; [reflexivity|]. split; [reflexivity|].
      right. apply Cy. reflexivity.
  - split; [intros _|reflexivity]. split; [reflexivity|]. split; [reflexivity|].
    left. apply Cx. reflexivity.
Qed.

(** A region of 1e300 steps along x: the options are accepted and the
    run is undefined from the conversion on. *)
Lemma huge_dimensions_are_undefined_witness :
  exists opt : Options,
    parse_args huge_argv = Done opt /\ grid_dims opt = Undefined /\
    main test_world huge_argv = Undefined.
Proof.
  eexists. split; [vm_compute; reflexivity|].
  split; [|vm_compute; reflexivity].
  apply huge_dimensions_are_undefined.
  split; [vm_compute; reflexivity|]. split; [vm_compute; reflexivity|].
  left. vm_compute. reflexivity.
Defined.
